(* ===== verification/_CoqProject ===== *)
-Q . S2P
Prelude.v
Chars.v
Classifier.v
RegexRef.v
CondStack.v
CondRef.v
Symtab.v
Emitter.v
FileSystem.v
FileProc.v
FileRef.v
Scenarios.v
CliArgs.v
