(* ===== verification/Prelude.v ===== *)
(** * A verification development for [src/c-preprocess.py]

    The program is a conditional-compilation flattener.  [process_file]
    (src/c-preprocess.py, lines 35-187) reads one file, scans its lines once,
    keeps the lines that the [#ifdef]/[#ifndef]/[#if defined(..)]/[#else]/
    [#elif]/[#endif] directives leave active, inlines [#include]d files by a
    recursive call, honours [#pragma once] through a registry shared by the
    whole run, and writes a line marker wherever the kept lines are not
    consecutive.  [main] (lines 193-270) parses the command line and the
    command of a compile database and calls [process_file] once.

    ** Files and what they model

    - [Prelude] (this file): text as [list ascii], the scanning primitives
      the regular expressions reduce to ([take_while], [drop_while],
      [strip_prefix]), Python list operations used on stacks ([py_last],
      [py_pop], [py_set_last]), the exceptions the program can raise
      ([pyerror]) and the result type [outcome] with its [let*] notation, the
      tactics and the hint database [cpp] of the development.
    - [Chars]: the character classes of Python's [re] on ASCII text
      ([\s], [\w], [\S], [.]) and [str.strip]'s emptiness test.
    - [Classifier]: the regular expressions of lines 9-25 as direct
      matchers that scan without backtracking: [command_re_match] (which
      directive a line is, and its argument text) and one matcher per
      directive argument ([include_re_match], [ifdef_re_match],
      [define_re_match], [undef_re_match], [if_re_match],
      [function_re_match], [pragma_re_match]).  These are the functions
      [process_line] calls.
    - [RegexRef]: the same expressions as syntax trees ([command_re],
      [include_re], ...), with the search order of [re] as a list of
      successes ([run], [re_match], [group]).
    - [CondStack]: the two parallel lists [ifs] and [allow_else] of
      lines 46-58 and 89-133 with [is_valid], [add_if], [do_endif],
      [do_else], [do_elif]; the stack of frames of the specification.
    - [CondRef]: the frames of the C preprocessor, as a reference the
      lists are compared with.  It models no code.
    - [Symtab]: the symbol table [defines] (a [gmap] from names to optional
      values) with [defined], [define], [undef].
    - [Emitter]: [line_str], [emit] and the splice of an included file's
      output (lines 65-78 and 153-156), over the pair [(res, last_iline)].
    - [FileSystem]: the interface to [pathlib] and the file system as a
      type class, and an in-memory instance [mem_fs] on which the model
      runs on concrete trees of files.
    - [FileProc]: [process_line] (one iteration of the loop of line 79 with
      the whole dispatch of lines 81-185), [process_lines] (the loop), and
      [process_file] (the function), with the include search of lines
      144-159.
    - [FileRef]: the lines a C preprocessor keeps of a file of text and
      conditional directives ([ref_lines], over the frames of [CondRef]),
      as a reference for [process_file].  It models no code.
    - [Scenarios]: families of small files ([elif_file], [scope_main] with
      [scope_header]) on which [process_file] is run.
    - [CliArgs]: [main]: the option loop of lines 208-217, the three file
      arguments, the lookup in the compile database, the [-I]/[-D] switch
      scan of lines 245-253, [parse_define], and the call of
      [process_file].

    ** Correspondence of state

    A call of [process_file] owns [defines], [ifs], [allow_else], [res],
    [last_iline] (record [pstate] of [FileProc]) and shares
    [included_filepaths] with every other call of the run; the model threads
    that set through every call and returns it, so the sharing by reference
    of the source is the state passing of the model.  [defines] is copied on
    entry (line 43): the model passes the map by value.  An exception of the
    source aborts the whole run; the model returns [Raise e] and every
    caller propagates it.

    ** What the theorems show

    - [CondStack]: every stack the directives can build is well formed
      ([reachable_wf]); on such a stack the top entry of [ifs] is the
      conjunction of all entries ([is_valid_all_active]); the lists
      implement the frames of the specification, failures included
      ([apply_op_refines]); the depth follows the nesting of the
      directives, and a well-nested run restores the stack
      ([apply_op_depth], [balanced_restores]).
    - [CondRef]: the lists agree with the C preprocessor on every run in
      which no [#else] or [#elif] is met in an active branch
      ([run_ops_reference]) and differ on an [#else] that is
      ([else_in_active_branch]).
    - [RegexRef]: the search is sound and complete for the language of the
      expression ([run_sound], [run_complete], [re_match_None]), and each
      direct matcher returns the groups of its first success
      ([command_re_ref], [include_re_ref], [define_re_ref], [if_re_ref],
      [function_re_ref], [ifdef_re_ref], [pragma_re_ref]).
    - [Classifier]: directives written out are read back
      ([directive_line_roundtrip], [include_re_match_roundtrip]); a keyword
      needs no word boundary ([keyword_needs_no_boundary]).
    - [Emitter]: where [emit] writes a marker and what it carries
      ([emit_spec]); the marker behind an included file
      ([splice_then_emit]).
    - [FileProc]: an acyclic include graph needs a fuel of one more than
      its size ([process_file_terminates]); files that start with
      [#pragma once] may include each other in cycles
      ([pragma_once_terminates]); a file that includes itself never
      returns ([self_include_diverges]); the registry only grows and makes
      a second visit empty ([registry_grows], [pragma_once_second_call]);
      a file of text and conditionals gives exactly the lines around which
      every entry of [ifs] is true ([retained_lines]); what a file without
      directives, with [#ifdef]/[#else], with [#define], with an unknown
      [#undef] or a missing include gives ([process_file_plain],
      [ifdef_else_keeps_both], [define_then_ifdef],
      [undef_unknown_raises], [include_missing_raises]); an inactive line
      does nothing ([inactive_line_skipped]).
    - [FileRef]: for a file of text and conditionals in which no [#else]
      and no [#elif] is met in an active branch, [process_file] returns
      the lines the C preprocessor keeps and raises where it has no block
      to act on ([conditionals_as_in_C]).
    - [Scenarios]: an [#if]/[#elif]/[#else] chain keeps up to three
      branches ([elif_chain]); the symbols of a file are defined in the
      files it includes, and those of an included file are not defined
      behind the [#include] ([include_scope]); an opening directive
      without argument raises in a skipped block too
      ([skipped_directive_is_read]).
    - [CliArgs]: which arguments the option loop takes
      ([parse_options_spec]); what the switch scan records
      ([define_switch_faithful]); when [parse_define] returns
      ([parse_define_spec]); [main] as one call of [process_file], and the
      command lines on which it raises ([main_spec],
      [main_value_define_fails], [main_needs_three_files]).

    ** Fuel

    The recursion of [process_file] through [#include] need not terminate
    (a file that includes itself).  The model takes a bound [fuel] on the
    depth of nested calls and returns [Timeout] when the bound is reached.
    The lemma [process_file_fuel_mono] says that a result other than
    [Timeout] is the result for every larger fuel, [process_file_terminates]
    that the files of a list in which each file includes only later files
    get a result with a fuel of one more than the length of the list, and
    [pragma_once_terminates] that files guarded by [#pragma once] get one
    with a fuel of one more than the number of files outside the registry;
    so every theorem that says "returns" names a fuel that suffices, and
    [Timeout] for every fuel ([self_include_diverges]) stands for a run
    that does not end.  Python ends such a run with [RecursionError] when
    its recursion limit is reached; the limit is not modelled.

    ** Bounds of the model

    Text is ASCII ([ascii], one byte per character): the Unicode classes of
    [\w] and [\s] beyond code 127 are not modelled, and a character above
    127 is neither a word character nor white space.  [RegexRef] covers the
    constructs the expressions of the program use: literals, greedy
    repetition of a character class, sequence, alternation, an optional
    part and groups.  Lines are the elements [readlines] returns; the model
    does not split text into lines.

    ** Not modelled

    [log] and the printing of [main] (the text that would be printed is the
    result of [main]); [json.load] (the parsed entries are an argument of
    [main], each with its file and its command: a database that cannot be
    parsed or an entry without these keys is outside the model);
    [make_relative] and [base_path] of lines 220 and 234-238,
    which are never used; the [indent] argument of [process_file], which
    only [log] reads.  [pathlib], [re], [json], [sys] and [os] are
    libraries: the first is the interface [FileSystem], the second the
    semantics of [RegexRef]. *)

From Stdlib Require Import Ascii String List Bool Arith Lia.
From Stdlib Require Import DecimalString DecimalNat.
From stdpp Require Import base tactics option list strings.

#[local] Open Scope list_scope.

(** ** Text *)

(** A Python [str] restricted to ASCII. *)
Abbreviation text := (list ascii).

(** String literals of the development: [txt "abc"] is the text [abc]. *)
Definition txt (s : string) : text := list_ascii_of_string s.

Definition nl : ascii := ascii_of_nat 10.

(** [ln "abc"]: the line [abc] with its line feed. *)
Definition ln (s : string) : text := txt s ++ [ascii_of_nat 10].
Definition dquote : ascii := ascii_of_nat 34.

(** [str(n)] for a non-negative integer. *)
Definition str_of_nat (n : nat) : text :=
  txt (NilEmpty.string_of_uint (Nat.to_uint n)).

(** ** Scanning primitives *)

Section Scan.
Context {A : Type}.

(** The longest prefix whose elements satisfy [p]: what a greedy [c*] or
    [c+] over a character class consumes. *)
Fixpoint take_while (p : A -> bool) (l : list A) : list A :=
  match l with
  | [] => []
  | x :: l' => if p x then x :: take_while p l' else []
  end.

(** What is left after [take_while]. *)
Fixpoint drop_while (p : A -> bool) (l : list A) : list A :=
  match l with
  | [] => []
  | x :: l' => if p x then drop_while p l' else l
  end.

Lemma take_drop_while p l : take_while p l ++ drop_while p l = l.
Proof. induction l as [|x l IH]; simpl; [done|]. destruct (p x); simpl; congruence. Qed.

Lemma take_while_Forall p l : Forall (fun x => p x = true) (take_while p l).
Proof.
  induction l as [|x l IH]; simpl; [constructor|].
  destruct (p x) eqn:E; by constructor.
Qed.

Lemma drop_while_head p l x l' : drop_while p l = x :: l' -> p x = false.
Proof.
  induction l as [|y l IH]; simpl; [done|].
  destruct (p y) eqn:E; [done|]. by intros [= <- _].
Qed.

Lemma take_while_app_stop p l1 l2 :
  Forall (fun x => p x = true) l1 ->
  match l2 with [] => True | x :: _ => p x = false end ->
  take_while p (l1 ++ l2) = l1.
Proof.
  induction 1 as [|x l Hx _ IH]; simpl.
  - destruct l2 as [|y l2]; simpl; [done|]. by intros ->.
  - intros H2. by rewrite Hx, IH.
Qed.

Lemma drop_while_app_stop p l1 l2 :
  Forall (fun x => p x = true) l1 ->
  match l2 with [] => True | x :: _ => p x = false end ->
  drop_while p (l1 ++ l2) = l2.
Proof.
  induction 1 as [|x l Hx _ IH]; simpl.
  - destruct l2 as [|y l2]; simpl; [done|]. by intros ->.
  - intros H2. by rewrite Hx, IH.
Qed.

Lemma take_while_all p l :
  Forall (fun x => p x = true) l -> take_while p l = l.
Proof.
  intros H. rewrite <- (app_nil_r l) at 1.
  by apply take_while_app_stop.
Qed.

Lemma drop_while_all p l :
  Forall (fun x => p x = true) l -> drop_while p l = [].
Proof.
  intros H. rewrite <- (app_nil_r l) at 1.
  by apply drop_while_app_stop.
Qed.

Lemma drop_while_none p x l : p x = false -> drop_while p (x :: l) = x :: l.
Proof. simpl. by intros ->. Qed.

Lemma take_while_none p x l : p x = false -> take_while p (x :: l) = [].
Proof. simpl. by intros ->. Qed.

Lemma drop_while_idemp p l : drop_while p (drop_while p l) = drop_while p l.
Proof.
  destruct (drop_while p l) as [|x l'] eqn:E; [done|].
  apply drop_while_none. eapply drop_while_head, E.
Qed.

Lemma length_drop_while p l : length (drop_while p l) <= length l.
Proof.
  induction l as [|x l IH]; simpl; [done|]. destruct (p x); simpl; lia.
Qed.

Lemma forallb_Forall_true (p : A -> bool) (l : list A) :
  forallb p l = true <-> Forall (fun x => p x = true) l.
Proof.
  induction l as [|x l IH]; simpl.
  - split; [constructor|done].
  - rewrite andb_true_iff, IH, Forall_cons. done.
Qed.

Lemma take_while_ext p q l :
  (forall x, p x = q x) -> take_while p l = take_while q l.
Proof. intros E. induction l as [|x l IH]; simpl; [done|]. by rewrite E, IH. Qed.

End Scan.

Section Prefix.
Context {A : Type} `{EqDecision A}.

(** [s.startswith(p)] and the rest of [s] behind [p]: the match of a literal. *)
Fixpoint strip_prefix (p s : list A) : option (list A) :=
  match p, s with
  | [], _ => Some s
  | _ :: _, [] => None
  | a :: p', b :: s' => if decide (a = b) then strip_prefix p' s' else None
  end.

Definition starts_with (p s : list A) : bool :=
  match strip_prefix p s with Some _ => true | None => false end.

Lemma strip_prefix_Some p s r : strip_prefix p s = Some r <-> s = p ++ r.
Proof.
  revert s; induction p as [|a p IH]; intros s; simpl.
  - split; congruence.
  - destruct s as [|b s]; [split; discriminate|].
    destruct (decide (a = b)) as [->|Hne].
    + rewrite IH. split; congruence.
    + split; [discriminate|]. intros [= -> _]. done.
Qed.

Lemma strip_prefix_app p r : strip_prefix p (p ++ r) = Some r.
Proof. by apply strip_prefix_Some. Qed.

Lemma strip_prefix_None p s : strip_prefix p s = None <-> forall r, s <> p ++ r.
Proof.
  split.
  - intros H r ->. by rewrite strip_prefix_app in H.
  - intros H. destruct (strip_prefix p s) as [r|] eqn:E; [|done].
    apply strip_prefix_Some in E. by destruct (H r).
Qed.

Lemma starts_with_true p s : starts_with p s = true <-> exists r, s = p ++ r.
Proof.
  unfold starts_with. destruct (strip_prefix p s) as [r|] eqn:E.
  - apply strip_prefix_Some in E. split; eauto.
  - split; [discriminate|]. intros [r ->]. by rewrite strip_prefix_app in E.
Qed.

End Prefix.

(** ** Python lists used as stacks *)

Section PyList.
Context {A : Type}.

(** [l[-1]]: [None] stands for the [IndexError] of an empty list. *)
Definition py_last (l : list A) : option A := last l.

(** [l.pop()], the list that remains. *)
Definition py_pop (l : list A) : option (list A) :=
  match l with [] => None | _ => Some (removelast l) end.

(** [l[-1] = x]. *)
Definition py_set_last (x : A) (l : list A) : option (list A) :=
  match l with [] => None | _ => Some (removelast l ++ [x]) end.

Lemma py_last_nil : py_last [] = None.
Proof. done. Qed.

Lemma py_last_snoc l x : py_last (l ++ [x]) = Some x.
Proof. apply last_snoc. Qed.

Lemma py_pop_nil : py_pop [] = None.
Proof. done. Qed.

Lemma py_pop_snoc l x : py_pop (l ++ [x]) = Some l.
Proof.
  unfold py_pop. rewrite removelast_last.
  by destruct l.
Qed.

Lemma py_set_last_nil x : py_set_last x [] = None.
Proof. done. Qed.

Lemma py_set_last_snoc l x y : py_set_last y (l ++ [x]) = Some (l ++ [y]).
Proof.
  unfold py_set_last. rewrite removelast_last.
  by destruct l.
Qed.

Lemma concat_snoc (ls : list (list A)) l : concat (ls ++ [l]) = concat ls ++ l.
Proof. rewrite concat_app. simpl. by rewrite app_nil_r. Qed.

Lemma snoc_cases (l : list A) : l = [] \/ exists l' x, l = l' ++ [x].
Proof. destruct l as [|x l] using rev_ind; eauto. Qed.

Lemma py_last_None l : py_last l = None <-> l = [].
Proof.
  destruct (snoc_cases l) as [->|(l' & x & ->)]; [done|].
  rewrite py_last_snoc. split; [done|]. by destruct l'.
Qed.

End PyList.

(** ** Exceptions and results *)

(** The exceptions the program can raise, by their Python class.
    [NotFound p] is the [Exception] of line 159 for the include [p];
    [OSError] is a failing [open]; [TypeError] is a call with the wrong
    number of arguments. *)
Inductive pyerror : Type :=
  | AssertionError
  | IndexError
  | AttributeError
  | KeyError (k : text)
  | NotFound (p : text)
  | OSError
  | TypeError.

#[export] Instance pyerror_eq_dec : EqDecision pyerror.
Proof. solve_decision. Defined.

(** What a modelled call does: it returns, it raises, or the fuel of the
    model ran out before it did either. *)
Inductive outcome (A : Type) : Type :=
  | Done (a : A)
  | Raise (e : pyerror)
  | Timeout.

Arguments Done {A} a.
Arguments Raise {A} e.
Arguments Timeout {A}.

#[export] Instance outcome_eq_dec {A} `{EqDecision A} : EqDecision (outcome A).
Proof. solve_decision. Defined.

Definition obind {A B} (m : outcome A) (f : A -> outcome B) : outcome B :=
  match m with
  | Done a => f a
  | Raise e => Raise e
  | Timeout => Timeout
  end.

(** [expect e o]: the value of [o], or the exception [e] when there is none
    (a failed [assert], a [None] that is dereferenced, a missing key). *)
Definition expect {A} (e : pyerror) (o : option A) : outcome A :=
  match o with Some a => Done a | None => Raise e end.

(** The value of a call that returned. *)
Definition outcome_value {A} (m : outcome A) : option A :=
  match m with Done a => Some a | _ => None end.

Definition is_done {A} (m : outcome A) : bool :=
  match m with Done _ => true | _ => false end.

Definition is_timeout {A} (m : outcome A) : bool :=
  match m with Timeout => true | _ => false end.

Declare Scope outcome_scope.
Delimit Scope outcome_scope with outcome.

Notation "'let*' x ':=' m 'in' k" := (obind m (fun x => k))
  (at level 10, x name, m at level 100, k at level 200) : outcome_scope.
Notation "'let*' ' p ':=' m 'in' k" := (obind m (fun x => let 'p := x in k))
  (at level 10, p pattern, m at level 100, k at level 200) : outcome_scope.

Lemma obind_Done {A B} (a : A) (f : A -> outcome B) : obind (Done a) f = f a.
Proof. done. Qed.

Lemma obind_ret {A} (m : outcome A) : obind m Done = m.
Proof. by destruct m. Qed.

Lemma obind_assoc {A B C} (m : outcome A) (f : A -> outcome B) (g : B -> outcome C) :
  obind (obind m f) g = obind m (fun a => obind (f a) g).
Proof. by destruct m. Qed.

Lemma obind_Done_inv {A B} (m : outcome A) (f : A -> outcome B) b :
  obind m f = Done b -> exists a, m = Done a /\ f a = Done b.
Proof. destruct m; simpl; [eauto|done..]. Qed.

Lemma obind_Timeout_inv {A B} (m : outcome A) (f : A -> outcome B) :
  obind m f = Timeout -> m = Timeout \/ exists a, m = Done a /\ f a = Timeout.
Proof. destruct m; simpl; eauto. done. Qed.

Lemma expect_Done {A} e (o : option A) a : expect e o = Done a <-> o = Some a.
Proof. destruct o; simpl; split; congruence. Qed.

Lemma expect_Raise {A} e (o : option A) e' :
  expect e o = Raise e' <-> o = None /\ e = e'.
Proof. destruct o; simpl; split; try discriminate; intuition congruence. Qed.

Lemma is_timeout_false {A} (m : outcome A) : is_timeout m = false <-> m <> Timeout.
Proof. destruct m; simpl; split; congruence. Qed.

Lemma expect_not_Timeout {A} e (o : option A) : expect e o <> Timeout.
Proof. by destruct o. Qed.

(** ** Automation *)

Create HintDb cpp discriminated.
Create Rewrite HintDb cpp.

#[export] Hint Rewrite @py_last_snoc @py_pop_snoc @py_set_last_snoc
  @py_last_nil @py_pop_nil @py_set_last_nil : cpp.
#[export] Hint Rewrite @strip_prefix_app : cpp.
#[export] Hint Rewrite @obind_Done @obind_ret : cpp.
#[export] Hint Resolve take_while_Forall : cpp.

(** Split a list that stands for a Python stack into its empty and its
    non-empty ([l' ++ [x]]) case. *)
Ltac snoc_destruct l :=
  let l' := fresh l in
  let x := fresh "top" in
  destruct (snoc_cases l) as [->|(l' & x & ->)].

(** Case analysis on every [outcome] that is scrutinised in the goal. *)
Ltac case_outcome :=
  repeat match goal with
  | |- context [obind ?m _] =>
      lazymatch m with
      | Done _ => rewrite obind_Done
      | _ => let E := fresh "E" in destruct m eqn:E; simpl
      end
  end.

(** Invert a hypothesis that says a composed call returned: every bind
    on the way returned, every assertion held, every branch is known. *)
Ltac inv_outcome :=
  repeat match goal with
  | H : obind _ _ = Done _ |- _ =>
      let a := fresh "r" in
      let Ha := fresh "E" in
      apply obind_Done_inv in H as (a & Ha & H)
  | H : expect _ _ = Done _ |- _ => apply expect_Done in H
  | H : Done _ = Done _ |- _ => injection H as H
  | H : Raise _ = Done _ |- _ => discriminate H
  | H : Timeout = Done _ |- _ => discriminate H
  | H : (if ?b then _ else _) = Done _ |- _ => destruct b eqn:?
  | H : match ?x with _ => _ end = Done _ |- _ => destruct x eqn:?
  end.

(** Invert a hypothesis that says a composed call ran out of fuel: some
    call on the way did. *)
Ltac inv_timeout :=
  repeat match goal with
  | H : obind _ _ = Timeout |- _ =>
      let a := fresh "r" in
      let Ha := fresh "E" in
      apply obind_Timeout_inv in H as [H|(a & Ha & H)]
  | H : expect _ _ = Timeout |- _ => by apply expect_not_Timeout in H
  | H : Done _ = Timeout |- _ => discriminate H
  | H : Raise _ = Timeout |- _ => discriminate H
  | H : (if ?b then _ else _) = Timeout |- _ => destruct b eqn:?
  | H : match ?x with _ => _ end = Timeout |- _ => destruct x eqn:?
  end.

(** Close an equation between closed terms by evaluating both sides on
    the virtual machine, without building their normal forms in the
    proof. *)
Ltac vm_refl :=
  lazymatch goal with
  | |- ?x = ?y => vm_cast_no_check (@eq_refl _ y)
  end.

(** Normalise with the rewrite rules of the development. *)
Ltac cpp_simpl := autorewrite with cpp in *; simpl in *.
