(* ===== verification/Chars.v ===== *)
(** * Character classes of the regular expressions

    The classes [\s], [\w], [\S] and [.] as Python's [re] reads them in a
    [str] pattern, on characters below 128, and the white-space test of
    [str.strip].  The regular expressions of src/c-preprocess.py, lines
    9-24, are built from these classes and from literals. *)

From Stdlib Require Import Ascii String List Bool NArith Lia.
From stdpp Require Import base tactics list strings.
From S2P Require Import Prelude.

#[local] Open Scope N_scope.

(** ** The classes *)

(** The code of a character between two bounds. *)
Definition code_in (lo hi : N) (c : ascii) : bool :=
  (lo <=? N_of_ascii c) && (N_of_ascii c <=? hi).

(** [\s]: tab, line feed, vertical tab, form feed, carriage return, the
    separators 28 to 31, and the space. *)
Definition is_space (c : ascii) : bool :=
  code_in 9 13 c || code_in 28 32 c.

(** [\S]. *)
Definition is_nonspace (c : ascii) : bool := negb (is_space c).

(** [\w]: letters, digits and the underscore. *)
Definition is_word (c : ascii) : bool :=
  code_in 48 57 c || code_in 65 90 c || code_in 97 122 c || (N_of_ascii c =? 95).

(** [.]: any character but the line feed. *)
Definition is_dot (c : ascii) : bool := negb (N_of_ascii c =? 10).

(** [[^x]]: any character but [x]. *)
Definition is_not (x c : ascii) : bool := negb (Ascii.eqb c x).

(** ** Derived tests and scans *)

(** [bool(s.strip())]: [s] has a character that is not white space. *)
Definition has_content (s : text) : bool := existsb is_nonspace s.

(** The white space a greedy [\s*] consumes, and what follows it. *)
Definition skip_spaces (s : text) : text := drop_while is_space s.

(** [\s+]: at least one white-space character, then the rest. *)
Definition spaces1 (s : text) : option text :=
  match s with
  | c :: _ => if is_space c then Some (skip_spaces s) else None
  | [] => None
  end.

(** [(\w+)]: the identifier at the head of [s] and the rest, when there is
    one. *)
Definition word1 (s : text) : option (text * text) :=
  match take_while is_word s with
  | [] => None
  | w => Some (w, drop_while is_word s)
  end.

(** [(\S+)]: the token at the head of [s] and the rest. *)
Definition token1 (s : text) : option (text * text) :=
  match take_while is_nonspace s with
  | [] => None
  | w => Some (w, drop_while is_nonspace s)
  end.

(** ** Facts on the classes *)

Section ClassFacts.

Lemma is_word_not_space c : is_word c = true -> is_space c = false.
Proof. by destruct c as [[] [] [] [] [] [] [] []]. Qed.

Lemma is_space_not_word c : is_space c = true -> is_word c = false.
Proof. by destruct c as [[] [] [] [] [] [] [] []]. Qed.

Lemma is_word_nonspace c : is_word c = true -> is_nonspace c = true.
Proof. unfold is_nonspace. by intros ->%is_word_not_space. Qed.

Lemma is_nonspace_negb c : is_nonspace c = negb (is_space c).
Proof. done. Qed.

Lemma is_space_nl : is_space nl = true.
Proof. done. Qed.

Lemma is_dot_nl : is_dot nl = false.
Proof. done. Qed.

Lemma is_dot_false c : is_dot c = false <-> c = nl.
Proof.
  unfold is_dot. rewrite negb_false_iff, N.eqb_eq. split.
  - intros H. rewrite <- (ascii_N_embedding c), H. done.
  - by intros ->.
Qed.

Lemma is_not_true x c : is_not x c = true <-> c <> x.
Proof. unfold is_not. rewrite negb_true_iff. apply Ascii.eqb_neq. Qed.

Lemma hash_not_space : is_space "#" = false.
Proof. done. Qed.

Lemma paren_not_word : is_word "(" = false /\ is_word ")" = false.
Proof. done. Qed.

End ClassFacts.

#[export] Hint Resolve is_word_not_space is_space_not_word is_word_nonspace : cpp.

(** ** Facts on the scans *)

Section ScanFacts.

Lemma skip_spaces_head s c r : skip_spaces s = c :: r -> is_space c = false.
Proof. apply drop_while_head. Qed.

Lemma skip_spaces_idemp s : skip_spaces (skip_spaces s) = skip_spaces s.
Proof. apply drop_while_idemp. Qed.

Lemma skip_spaces_app ws s :
  Forall (fun c => is_space c = true) ws ->
  match s with [] => True | c :: _ => is_space c = false end ->
  skip_spaces (ws ++ s) = s.
Proof. apply drop_while_app_stop. Qed.

Lemma spaces1_Some s r :
  spaces1 s = Some r <->
  exists ws, ws <> [] /\ Forall (fun c => is_space c = true) ws /\
             s = ws ++ r /\ match r with [] => True | c :: _ => is_space c = false end.
Proof.
  unfold spaces1, skip_spaces. split.
  - destruct s as [|c s']; [done|]. destruct (is_space c) eqn:Hc; [|done].
    intros H. apply (inj Some) in H. subst r.
    exists (take_while is_space (c :: s')).
    split_and!.
    + simpl. by rewrite Hc.
    + apply take_while_Forall.
    + by rewrite take_drop_while.
    + destruct (drop_while is_space (c :: s')) as [|d r] eqn:E; [done|].
      eapply drop_while_head, E.
  - intros (ws & Hne & Hws & -> & Hr).
    destruct ws as [|c ws]; [done|]. inversion Hws as [|? ? Hc Hws']; subst.
    rewrite <- app_comm_cons. rewrite Hc. f_equal.
    rewrite app_comm_cons. by apply drop_while_app_stop.
Qed.

Lemma word1_Some s w r :
  word1 s = Some (w, r) <->
  w <> [] /\ Forall (fun c => is_word c = true) w /\ s = w ++ r /\
  match r with [] => True | c :: _ => is_word c = false end.
Proof.
  unfold word1. split.
  - destruct (take_while is_word s) as [|c w'] eqn:E; [done|].
    intros [= <- <-]. split_and!; [done|..].
    + rewrite <- E. apply take_while_Forall.
    + by rewrite <- E, take_drop_while.
    + destruct (drop_while is_word s) as [|d r] eqn:E'; [done|].
      eapply drop_while_head, E'.
  - intros (Hne & Hw & -> & Hr).
    rewrite take_while_app_stop, drop_while_app_stop by done.
    by destruct w.
Qed.

Lemma token1_Some s w r :
  token1 s = Some (w, r) <->
  w <> [] /\ Forall (fun c => is_nonspace c = true) w /\ s = w ++ r /\
  match r with [] => True | c :: _ => is_nonspace c = false end.
Proof.
  unfold token1. split.
  - destruct (take_while is_nonspace s) as [|c w'] eqn:E; [done|].
    intros [= <- <-]. split_and!; [done|..].
    + rewrite <- E. apply take_while_Forall.
    + by rewrite <- E, take_drop_while.
    + destruct (drop_while is_nonspace s) as [|d r] eqn:E'; [done|].
      eapply drop_while_head, E'.
  - intros (Hne & Hw & -> & Hr).
    rewrite take_while_app_stop, drop_while_app_stop by done.
    by destruct w.
Qed.

Lemma has_content_false s :
  has_content s = false <-> Forall (fun c => is_space c = true) s.
Proof.
  unfold has_content. induction s as [|c s IH]; simpl.
  - split; [constructor|done].
  - rewrite orb_false_iff, IH, Forall_cons. unfold is_nonspace.
    by rewrite negb_false_iff.
Qed.

Lemma has_content_app s1 s2 :
  has_content (s1 ++ s2) = has_content s1 || has_content s2.
Proof. apply existsb_app. Qed.

End ScanFacts.
