(* ===== verification/Classifier.v ===== *)
(** * The directive classifier

    The regular expressions of src/c-preprocess.py, lines 9-25, as direct
    matchers over text.  [command_re_match] is [command_re.match(line)]
    with its groups 1 and 2; the other matchers are the [match] of the
    expression of the same name on the argument text of a directive, with
    the groups the program reads.  Each matcher returns [None] where the
    Python [match] returns [None].

    The matchers scan without backtracking.  That is what the expressions
    do: each repetition is over a character class and is followed by a
    character outside the class, a literal, or the end of the expression,
    so giving back characters never helps.  [RegexRef] proves it against a
    backtracking reference matcher. *)

From Stdlib Require Import Ascii String List Bool Lia.
From stdpp Require Import base tactics option list strings.
From S2P Require Import Prelude Chars.

#[local] Open Scope list_scope.

(** ** Directive keywords *)

(** The alternatives of group 1 of [command_re]. *)
Inductive command : Type :=
  | Include | Ifdef | Ifndef | Define | If
  | Endif | Else | Elif | Undef | Pragma.

#[export] Instance command_eq_dec : EqDecision command.
Proof. solve_decision. Defined.

(** The keyword each alternative matches. *)
Definition command_name (c : command) : text :=
  match c with
  | Include => txt "include"
  | Ifdef => txt "ifdef"
  | Ifndef => txt "ifndef"
  | Define => txt "define"
  | If => txt "if"
  | Endif => txt "endif"
  | Else => txt "else"
  | Elif => txt "elif"
  | Undef => txt "undef"
  | Pragma => txt "pragma"
  end.

(** The alternatives in the order the expression lists them: the first one
    that matches wins. *)
Definition commands : list command :=
  [Include; Ifdef; Ifndef; Define; If; Endif; Else; Elif; Undef; Pragma].

(** The first keyword of [cs] that [s] starts with, and the text behind it. *)
Fixpoint first_keyword (cs : list command) (s : text) : option (command * text) :=
  match cs with
  | [] => None
  | c :: cs' =>
      match strip_prefix (command_name c) s with
      | Some r => Some (c, r)
      | None => first_keyword cs' s
      end
  end.

(** Group 2 of [command_re]: the white space behind the keyword (a greedy
    run of [\s]), then everything up to the end of the line (a greedy run
    of [.]). *)
Definition rest_of (r : text) : text :=
  take_while is_space r ++ take_while is_dot (drop_while is_space r).

(** [command_re.match(line)]: groups 1 and 2. *)
Definition command_re_match (line : text) : option (command * text) :=
  match skip_spaces line with
  | c :: r =>
      if decide (c = "#"%char) then
        match first_keyword commands r with
        | Some (cmd, r') => Some (cmd, rest_of r')
        | None => None
        end
      else None
  | [] => None
  end.

(** ** Argument expressions *)

(** The character [o], a greedy run of characters other than [c], then
    [c], at the head of [s]: the match, delimiters included. *)
Definition delimited (o c : ascii) (s : text) : option text :=
  match s with
  | x :: r =>
      if decide (x = o) then
        match drop_while (is_not c) r with
        | _ :: _ => Some (o :: take_while (is_not c) r ++ [c])
        | [] => None
        end
      else None
  | [] => None
  end.

(** [include_re.match(rest)]: group 1, the path with its delimiters. *)
Definition include_re_match (rest : text) : option text :=
  match spaces1 rest with
  | Some r =>
      match delimited dquote dquote r with
      | Some g => Some g
      | None => delimited "<" ">" r
      end
  | None => None
  end.

(** [ifdef_re.match(rest)]: group 1, the identifier. *)
Definition ifdef_re_match (rest : text) : option text :=
  match spaces1 rest with
  | Some r => fst <$> word1 r
  | None => None
  end.

(** [undef_re] is the same expression as [ifdef_re]. *)
Definition undef_re_match (rest : text) : option text := ifdef_re_match rest.

(** [define_re.match(rest)]: groups 1 and 3, the name and the value; the
    value is [None] when the optional group 2 does not take part. *)
Definition define_re_match (rest : text) : option (text * option text) :=
  match spaces1 rest with
  | Some r =>
      match word1 r with
      | Some (k, r') =>
          Some (k, match spaces1 r' with
                   | Some r'' => fst <$> token1 r''
                   | None => None
                   end)
      | None => None
      end
  | None => None
  end.

(** [if_re.match(rest)]: group 1.  The alternative [\S+] is tried first
    and takes the whole token, so the alternative for [defined] followed
    by a parenthesised identifier never decides. *)
Definition if_re_match (rest : text) : option text :=
  match spaces1 rest with
  | Some r => fst <$> token1 r
  | None => None
  end.

(** [function_re.match(cond_str)]: groups 1 and 2, the function name and
    its argument. *)
Definition function_re_match (cond_str : text) : option (text * text) :=
  match strip_prefix (txt "defined(") cond_str with
  | Some r =>
      match word1 r with
      | Some (arg, c :: _) =>
          if decide (c = ")"%char) then Some (txt "defined", arg) else None
      | _ => None
      end
  | None => None
  end.

(** [pragma_re.match(rest)]: group 1. *)
Definition pragma_re_match (rest : text) : option text :=
  match spaces1 rest with
  | Some r =>
      match strip_prefix (txt "once") r with
      | Some _ => Some (txt "once")
      | None => None
      end
  | None => None
  end.

(** [path[0] == '<'] and [path[1:-1]] on group 1 of [include_re]. *)
Definition is_system_include (g : text) : bool :=
  match g with c :: _ => bool_decide (c = "<"%char) | [] => false end.

Definition strip_delimiters (g : text) : text := removelast (tail g).

(** ** Directives as text *)

(** The line one writes for the directive [c] with the argument [arg]:
    [#], the keyword, a space, the argument and a line feed. *)
Definition directive_line (c : command) (arg : text) : text :=
  "#"%char :: command_name c ++ " "%char :: arg ++ [nl].

(** The line of a directive without argument: [#], the keyword and a line
    feed. *)
Definition bare_line (c : command) : text :=
  "#"%char :: command_name c ++ [nl].

(** A path between double quotes, and between angle brackets. *)
Definition quoted (p : text) : text := dquote :: p ++ [dquote].
Definition angled (p : text) : text := "<"%char :: p ++ [">"%char].

(** The condition [defined(name)]. *)
Definition defined_call (name : text) : text :=
  txt "defined(" ++ name ++ [")"%char].

(** An identifier: one or more word characters. *)
Definition is_identifier (w : text) : bool :=
  negb (bool_decide (w = [])) && forallb is_word w.

(** A line that is no directive. *)
Definition is_plain (line : text) : bool :=
  bool_decide (command_re_match line = None).

(** ** The keyword scan *)

Section Keywords.

Lemma first_keyword_Some cs s c r :
  first_keyword cs s = Some (c, r) ->
  c ∈ cs /\ s = command_name c ++ r.
Proof.
  induction cs as [|c' cs IH]; simpl; [done|].
  destruct (strip_prefix (command_name c') s) as [r'|] eqn:E.
  - intros [= <- <-]. split; [left|]. by apply strip_prefix_Some.
  - intros [? ?]%IH. split; [by right|done].
Qed.

Lemma first_keyword_None cs s :
  first_keyword cs s = None <->
  forall c, c ∈ cs -> strip_prefix (command_name c) s = None.
Proof.
  induction cs as [|c' cs IH]; simpl.
  - split; [by intros _ c ?%elem_of_nil|done].
  - destruct (strip_prefix (command_name c') s) as [r'|] eqn:E.
    + split; [done|]. intros H. rewrite (H c') in E; [done|left].
    + rewrite IH. split.
      * intros H c [->|?]%elem_of_cons; auto.
      * intros H c Hc. apply H. by right.
Qed.

(** Every keyword is in the list of alternatives. *)
Lemma commands_complete c : c ∈ commands.
Proof. destruct c; unfold commands; repeat (first [by left | right]). Qed.

(** A keyword followed by a character that continues no other keyword is
    found as itself: the order of the alternatives never hides it. *)
Lemma first_keyword_name c x r :
  is_word x = false ->
  first_keyword commands (command_name c ++ x :: r) = Some (c, x :: r).
Proof.
  intros Hx.
  assert (x <> "d"%char /\ x <> "n"%char) as [Hd Hn]
    by (split; intros ->; discriminate).
  destruct c; simpl; repeat case_decide; simplify_eq; done.
Qed.

End Keywords.

(** ** The argument text *)

Section Rest.

Lemma rest_of_no_newline_tail r :
  Forall (fun c => c <> nl) (take_while is_dot (drop_while is_space r)).
Proof.
  eapply Forall_impl; [apply take_while_Forall|].
  intros c Hc ->. by rewrite is_dot_nl in Hc.
Qed.

(** The argument text is a prefix of what follows the keyword. *)
Lemma rest_of_prefix r : rest_of r `prefix_of` r.
Proof.
  unfold rest_of. rewrite <- (take_drop_while is_space r) at 3.
  apply prefix_app. rewrite <- (take_drop_while is_dot (drop_while is_space r)) at 2.
  by apply prefix_app_r.
Qed.

(** White space, then text that starts outside white space. *)
Lemma rest_of_split ws b :
  Forall (fun c => is_space c = true) ws ->
  match b with [] => True | c :: _ => is_space c = false end ->
  rest_of (ws ++ b) = ws ++ take_while is_dot b.
Proof.
  intros Hws Hb. unfold rest_of.
  by rewrite take_while_app_stop, drop_while_app_stop.
Qed.

Lemma take_while_dot_line l :
  Forall (fun c => c <> nl) l -> take_while is_dot (l ++ [nl]) = l.
Proof.
  intros Hl. apply take_while_app_stop; [|apply is_dot_nl].
  eapply Forall_impl; [exact Hl|]. intros c Hcn.
  destruct (is_dot c) eqn:E; [done|]. by apply is_dot_false in E.
Qed.

(** On a line that ends in its only line feed, the argument text is the
    line behind the keyword without the line feed, unless only white space
    follows the keyword: then the line feed is part of it. *)
Lemma rest_of_line body :
  Forall (fun c => c <> nl) body ->
  has_content body = true ->
  rest_of (body ++ [nl]) = body.
Proof.
  intros Hnl Hc.
  pose proof (take_drop_while is_space body) as Hsplit.
  pose proof (take_while_Forall is_space body) as Hws.
  destruct (drop_while is_space body) as [|c b'] eqn:Eb.
  - rewrite app_nil_r in Hsplit. rewrite Hsplit in Hws.
    apply has_content_false in Hws. congruence.
  - rewrite <- Hsplit in Hnl |- *. apply Forall_app in Hnl as [_ Hnl].
    rewrite <- app_assoc, rest_of_split; [|done|].
    + by rewrite take_while_dot_line.
    + simpl. eapply drop_while_head, Eb.
Qed.

Lemma rest_of_blank ws :
  Forall (fun c => is_space c = true) ws -> rest_of ws = ws.
Proof.
  intros H. unfold rest_of.
  by rewrite take_while_all, drop_while_all, app_nil_r.
Qed.

End Rest.

(** ** Inversion of the matchers *)

Section Inversion.

Lemma command_re_match_Some line cmd rest :
  command_re_match line = Some (cmd, rest) <->
  exists r r', skip_spaces line = "#"%char :: r /\
               first_keyword commands r = Some (cmd, r') /\ rest = rest_of r'.
Proof.
  unfold command_re_match. split.
  - destruct (skip_spaces line) as [|c r] eqn:E; [done|].
    case_decide; [subst c|done].
    destruct (first_keyword commands r) as [[cmd' r']|] eqn:K; [|done].
    intros [= <- <-]. eauto.
  - intros (r & r' & E & K & ->).
    rewrite E. case_decide; [|done]. by rewrite K.
Qed.

(** A line whose first character after white space is not [#] is no
    directive. *)
Lemma command_re_match_plain line :
  match skip_spaces line with
  | c :: _ => c <> "#"%char
  | [] => True
  end ->
  command_re_match line = None.
Proof.
  unfold command_re_match. destruct (skip_spaces line) as [|c r]; [done|].
  intros Hc. by case_decide.
Qed.

(** A directive line as one writes it: white space, [#], the keyword, and
    an argument text that does not continue the keyword. *)
Lemma command_re_match_directive ws c x r :
  Forall (fun a => is_space a = true) ws ->
  is_word x = false ->
  command_re_match (ws ++ "#"%char :: command_name c ++ x :: r)
  = Some (c, rest_of (x :: r)).
Proof.
  intros Hws Hx. unfold command_re_match.
  rewrite skip_spaces_app by done. case_decide; [|done].
  by rewrite first_keyword_name.
Qed.

(** C39.  The keyword of a directive needs no word boundary behind it:
    whatever follows the keyword on the line, the line is that directive,
    so [#elsewhere] is an [#else] and [#endiffoo] an [#endif].  Only [if]
    gives way, to [ifdef] and [ifndef], which the expression lists before
    it. *)
Theorem keyword_needs_no_boundary c r :
  c <> If ->
  command_re_match ("#"%char :: command_name c ++ r) = Some (c, rest_of r).
Proof. intros Hc. by destruct c. Qed.

Lemma keyword_needs_no_boundary_witness :
  command_re_match ("#"%char :: command_name Else ++ ln "where")
  = Some (Else, rest_of (ln "where")).
Proof. by apply keyword_needs_no_boundary. Defined.

End Inversion.

(** ** Round trips: a directive written out is read back *)

Section RoundTrip.

Lemma is_identifier_spec w :
  is_identifier w = true <-> w <> [] /\ Forall (fun c => is_word c = true) w.
Proof.
  unfold is_identifier.
  by rewrite andb_true_iff, negb_true_iff, bool_decide_eq_false,
    forallb_Forall_true.
Qed.

Lemma identifier_no_newline w :
  Forall (fun c => is_word c = true) w -> Forall (fun c => c <> nl) w.
Proof.
  intros H. eapply Forall_impl; [exact H|]. by intros c Hc ->.
Qed.

Lemma identifier_has_content w : is_identifier w = true -> has_content w = true.
Proof.
  intros [Hne Hw]%is_identifier_spec. destruct w as [|c w]; [done|].
  inversion Hw; subst. simpl. by rewrite is_word_nonspace.
Qed.

(** A directive line, written as [#], keyword, space, argument and
    line feed, is classified as that directive, and its argument text is
    the space and the argument without the line feed, for any argument
    that has a character other than white space and no line feed. *)
Theorem directive_line_roundtrip c arg :
  Forall (fun a => a <> nl) arg -> has_content arg = true ->
  command_re_match (directive_line c arg) = Some (c, " "%char :: arg).
Proof.
  intros Hnl Hc. unfold directive_line.
  pose proof (command_re_match_directive [] c " "%char (arg ++ [nl])) as H.
  rewrite app_nil_l in H. rewrite H by done.
  f_equal. f_equal. rewrite app_comm_cons. apply rest_of_line.
  - by constructor.
  - done.
Qed.

Lemma directive_line_roundtrip_witness :
  command_re_match (directive_line Ifndef (txt "GUARD_H"))
  = Some (Ifndef, " "%char :: txt "GUARD_H").
Proof. by apply directive_line_roundtrip; [repeat constructor|]. Defined.

Lemma bare_line_match c : command_re_match (bare_line c) = Some (c, [nl]).
Proof.
  unfold bare_line.
  pose proof (command_re_match_directive [] c nl []) as H.
  rewrite app_nil_l in H. by rewrite H.
Qed.

Lemma spaces1_space r :
  match r with [] => True | c :: _ => is_space c = false end ->
  spaces1 (" "%char :: r) = Some r.
Proof.
  intros Hr. apply spaces1_Some. exists [" "%char].
  split_and!; try done. by repeat constructor.
Qed.

Lemma word1_identifier w r :
  is_identifier w = true ->
  match r with [] => True | c :: _ => is_word c = false end ->
  word1 (w ++ r) = Some (w, r).
Proof. intros [? ?]%is_identifier_spec ?. by apply word1_Some. Qed.

Lemma identifier_head w r :
  is_identifier w = true ->
  match w ++ r with [] => True | c :: _ => is_space c = false end.
Proof.
  intros [Hne Hw]%is_identifier_spec. destruct w as [|c w]; [done|].
  inversion Hw; subst. simpl. by apply is_word_not_space.
Qed.

Lemma word1_identifier_nil w : is_identifier w = true -> word1 w = Some (w, []).
Proof.
  intros Hw. pose proof (word1_identifier w [] Hw I) as H.
  by rewrite app_nil_r in H.
Qed.

Lemma identifier_head_nil w :
  is_identifier w = true ->
  match w with [] => True | c :: _ => is_space c = false end.
Proof. intros Hw. pose proof (identifier_head w [] Hw) as H. by rewrite app_nil_r in H. Qed.

(** The argument of [#ifdef], [#ifndef] and [#undef]. *)
Lemma ifdef_re_match_identifier w :
  is_identifier w = true -> ifdef_re_match (" "%char :: w) = Some w.
Proof.
  intros Hw. unfold ifdef_re_match.
  rewrite spaces1_space by by apply identifier_head_nil.
  by rewrite word1_identifier_nil.
Qed.

(** The argument of [#define]: a name alone, and a name with a value. *)
Lemma define_re_match_name k :
  is_identifier k = true -> define_re_match (" "%char :: k) = Some (k, None).
Proof.
  intros Hk. unfold define_re_match.
  rewrite spaces1_space by by apply identifier_head_nil.
  by rewrite word1_identifier_nil.
Qed.

Lemma define_re_match_value k v :
  is_identifier k = true -> v <> [] ->
  Forall (fun c => is_nonspace c = true) v ->
  define_re_match (" "%char :: k ++ " "%char :: v) = Some (k, Some v).
Proof.
  intros Hk Hne Hv. unfold define_re_match.
  rewrite spaces1_space by by apply identifier_head.
  rewrite word1_identifier by done.
  assert (match v with [] => True | c :: _ => is_space c = false end) as Hh.
  { destruct v as [|c v]; [done|]. inversion Hv as [|? ? Hc]; subst.
    by apply negb_true_iff in Hc. }
  rewrite spaces1_space by done.
  assert (token1 v = Some (v, [])) as ->; [|done].
  apply token1_Some. by rewrite app_nil_r.
Qed.

(** The argument of [#include], quoted and in angle brackets. *)
Lemma delimited_roundtrip o c p r :
  Forall (fun a => a <> c) p ->
  delimited o c (o :: p ++ c :: r) = Some (o :: p ++ [c]).
Proof.
  intros Hp. unfold delimited. rewrite decide_True by done.
  assert (Forall (fun a => is_not c a = true) p) as Hp'.
  { eapply Forall_impl; [exact Hp|]. intros a. by rewrite is_not_true. }
  assert (is_not c c = false) as Hc.
  { unfold is_not. by rewrite Ascii.eqb_refl. }
  by rewrite take_while_app_stop, drop_while_app_stop.
Qed.

Lemma delimited_exact o c p :
  Forall (fun a => a <> c) p ->
  delimited o c (o :: p ++ [c]) = Some (o :: p ++ [c]).
Proof. apply delimited_roundtrip. Qed.

Lemma strip_delimiters_exact o c p : strip_delimiters (o :: p ++ [c]) = p.
Proof. unfold strip_delimiters. simpl. apply removelast_last. Qed.

(** An include argument written as a space and a path between
    double quotes is read back as a local include of that path, and
    between angle brackets as a system include of it, for any path without
    the closing delimiter. *)
Theorem include_re_match_roundtrip p :
  (Forall (fun a => a <> dquote) p ->
   exists g, include_re_match (" "%char :: quoted p) = Some g /\
             is_system_include g = false /\ strip_delimiters g = p) /\
  (Forall (fun a => a <> ">"%char) p ->
   exists g, include_re_match (" "%char :: angled p) = Some g /\
             is_system_include g = true /\ strip_delimiters g = p).
Proof.
  unfold include_re_match, quoted, angled.
  split; intros Hp; rewrite spaces1_space by done.
  - rewrite delimited_exact by done. eexists. split; [done|].
    by rewrite strip_delimiters_exact.
  - replace (delimited dquote dquote ("<"%char :: p ++ [">"%char]))
      with (@None text) by done.
    rewrite delimited_exact by done. eexists. split; [done|].
    by rewrite strip_delimiters_exact.
Qed.

Lemma include_re_match_roundtrip_witness :
  (exists g, include_re_match (" "%char :: quoted (txt "a/b.h")) = Some g /\
             is_system_include g = false /\ strip_delimiters g = txt "a/b.h") /\
  (exists g, include_re_match (" "%char :: angled (txt "stdio.h")) = Some g /\
             is_system_include g = true /\ strip_delimiters g = txt "stdio.h").
Proof.
  split.
  - apply (proj1 (include_re_match_roundtrip (txt "a/b.h"))).
    by repeat constructor.
  - apply (proj2 (include_re_match_roundtrip (txt "stdio.h"))).
    by repeat constructor.
Defined.

(** The condition [defined(w)], alone or followed by more of the token. *)
Lemma function_re_match_defined w r :
  is_identifier w = true ->
  function_re_match (defined_call w ++ r) = Some (txt "defined", w).
Proof.
  intros Hw. unfold function_re_match, defined_call.
  rewrite <- !app_assoc, strip_prefix_app. simpl.
  rewrite word1_identifier by done. by rewrite decide_True.
Qed.

Lemma defined_call_nonspace w :
  is_identifier w = true ->
  defined_call w <> [] /\ Forall (fun c => is_nonspace c = true) (defined_call w).
Proof.
  intros [_ Hw]%is_identifier_spec. split; [done|]. unfold defined_call.
  rewrite !Forall_app. split_and!; [by repeat constructor| |by repeat constructor].
  eapply Forall_impl; [exact Hw|]. intros c. apply is_word_nonspace.
Qed.

(** The argument of [#if] and [#elif] written as [defined(w)]. *)
Lemma if_re_match_defined w :
  is_identifier w = true ->
  if_re_match (" "%char :: defined_call w) = Some (defined_call w).
Proof.
  intros Hw. destruct (defined_call_nonspace w Hw) as [Hne Hns].
  unfold if_re_match. rewrite spaces1_space by done.
  assert (token1 (defined_call w) = Some (defined_call w, [])) as ->; [|done].
  apply token1_Some. by rewrite app_nil_r.
Qed.

(** The argument of [#if] written as an identifier alone. *)
Lemma if_re_match_identifier w :
  is_identifier w = true -> if_re_match (" "%char :: w) = Some w.
Proof.
  intros Hw. pose proof Hw as [Hne Hword]%is_identifier_spec.
  unfold if_re_match. rewrite spaces1_space by by apply identifier_head_nil.
  assert (token1 w = Some (w, [])) as ->; [|done].
  apply token1_Some. rewrite app_nil_r. split_and!; try done.
  eapply Forall_impl; [exact Hword|]. intros c. apply is_word_nonspace.
Qed.

(** An identifier alone is no call of [defined]. *)
Lemma function_re_match_identifier w :
  Forall (fun c => is_word c = true) w -> function_re_match w = None.
Proof.
  intros Hw. unfold function_re_match.
  destruct (strip_prefix (txt "defined(") w) as [r|] eqn:E; [|done].
  apply strip_prefix_Some in E as ->. exfalso.
  apply Forall_app in Hw as [Hw _].
  by repeat (inversion Hw as [|? ? ? Hw']; subst; clear Hw; rename Hw' into Hw).
Qed.

End RoundTrip.
