(* ===== verification/RegexRef.v ===== *)
(** * A reference semantics of the regular expressions

    The expressions of src/c-preprocess.py, lines 9-25, as syntax trees,
    with the meaning Python's [re] gives them: a backtracking search that
    tries the alternatives of a choice from left to right and the counts of
    a greedy repetition from the largest down, and returns the first
    success with the text of its groups.  [run] lists every success in that
    order, [re_match] is the first one.

    Every repetition of the program is over a character class, so [Star]
    and [Plus] take a class and not an expression.

    The theorems say that each direct matcher of [Classifier] returns the
    groups of the first success of the expression it stands for. *)

From Stdlib Require Import Ascii String List Bool Arith Lia.
From stdpp Require Import base tactics option list strings gmap.
From S2P Require Import Prelude Chars Classifier.

#[local] Open Scope list_scope.

(** ** Syntax *)

Inductive regex : Type :=
  | Lit (l : text)
  | Star (p : ascii -> bool)
  | Plus (p : ascii -> bool)
  | Seq (r1 r2 : regex)
  | Alt (r1 r2 : regex)
  | Opt (r : regex)
  | Group (n : nat) (r : regex).

Declare Scope regex_scope.
Delimit Scope regex_scope with re.
Bind Scope regex_scope with regex.
Infix "·" := Seq (at level 60, right associativity) : regex_scope.
Infix "<|>" := Alt (at level 65, right associativity) : regex_scope.

(** ** Semantics *)

(** The text of the groups that took part in a match. *)
Abbreviation groups := (gmap nat text).

(** What is left of [s] behind a greedy repetition of the class [p], for
    every count it can settle on, the largest first. *)
Fixpoint greedy (p : ascii -> bool) (s : text) : list text :=
  match s with
  | c :: s' => if p c then greedy p s' ++ [s] else [s]
  | [] => [[]]
  end.

(** The same with at least one character. *)
Definition greedy1 (p : ascii -> bool) (s : text) : list text :=
  match s with
  | c :: s' => if p c then greedy p s' else []
  | [] => []
  end.

(** The part of [s] in front of its suffix [s']. *)
Definition consumed (s s' : text) : text := take (length s - length s') s.

(** Every way [r] matches a prefix of [s], as the groups it sets and the
    text it leaves, in the order the search finds them. *)
Fixpoint run (r : regex) (s : text) (g : groups) : list (groups * text) :=
  match r with
  | Lit l =>
      match strip_prefix l s with Some s' => [(g, s')] | None => [] end
  | Star p => (fun s' => (g, s')) <$> greedy p s
  | Plus p => (fun s' => (g, s')) <$> greedy1 p s
  | Seq r1 r2 => run r1 s g ≫= (fun x => run r2 x.2 x.1)
  | Alt r1 r2 => run r1 s g ++ run r2 s g
  | Opt r' => run r' s g ++ [(g, s)]
  | Group n r' =>
      (fun x => (<[n := consumed s x.2]> x.1, x.2)) <$> run r' s g
  end.

(** [r.match(s)]: the groups of the first success. *)
Definition re_match (r : regex) (s : text) : option groups :=
  fst <$> head (run r s ∅).

(** [m.group(n)]. *)
Definition group (n : nat) (m : groups) : option text := m !! n.

(** The words of an expression: the declarative reading, without order and
    without groups. *)
Fixpoint lang (r : regex) (m : text) : Prop :=
  match r with
  | Lit l => m = l
  | Star p => Forall (fun c => p c = true) m
  | Plus p => m <> [] /\ Forall (fun c => p c = true) m
  | Seq r1 r2 => exists m1 m2, m = m1 ++ m2 /\ lang r1 m1 /\ lang r2 m2
  | Alt r1 r2 => lang r1 m \/ lang r2 m
  | Opt r' => lang r' m \/ m = []
  | Group _ r' => lang r' m
  end.

(** [rejects p r]: [r] matches no text that starts with a character of
    the class [p]. *)
Definition rejects (p : ascii -> bool) (r : regex) : Prop :=
  forall c s g, p c = true -> run r (c :: s) g = [].

(** The literal [l] starts with a character outside the class [p]. *)
Definition starts_outside (p : ascii -> bool) (l : text) : bool :=
  match l with c :: _ => negb (p c) | [] => false end.

(** ** The expressions of the program *)

Section Expressions.
#[local] Open Scope regex_scope.

(** [function]: the word [defined], a parenthesis, [identifier], a
    parenthesis (line 12). *)
Definition function_ : regex :=
  Lit (txt "defined") · Lit (txt "(") · Plus is_word · Lit (txt ")").

(** [expr]: [value] or [function] (line 13). *)
Definition expr : regex := Plus is_nonspace <|> function_.

(** [function_re] (line 15). *)
Definition function_re : regex :=
  Group 1 (Lit (txt "defined")) · Lit (txt "(") · Group 2 (Plus is_word)
  · Lit (txt ")").

(** A delimiter, a run of characters other than the closing delimiter, the
    closing delimiter. *)
Definition delimited_re (o c : ascii) : regex :=
  Lit [o] · Star (is_not c) · Lit [c].

(** [include_re] (line 17). *)
Definition include_re : regex :=
  Plus is_space ·
  Group 1 (delimited_re dquote dquote <|> delimited_re "<" ">").

(** [ifdef_re] and [undef_re] (lines 18 and 20). *)
Definition ifdef_re : regex := Plus is_space · Group 1 (Plus is_word).
Definition undef_re : regex := Plus is_space · Group 1 (Plus is_word).

(** [define_re] (line 19). *)
Definition define_re : regex :=
  Plus is_space · Group 1 (Plus is_word) ·
  Opt (Group 2 (Plus is_space · Group 3 (Plus is_nonspace))).

(** [if_re] (line 21). *)
Definition if_re : regex := Plus is_space · Group 1 expr.

(** [pragma_re] (line 22). *)
Definition pragma_re : regex := Plus is_space · Group 1 (Lit (txt "once")).

(** The alternatives of group 1 of [command_re], in the order of line 24. *)
Definition keyword_re : regex :=
  Lit (txt "include") <|> Lit (txt "ifdef") <|> Lit (txt "ifndef")
  <|> Lit (txt "define") <|> Lit (txt "if") <|> Lit (txt "endif")
  <|> Lit (txt "else") <|> Lit (txt "elif") <|> Lit (txt "undef")
  <|> Lit (txt "pragma").

(** [command_re] (lines 24-25). *)
Definition command_re : regex :=
  Star is_space · Lit (txt "#") · Group 1 keyword_re ·
  Group 2 (Star is_space · Group 3 (Star is_dot)).

(** The choice between the literals [l], [ls]. *)
Fixpoint alts (l : text) (ls : list text) : regex :=
  match ls with
  | [] => Lit l
  | l' :: ls' => Lit l <|> alts l' ls'
  end.

End Expressions.

(** [t] starts with a character of the class [p]. *)
Definition led_by (p : ascii -> bool) (t : text) : Prop :=
  match t with c :: _ => p c = true | [] => False end.

(** Every success of [l] but the first leaves a text that starts with a
    character of [p]: what a greedy repetition over [p] gives back when it
    settles on a smaller count. *)
Definition tail_led (p : ascii -> bool) (l : list (groups * text)) : Prop :=
  Forall (fun x => led_by p x.2) (tail l).

(** [r] matches a prefix of every text. *)
Definition total (r : regex) : Prop := forall s g, run r s g <> [].

(** ** Lists of successes *)

Section Successes.
Context {A B : Type}.
Implicit Types (f : A -> list B) (l : list A).

Lemma head_bind f l :
  head (l ≫= f)
  = match l with
    | [] => None
    | x :: l' =>
        match head (f x) with Some y => Some y | None => head (l' ≫= f) end
    end.
Proof.
  destruct l as [|x l']; [done|]. rewrite bind_cons.
  by destruct (f x).
Qed.

Lemma bind_Forall_nil f l : Forall (fun x => f x = []) l -> l ≫= f = [].
Proof.
  induction 1 as [|x l Hx _ IH]; [done|]. by rewrite bind_cons, Hx, IH.
Qed.

Lemma bind_head_only f l :
  Forall (fun x => f x = []) (tail l) ->
  l ≫= f = match head l with Some x => f x | None => [] end.
Proof.
  destruct l as [|x l']; [done|]. intros H. simpl in H.
  by rewrite bind_cons, (bind_Forall_nil _ _ H), app_nil_r.
Qed.

Lemma head_fmap_list (h : A -> B) l : head (h <$> l) = h <$> head l.
Proof. by destruct l. Qed.

Lemma tail_fmap_list (h : A -> B) l : tail (h <$> l) = h <$> tail l.
Proof. by destruct l. Qed.

End Successes.

(** ** The consumed text *)

Section Consumed.
Implicit Types (s m : text) (p : ascii -> bool).

Lemma consumed_app m s : consumed (m ++ s) s = m.
Proof.
  unfold consumed. rewrite length_app.
  replace (length m + length s - length s) with (length m) by lia.
  apply take_app_length.
Qed.

Lemma consumed_self s : consumed s s = [].
Proof. apply (consumed_app [] s). Qed.

Lemma consumed_drop_while p s : consumed s (drop_while p s) = take_while p s.
Proof. rewrite <- (take_drop_while p s) at 1. apply consumed_app. Qed.

Lemma consumed_cons c m s : consumed (c :: m ++ s) s = c :: m.
Proof. apply (consumed_app (c :: m) s). Qed.

End Consumed.

(** ** Greedy repetition *)

Section Greedy.
Implicit Types (s : text) (p : ascii -> bool).

Lemma greedy_head p s :
  exists tl, greedy p s = drop_while p s :: tl /\ Forall (led_by p) tl.
Proof.
  induction s as [|c s IH]; simpl; [by exists []|].
  destruct (p c) eqn:Hc; [|by exists []].
  destruct IH as (tl & -> & Htl). exists (tl ++ [c :: s]). split; [done|].
  apply Forall_app. split; [done|]. by repeat constructor.
Qed.

Lemma greedy1_head p s :
  exists tl,
    greedy1 p s = match take_while p s with
                  | [] => []
                  | _ => drop_while p s :: tl
                  end
    /\ Forall (led_by p) tl.
Proof.
  destruct s as [|c s]; simpl; [by exists []|].
  destruct (p c); [|by exists []]. apply greedy_head.
Qed.

(** The counts a repetition can settle on are the prefixes in the class. *)
Lemma greedy_elem p s t :
  t ∈ greedy p s <-> exists m, s = m ++ t /\ Forall (fun c => p c = true) m.
Proof.
  revert t. induction s as [|c s IH]; intros t; simpl.
  - rewrite list_elem_of_singleton. split.
    + intros ->. by exists [].
    + intros (m & Hm & _). symmetry in Hm. by apply app_eq_nil in Hm as [_ ->].
  - destruct (p c) eqn:Hc.
    + rewrite elem_of_app, IH, list_elem_of_singleton. split.
      * intros [(m & -> & Hm)| ->]; [exists (c :: m)|exists []]; auto.
      * intros ([|c' m] & E & Hm); simplify_eq/=; [by right|left].
        inversion Hm; subst. eauto.
    + rewrite list_elem_of_singleton. split.
      * intros ->. by exists [].
      * intros ([|c' m] & E & Hm); simplify_eq/=; [done|].
        inversion Hm; congruence.
Qed.

Lemma greedy1_elem p s t :
  t ∈ greedy1 p s <->
  exists m, s = m ++ t /\ m <> [] /\ Forall (fun c => p c = true) m.
Proof.
  destruct s as [|c s]; simpl.
  - rewrite elem_of_nil. split; [done|].
    intros (m & E & Hne & _). symmetry in E. by apply app_eq_nil in E as [-> _].
  - destruct (p c) eqn:Hc.
    + rewrite greedy_elem. split.
      * intros (m & -> & Hm). exists (c :: m). auto.
      * intros ([|c' m] & E & Hne & Hm); simplify_eq/=.
        inversion Hm; subst. eauto.
    + rewrite elem_of_nil. split; [done|].
      intros ([|c' m] & E & Hne & Hm); simplify_eq/=.
      inversion Hm; congruence.
Qed.

End Greedy.

(** ** The first success, expression by expression *)

Section Calculus.
Implicit Types (r : regex) (s : text) (g : groups) (p q : ascii -> bool).
#[local] Open Scope regex_scope.

Lemma run_Seq_Lit l r s g :
  run (Lit l · r) s g
  = match strip_prefix l s with Some s' => run r s' g | None => [] end.
Proof.
  simpl. destruct (strip_prefix l s); [|done].
  by rewrite bind_cons, app_nil_r.
Qed.

Lemma tail_led_Star p s g : tail_led p (run (Star p) s g).
Proof.
  unfold tail_led; simpl. destruct (greedy_head p s) as (tl & -> & Htl).
  simpl. by apply Forall_fmap.
Qed.

Lemma tail_led_Plus p s g : tail_led p (run (Plus p) s g).
Proof.
  unfold tail_led; simpl. destruct (greedy1_head p s) as (tl & -> & Htl).
  destruct (take_while p s); simpl; [constructor|]. by apply Forall_fmap.
Qed.

Lemma tail_led_Group p n r s g :
  tail_led p (run r s g) -> tail_led p (run (Group n r) s g).
Proof.
  unfold tail_led; simpl. rewrite tail_fmap_list. intros H.
  by apply Forall_fmap.
Qed.

(** Behind a repetition over [p], an expression that cannot start with a
    character of [p] only meets the largest count: giving back characters
    never helps. *)
Lemma run_Seq_greedy p r1 r2 s g :
  tail_led p (run r1 s g) -> rejects p r2 ->
  run (r1 · r2) s g
  = match head (run r1 s g) with Some x => run r2 x.2 x.1 | None => [] end.
Proof.
  intros Ht Hr. simpl. apply bind_head_only.
  eapply List.Forall_impl; [|exact Ht]. intros [g' [|c t]] Hl; [done|].
  by apply Hr.
Qed.

Lemma head_Lit l s g :
  head (run (Lit l) s g) = (fun s' => (g, s')) <$> strip_prefix l s.
Proof. simpl. by destruct (strip_prefix l s). Qed.

Lemma head_Star p s g : head (run (Star p) s g) = Some (g, drop_while p s).
Proof. simpl. by destruct (greedy_head p s) as (tl & -> & _). Qed.

Lemma head_Plus p s g :
  head (run (Plus p) s g)
  = match take_while p s with [] => None | _ => Some (g, drop_while p s) end.
Proof.
  simpl. destruct (greedy1_head p s) as (tl & -> & _).
  by destruct (take_while p s).
Qed.

Lemma head_Group n r s g :
  head (run (Group n r) s g)
  = (fun x => (<[n := consumed s x.2]> x.1, x.2)) <$> head (run r s g).
Proof. apply head_fmap_list. Qed.

Lemma head_Alt r1 r2 s g :
  head (run (r1 <|> r2) s g)
  = match head (run r1 s g) with
    | Some x => Some x
    | None => head (run r2 s g)
    end.
Proof. simpl. by destruct (run r1 s g). Qed.

Lemma head_Opt r s g :
  head (run (Opt r) s g) = Some (default (g, s) (head (run r s g))).
Proof. simpl. by destruct (run r s g). Qed.

Lemma head_Seq_greedy p r1 r2 s g :
  tail_led p (run r1 s g) -> rejects p r2 ->
  head (run (r1 · r2) s g)
  = head (run r1 s g) ≫= fun x => head (run r2 x.2 x.1).
Proof.
  intros Ht Hr. rewrite (run_Seq_greedy p) by done.
  by destruct (head (run r1 s g)).
Qed.

Lemma head_Seq_total r1 r2 s g :
  total r2 ->
  head (run (r1 · r2) s g)
  = head (run r1 s g) ≫= fun x => head (run r2 x.2 x.1).
Proof.
  intros Ht. simpl. rewrite head_bind.
  destruct (run r1 s g) as [|x l]; [done|]. simpl.
  destruct (run r2 x.2 x.1) eqn:E; [by apply Ht in E|done].
Qed.

Lemma head_Seq_Lit l r s g :
  head (run (Lit l · r) s g) = strip_prefix l s ≫= fun s' => head (run r s' g).
Proof. rewrite run_Seq_Lit. by destruct (strip_prefix l s). Qed.

(** *** What an expression cannot start with *)

Lemma rejects_Lit p l : starts_outside p l = true -> rejects p (Lit l).
Proof.
  destruct l as [|c l]; [done|]. intros Hc%negb_true_iff c' s g Hc'. simpl.
  case_decide; [congruence|done].
Qed.

Lemma rejects_Plus p q :
  (forall c, p c = true -> q c = false) -> rejects p (Plus q).
Proof. intros H c s g Hc. simpl. by rewrite (H c Hc). Qed.

Lemma rejects_Seq p r1 r2 : rejects p r1 -> rejects p (r1 · r2).
Proof. intros H c s g Hc. simpl. by rewrite (H c s g Hc). Qed.

Lemma rejects_Alt p r1 r2 :
  rejects p r1 -> rejects p r2 -> rejects p (r1 <|> r2).
Proof. intros H1 H2 c s g Hc. simpl. by rewrite H1, H2. Qed.

Lemma rejects_Group p n r : rejects p r -> rejects p (Group n r).
Proof. intros H c s g Hc. simpl. by rewrite H. Qed.

Lemma is_space_nonspace c : is_space c = true -> is_nonspace c = false.
Proof. unfold is_nonspace. by intros ->. Qed.

(** *** What always matches *)

Lemma total_Star p : total (Star p).
Proof. intros s g. simpl. by destruct (greedy_head p s) as (tl & -> & _). Qed.

Lemma total_Opt r : total (Opt r).
Proof. intros s g. simpl. by destruct (run r s g). Qed.

Lemma total_Group n r : total r -> total (Group n r).
Proof.
  intros H s g. simpl. specialize (H s g). by destruct (run r s g).
Qed.

Lemma total_Seq r1 r2 : total r1 -> total r2 -> total (r1 · r2).
Proof.
  intros H1 H2 s g. simpl. specialize (H1 s g).
  destruct (run r1 s g) as [|x l]; [done|]. rewrite bind_cons.
  specialize (H2 x.2 x.1). by destruct (run r2 x.2 x.1).
Qed.

End Calculus.

Create HintDb re discriminated.
#[export] Hint Resolve tail_led_Star tail_led_Plus tail_led_Group
  rejects_Lit rejects_Plus rejects_Seq rejects_Alt rejects_Group
  total_Star total_Opt total_Group total_Seq
  is_space_not_word is_word_not_space is_space_nonspace : re.
#[export] Hint Extern 1 (starts_outside _ _ = true) => reflexivity : re.

(** ** The scans of the direct matchers as first successes *)

Section Bridges.
Implicit Types (r : regex) (s : text) (g : groups) (p : ascii -> bool).
#[local] Open Scope regex_scope.

Lemma head_spaces1 s g :
  head (run (Plus is_space) s g) = (fun t => (g, t)) <$> spaces1 s.
Proof.
  rewrite head_Plus. unfold spaces1, skip_spaces.
  destruct s as [|c s]; simpl; [done|]. by destruct (is_space c).
Qed.

Lemma head_word1 n s g :
  head (run (Group n (Plus is_word)) s g)
  = (fun x => (<[n := x.1]> g, x.2)) <$> word1 s.
Proof.
  rewrite head_Group, head_Plus. unfold word1.
  destruct (take_while is_word s) eqn:E; simpl; [done|].
  by rewrite consumed_drop_while, E.
Qed.

Lemma head_token1 n s g :
  head (run (Group n (Plus is_nonspace)) s g)
  = (fun x => (<[n := x.1]> g, x.2)) <$> token1 s.
Proof.
  rewrite head_Group, head_Plus. unfold token1.
  destruct (take_while is_nonspace s) eqn:E; simpl; [done|].
  by rewrite consumed_drop_while, E.
Qed.

(** A literal in a group. *)
Lemma run_Seq_Group_Lit n l r s g :
  run (Group n (Lit l) · r) s g
  = match strip_prefix l s with
    | Some s' => run r s' (<[n := l]> g)
    | None => []
    end.
Proof.
  simpl. destruct (strip_prefix l s) as [s'|] eqn:E; [|done].
  apply strip_prefix_Some in E as ->. simpl.
  by rewrite consumed_app, app_nil_r.
Qed.

Lemma is_not_self c : is_not c c = false.
Proof. unfold is_not. by rewrite Ascii.eqb_refl. Qed.

Lemma is_not_false x c : is_not x c = false -> c = x.
Proof.
  intros H. destruct (decide (c = x)) as [|Hne]; [done|].
  apply is_not_true in Hne. congruence.
Qed.

(** A run of characters other than [c] stops in front of [c] or at the
    end of the text. *)
Lemma drop_while_is_not c s :
  drop_while (is_not c) s = []
  \/ exists t, drop_while (is_not c) s = c :: t
              /\ s = take_while (is_not c) s ++ c :: t.
Proof.
  destruct (drop_while (is_not c) s) as [|d t] eqn:E; [by left|right].
  pose proof (is_not_false _ _ (drop_while_head _ _ _ _ E)) as ->.
  exists t. split; [done|]. by rewrite <- E, take_drop_while.
Qed.

(** The text between delimiters. *)
Lemma head_delimited_re o c s g :
  head (run (delimited_re o c) s g)
  = (fun m => (g, drop (length m) s)) <$> delimited o c s.
Proof.
  unfold delimited_re, delimited. rewrite head_Seq_Lit.
  destruct s as [|x s]; [done|].
  change (strip_prefix [o] (x :: s)) with (if decide (o = x) then Some s else None).
  destruct (decide (o = x)) as [<-|Hne];
    [rewrite decide_True by done|by rewrite decide_False by congruence].
  cbn [mbind option_bind].
  rewrite (head_Seq_greedy (is_not c)), head_Star;
    [|auto with re|apply rejects_Lit; unfold starts_outside; by rewrite is_not_self].
  cbn [mbind option_bind fst snd]. rewrite head_Lit.
  destruct (drop_while_is_not c s) as [->|(t & -> & Hs)]; [done|].
  simpl. rewrite decide_True by done. simpl. do 2 f_equal.
  rewrite Hs at 2. rewrite length_app. simpl.
  replace (take_while (is_not c) s ++ c :: t)
    with ((take_while (is_not c) s ++ [c]) ++ t) by (by rewrite <- app_assoc).
  rewrite drop_app_length'; [done|]. rewrite length_app. simpl. lia.
Qed.

Lemma delimited_prefix o c s m :
  delimited o c s = Some m -> consumed s (drop (length m) s) = m.
Proof.
  unfold delimited. destruct s as [|x s]; [done|].
  case_decide as Hx; [subst x|done].
  destruct (drop_while_is_not c s) as [->|(t & -> & Hs)]; [done|].
  intros [= <-]. rewrite Hs at 1 3.
  replace (o :: take_while (is_not c) s ++ c :: t)
    with ((o :: take_while (is_not c) s ++ [c]) ++ t)
    by (simpl; by rewrite <- app_assoc).
  by rewrite drop_app_length, consumed_app.
Qed.

(** The keywords. *)
Lemma head_alts c cs s g :
  head (run (alts (command_name c) (command_name <$> cs)) s g)
  = (fun x => (g, x.2)) <$> first_keyword (c :: cs) s.
Proof.
  revert c. induction cs as [|c' cs IH]; intros c; simpl.
  - by destruct (strip_prefix (command_name c) s).
  - destruct (strip_prefix (command_name c) s); [done|]. apply IH.
Qed.

Lemma head_keyword_re s g :
  head (run keyword_re s g) = (fun x => (g, x.2)) <$> first_keyword commands s.
Proof. apply (head_alts Include (tail commands)). Qed.

Lemma consumed_rest_of s :
  consumed s (drop_while is_dot (drop_while is_space s)) = rest_of s.
Proof.
  unfold rest_of.
  rewrite <- (take_drop_while is_space s) at 1.
  rewrite <- (take_drop_while is_dot (drop_while is_space s)) at 1.
  rewrite app_assoc. apply consumed_app.
Qed.

Lemma strip_prefix_split (l1 l2 s : text) :
  strip_prefix (l1 ++ l2) s = strip_prefix l1 s ≫= strip_prefix l2.
Proof.
  revert s. induction l1 as [|a l1 IH]; intros s; simpl; [done|].
  destruct s as [|b s]; [done|]. by case_decide.
Qed.

End Bridges.

(** ** Tactics *)

(** The groups of a match whose numbers are known. *)
Ltac groups_simpl :=
  unfold group; repeat (rewrite lookup_insert; simpl); rewrite ?lookup_empty.

(** One step of a computation in [option], with the expressions left
    folded. *)
Ltac opt_simpl :=
  cbn [mbind option_bind fst snd fmap option_fmap option_map].

(** ** The search is a matcher of the language *)

Section Language.
Implicit Types (r : regex) (s m : text) (g : groups).

(** Every success leaves a suffix of the text, behind a word of the
    expression. *)
Lemma run_sound r : forall s g g' s',
  (g', s') ∈ run r s g -> exists m, s = m ++ s' /\ lang r m.
Proof.
  induction r as [l|p|p|r1 IH1 r2 IH2|r1 IH1 r2 IH2|r IH|n r IH];
    intros s g g' s'; simpl.
  - destruct (strip_prefix l s) as [t|] eqn:E; [|by intros ?%elem_of_nil].
    intros [= <- <-]%list_elem_of_singleton. apply strip_prefix_Some in E.
    eauto.
  - intros (t & [= <- <-] & (m & -> & Hm)%greedy_elem)%list_elem_of_fmap.
    eauto.
  - intros (t & [= <- <-] & (m & -> & ? & Hm)%greedy1_elem)%list_elem_of_fmap.
    eauto.
  - intros ([g1 s1] & H2 & H1)%list_elem_of_bind. simpl in H2.
    apply IH1 in H1 as (m1 & -> & ?). apply IH2 in H2 as (m2 & -> & ?).
    exists (m1 ++ m2). rewrite <- app_assoc. eauto 6.
  - intros [(m & -> & ?)%IH1|(m & -> & ?)%IH2]%elem_of_app; eauto.
  - intros [(m & -> & ?)%IH|[= <- <-]%list_elem_of_singleton]%elem_of_app;
      [eauto|]. exists []. auto.
  - intros ([g1 s1] & [= _ <-] & ?%IH)%list_elem_of_fmap. done.
Qed.

(** Every word of the expression in front of the text is found. *)
Lemma run_complete r : forall m s' g,
  lang r m -> exists g', (g', s') ∈ run r (m ++ s') g.
Proof.
  induction r as [l|p|p|r1 IH1 r2 IH2|r1 IH1 r2 IH2|r IH|n r IH];
    intros m s' g; simpl.
  - intros ->. rewrite strip_prefix_app. exists g. by left.
  - intros Hm. exists g. apply list_elem_of_fmap. exists s'. split; [done|].
    apply greedy_elem. eauto.
  - intros [Hne Hm]. exists g. apply list_elem_of_fmap. exists s'.
    split; [done|]. apply greedy1_elem. eauto.
  - intros (m1 & m2 & -> & H1 & H2). rewrite <- app_assoc.
    destruct (IH1 m1 (m2 ++ s') g H1) as [g1 Hg1].
    destruct (IH2 m2 s' g1 H2) as [g2 Hg2].
    exists g2. apply list_elem_of_bind. by exists (g1, m2 ++ s').
  - intros [H|H]; [destruct (IH1 m s' g H) as [g' ?]
                  |destruct (IH2 m s' g H) as [g' ?]];
      exists g'; apply elem_of_app; auto.
  - intros [H| ->].
    + destruct (IH m s' g H) as [g' ?]. exists g'. apply elem_of_app. auto.
    + exists g. apply elem_of_app. right. by left.
  - intros H. destruct (IH m s' g H) as [g' ?]. eexists.
    apply list_elem_of_fmap. by exists (g', s').
Qed.

(** [re_match] fails exactly when no prefix of the text is a word of the
    expression: the order of the search only chooses among matches. *)
Lemma re_match_None r s :
  re_match r s = None <-> forall m s', s = m ++ s' -> ~ lang r m.
Proof.
  unfold re_match. split.
  - intros H m s' -> Hm. destruct (run_complete r m s' ∅ Hm) as [g' Hg'].
    destruct (run r (m ++ s') ∅); [by apply elem_of_nil in Hg'|done].
  - intros H. destruct (run r s ∅) as [|[g' s'] l] eqn:E; [done|].
    destruct (run_sound r s ∅ g' s') as (m & -> & Hm); [rewrite E; left|].
    by destruct (H m s').
Qed.

End Language.

(** ** The matchers of the program *)

Section Matchers.
Implicit Types (s rest line : text).
#[local] Open Scope regex_scope.

(** [ifdef_re_match] and [undef_re_match] return group 1 of the first
    match of [ifdef_re]. *)
Theorem ifdef_re_ref rest :
  re_match ifdef_re rest ≫= group 1 = ifdef_re_match rest.
Proof.
  unfold re_match, ifdef_re, ifdef_re_match.
  rewrite (head_Seq_greedy is_space), head_spaces1 by auto with re.
  destruct (spaces1 rest) as [r|]; opt_simpl; [|done]. rewrite head_word1.
  destruct (word1 r) as [[w r']|]; opt_simpl; [|done]. by groups_simpl.
Qed.

(** C20.  [define_re_match] returns groups 1 and 3 of the first match of
    [define_re]; group 3 is absent when the optional part does not match. *)
Theorem define_re_ref rest :
  (re_match define_re rest ≫= fun m =>
     group 1 m ≫= fun k => Some (k, group 3 m))
  = define_re_match rest.
Proof.
  unfold re_match, define_re, define_re_match.
  rewrite (head_Seq_greedy is_space), head_spaces1 by auto with re.
  destruct (spaces1 rest) as [r|]; opt_simpl; [|done].
  rewrite head_Seq_total, head_word1 by auto with re.
  destruct (word1 r) as [[k r']|]; [|done].
  opt_simpl.
  rewrite head_Opt, head_Group, (head_Seq_greedy is_space), head_spaces1
    by auto with re.
  destruct (spaces1 r') as [r''|]; opt_simpl; [|by groups_simpl].
  rewrite head_token1.
  destruct (token1 r'') as [[v t]|]; opt_simpl; by groups_simpl.
Qed.

(** C9.  [include_re_match] returns group 1 of the first match of
    [include_re]: the path with its delimiters. *)
Theorem include_re_ref rest :
  re_match include_re rest ≫= group 1 = include_re_match rest.
Proof.
  unfold re_match, include_re, include_re_match.
  rewrite (head_Seq_greedy is_space), head_spaces1
    by (unfold delimited_re; auto 7 with re).
  destruct (spaces1 rest) as [r|]; opt_simpl; [|done].
  rewrite head_Group, head_Alt, !head_delimited_re.
  destruct (delimited dquote dquote r) as [m|] eqn:E1; opt_simpl.
  { groups_simpl. by rewrite (delimited_prefix _ _ _ _ E1). }
  destruct (delimited "<" ">" r) as [m|] eqn:E2; opt_simpl; [|done].
  groups_simpl. by rewrite (delimited_prefix _ _ _ _ E2).
Qed.

(** [function] needs a token: it matches nothing where [value] matches
    nothing. *)
Lemma function_needs_token s g :
  take_while is_nonspace s = [] -> run function_ s g = [].
Proof.
  unfold function_. rewrite run_Seq_Lit. destruct s as [|c s]; [done|].
  simpl take_while. destruct (is_nonspace c) eqn:Hc; [done|]. intros _.
  simpl. case_decide; [by subst c|done].
Qed.

(** C21.  [if_re_match] returns group 1 of the first match of [if_re]: the
    whole token behind the white space, whether it is a call of [defined]
    or not. *)
Theorem if_re_ref rest :
  re_match if_re rest ≫= group 1 = if_re_match rest.
Proof.
  unfold re_match, if_re, if_re_match, expr.
  rewrite (head_Seq_greedy is_space), head_spaces1
    by (unfold function_; auto 7 with re).
  destruct (spaces1 rest) as [r|]; opt_simpl; [|done].
  rewrite head_Group, head_Alt, head_Plus. unfold token1.
  destruct (take_while is_nonspace r) as [|c w] eqn:E; opt_simpl.
  - by rewrite function_needs_token.
  - groups_simpl. by rewrite consumed_drop_while, E.
Qed.

(** C22.  [function_re_match] returns groups 1 and 2 of the first match of
    [function_re]. *)
Theorem function_re_ref s :
  (re_match function_re s ≫= fun m =>
     group 1 m ≫= fun f => group 2 m ≫= fun a => Some (f, a))
  = function_re_match s.
Proof.
  unfold re_match, function_re, function_re_match.
  change (txt "defined(") with (txt "defined" ++ txt "(").
  rewrite strip_prefix_split, run_Seq_Group_Lit.
  destruct (strip_prefix (txt "defined") s) as [s1|]; [|done].
  rewrite run_Seq_Lit. cbn [mbind option_bind].
  destruct (strip_prefix (txt "(") s1) as [s2|]; [|done].
  rewrite (head_Seq_greedy is_word), head_word1 by auto with re.
  destruct (word1 s2) as [[arg t]|]; [|done].
  opt_simpl.
  rewrite head_Lit. destruct t as [|c t]; [done|]. simpl.
  repeat case_decide; simplify_eq/=; try done; by groups_simpl.
Qed.

(** [pragma_re_match] returns group 1 of the first match of
    [pragma_re]. *)
Theorem pragma_re_ref rest :
  re_match pragma_re rest ≫= group 1 = pragma_re_match rest.
Proof.
  unfold re_match, pragma_re, pragma_re_match.
  rewrite (head_Seq_greedy is_space), head_spaces1 by auto with re.
  destruct (spaces1 rest) as [r|]; opt_simpl; [|done].
  rewrite head_Group, head_Lit.
  destruct (strip_prefix (txt "once") r) as [t|] eqn:E; [|done].
  apply strip_prefix_Some in E as ->. opt_simpl. rewrite consumed_app.
  by groups_simpl.
Qed.

(** C8.  [command_re_match] returns groups 1 and 2 of the first match of
    [command_re]: the keyword that the order of the alternatives selects,
    and the text behind it up to the end of the line. *)
Theorem command_re_ref line :
  (re_match command_re line ≫= fun m =>
     group 1 m ≫= fun c => group 2 m ≫= fun r => Some (c, r))
  = (fun x => (command_name x.1, x.2)) <$> command_re_match line.
Proof.
  unfold re_match, command_re, command_re_match, skip_spaces.
  rewrite (head_Seq_greedy is_space), head_Star by auto with re.
  cbn [mbind option_bind fst snd]. rewrite head_Seq_Lit.
  destruct (drop_while is_space line) as [|c r]; [done|].
  change (strip_prefix (txt "#") (c :: r))
    with (if decide ("#"%char = c) then Some r else None).
  destruct (decide ("#"%char = c)) as [<-|Hne];
    [rewrite decide_True by done|by rewrite decide_False by congruence].
  cbn [mbind option_bind]. rewrite head_Seq_total by auto with re.
  rewrite head_Group, head_keyword_re.
  destruct (first_keyword commands r) as [[cmd r']|] eqn:E; [|done].
  apply first_keyword_Some in E as [_ ->].
  opt_simpl.
  rewrite head_Group, head_Seq_total, head_Star by auto with re.
  opt_simpl.
  rewrite head_Group, head_Star.
  opt_simpl.
  rewrite consumed_app, consumed_rest_of. by groups_simpl.
Qed.

End Matchers.
