(* ===== verification/CondStack.v ===== *)
(** * The conditional stack

    [process_file] keeps two parallel Python lists, [ifs] and [allow_else]
    (src/c-preprocess.py, lines 46-47), one entry per open [#if], [#ifdef]
    or [#ifndef], the innermost last.  This file models the lists as they
    are (entries are appended and popped at the end), the operations of
    lines 49-58, 89-98 and 129-133 on them, the invariant that makes the
    top entry decide alone whether a line is kept, and the stack of frames
    of the specification with the refinement between the two. *)

From Stdlib Require Import List Bool Arith Lia.
From stdpp Require Import base tactics option list.
From S2P Require Import Prelude.

#[local] Open Scope list_scope.
#[local] Open Scope outcome_scope.

(** ** State and operations *)

(** The lists [ifs] and [allow_else]. *)
Record cond_stack : Type := CondStack {
  ifs : list bool;
  allow_else : list bool;
}.

#[export] Instance cond_stack_eq_dec : EqDecision cond_stack.
Proof. solve_decision. Defined.

(** Both lists empty: the state on entry to a file. *)
Definition empty_stack : cond_stack := CondStack [] [].

(** [is_valid()]: [not ifs or ifs[-1]]. *)
Definition is_valid (cs : cond_stack) : bool :=
  match py_last (ifs cs) with
  | None => true
  | Some b => b
  end.

(** [add_if(cond)]. *)
Definition add_if (cond : bool) (cs : cond_stack) : cond_stack :=
  if is_valid cs
  then CondStack (ifs cs ++ [cond]) (allow_else cs ++ [negb cond])
  else CondStack (ifs cs ++ [false]) (allow_else cs ++ [false]).

(** The handler of [#endif]: [assert ifs], then both lists are popped. *)
Definition do_endif (cs : cond_stack) : outcome cond_stack :=
  match ifs cs with
  | [] => Raise AssertionError
  | _ =>
      let* i := expect IndexError (py_pop (ifs cs)) in
      let* a := expect IndexError (py_pop (allow_else cs)) in
      Done (CondStack i a)
  end.

(** [ifs[-1] = True; allow_else[-1] = False]: the open block becomes
    active and takes no further branch. *)
Definition take_branch (cs : cond_stack) : outcome cond_stack :=
  let* i := expect IndexError (py_set_last true (ifs cs)) in
  let* a := expect IndexError (py_set_last false (allow_else cs)) in
  Done (CondStack i a).

(** [allow_else[-1]]. *)
Definition else_allowed (cs : cond_stack) : outcome bool :=
  expect IndexError (py_last (allow_else cs)).

(** The handler of [#else]: [assert ifs], then the branch is taken when
    [allow_else[-1]] holds. *)
Definition do_else (cs : cond_stack) : outcome cond_stack :=
  match ifs cs with
  | [] => Raise AssertionError
  | _ =>
      let* ae := else_allowed cs in
      if ae then take_branch cs else Done cs
  end.

(** The effect of [#elif] with a condition of value [cond] on the lists:
    nothing when [allow_else[-1]] is false (the [continue] of line 109),
    the branch is taken when the condition holds. *)
Definition do_elif (cond : bool) (cs : cond_stack) : outcome cond_stack :=
  let* ae := else_allowed cs in
  if negb ae then Done cs
  else if cond then take_branch cs else Done cs.

(** The directives that act on the stack, with the value of their
    condition. *)
Inductive cond_op : Type :=
  | OpIf (cond : bool)
  | OpElif (cond : bool)
  | OpElse
  | OpEndif.

Definition apply_op (op : cond_op) (cs : cond_stack) : outcome cond_stack :=
  match op with
  | OpIf c => Done (add_if c cs)
  | OpElif c => do_elif c cs
  | OpElse => do_else cs
  | OpEndif => do_endif cs
  end.

(** A sequence of directives, from the first to the last. *)
Fixpoint run_ops (ops : list cond_op) (cs : cond_stack) : outcome cond_stack :=
  match ops with
  | [] => Done cs
  | op :: ops' => let* cs' := apply_op op cs in run_ops ops' cs'
  end.

(** The states a file can be in: those the directives build from the empty
    stack. *)
Inductive reachable : cond_stack -> Prop :=
  | reach_empty : reachable empty_stack
  | reach_step op cs cs' :
      reachable cs -> apply_op op cs = Done cs' -> reachable cs'.

(** ** The invariant *)

(** [frames_ok parent fs]: every frame [(active, else_ok)] of [fs], from
    the outermost, has not both flags set, and has no flag set unless the
    frame around it ([parent] for the outermost) is active. *)
Fixpoint frames_ok (parent : bool) (fs : list (bool * bool)) : bool :=
  match fs with
  | [] => true
  | (a, e) :: fs' =>
      negb (a && e) && (parent || negb (a || e)) && frames_ok a fs'
  end.

(** Well-formed stacks: the lists have the same length and their frames
    are consistent. *)
Definition wf (cs : cond_stack) : bool :=
  (length (ifs cs) =? length (allow_else cs))
  && frames_ok true (zip (ifs cs) (allow_else cs)).

(** The nesting depth. *)
Definition depth (cs : cond_stack) : nat := length (ifs cs).

(** The activation of the innermost frame of [fs] inside a context of
    activation [parent]. *)
Definition top_active (parent : bool) (fs : list (bool * bool)) : bool :=
  match last fs with Some (a, _) => a | None => parent end.

(** ** The frames of the specification *)

(** A [ConditionalFrame]. *)
Record frame : Type := Frame { active : bool; elseAllowed : bool }.

(** The operations of the specification on a stack of frames, the
    innermost first. *)
Definition isActive (st : list frame) : bool :=
  match st with [] => true | f :: _ => active f end.

Definition evaluate (cond : bool) (st : list frame) : list frame :=
  (if isActive st then Frame cond (negb cond) else Frame false false) :: st.

Definition elseBranch (st : list frame) : option (list frame) :=
  match st with
  | [] => None
  | f :: st' => Some ((if elseAllowed f then Frame true false else f) :: st')
  end.

Definition elifBranch (cond : bool) (st : list frame) : option (list frame) :=
  match st with
  | [] => None
  | f :: st' =>
      Some ((if elseAllowed f && cond then Frame true false else f) :: st')
  end.

Definition endif (st : list frame) : option (list frame) :=
  match st with [] => None | _ :: st' => Some st' end.

(** The frames a pair of lists stands for, the innermost first. *)
Definition frames_of (cs : cond_stack) : list frame :=
  rev (zip_with Frame (ifs cs) (allow_else cs)).

(** The operation of the specification a directive stands for. *)
Definition abs_apply (op : cond_op) (st : list frame) : option (list frame) :=
  match op with
  | OpIf c => Some (evaluate c st)
  | OpElif c => elifBranch c st
  | OpElse => elseBranch st
  | OpEndif => endif st
  end.

(** ** Nesting of directives *)

(** The depth the directives [ops] reach from depth [n], when every
    [#else], [#elif] and [#endif] has a block to act on. *)
Fixpoint nesting (n : nat) (ops : list cond_op) : option nat :=
  match ops with
  | [] => Some n
  | OpIf _ :: ops' => nesting (S n) ops'
  | OpEndif :: ops' =>
      match n with 0 => None | S n' => nesting n' ops' end
  | _ :: ops' =>
      match n with 0 => None | S _ => nesting n ops' end
  end.

(** [ext] on top of [base]. *)
Definition stack_app (base ext : cond_stack) : cond_stack :=
  CondStack (ifs base ++ ifs ext) (allow_else base ++ allow_else ext).

(** ** Lemmas on the lists *)

Section Lists.

Lemma zip_snoc {A B} (l : list A) (k : list B) x y :
  length l = length k -> zip (l ++ [x]) (k ++ [y]) = zip l k ++ [(x, y)].
Proof. intros H. by rewrite zip_with_app. Qed.

Lemma zip_with_snoc {A B C} (f : A -> B -> C) l k x y :
  length l = length k ->
  zip_with f (l ++ [x]) (k ++ [y]) = zip_with f l k ++ [f x y].
Proof. intros H. by rewrite zip_with_app. Qed.

Lemma frames_ok_snoc p fs a e :
  frames_ok p (fs ++ [(a, e)]) =
  frames_ok p fs && negb (a && e) && (top_active p fs || negb (a || e)).
Proof.
  revert p. induction fs as [|[a' e'] fs IH]; intros p; simpl.
  - unfold top_active; simpl. by rewrite andb_true_r.
  - rewrite IH. unfold top_active. rewrite !last_cons.
    destruct (last fs) as [[a'' e'']|]; simpl;
      by rewrite <- !andb_assoc.
Qed.

Lemma top_active_snoc p fs a e : top_active p (fs ++ [(a, e)]) = a.
Proof. unfold top_active. by rewrite last_snoc. Qed.

Lemma top_active_zip i a :
  length i = length a -> top_active true (zip i a) = is_valid (CondStack i a).
Proof.
  intros Hlen. unfold is_valid; simpl.
  destruct (snoc_cases i) as [->|(i' & x & ->)]; [done|].
  destruct (snoc_cases a) as [->|(a' & y & ->)].
  { rewrite length_app in Hlen; simpl in Hlen; lia. }
  rewrite !length_app in Hlen; simpl in Hlen.
  rewrite zip_snoc by lia. by rewrite top_active_snoc, py_last_snoc.
Qed.

(** An active innermost frame has only active frames around it. *)
Lemma frames_ok_top_active p fs :
  frames_ok p fs = true -> top_active p fs = true ->
  p = true /\ forallb fst fs = true.
Proof.
  revert p. induction fs as [|[a e] fs IH]; intros p; simpl.
  - intros _ H. by compute in H.
  - intros [[_ Hp]%andb_prop Hfs]%andb_prop Htop.
    assert (top_active a fs = true) as Ha.
    { revert Htop. unfold top_active. rewrite last_cons.
      by destruct (last fs) as [[? ?]|]. }
    destruct (IH a Hfs Ha) as [-> ->]. by destruct p.
Qed.

Lemma forallb_fst_zip (i a : list bool) :
  length i = length a -> forallb fst (zip i a) = forallb id i.
Proof.
  revert a. induction i as [|x i IH]; intros [|y a]; simpl; try done.
  intros [= Hlen]. by rewrite IH.
Qed.

End Lists.

(** ** Lemmas on the operations *)

Section Operations.

Lemma is_valid_empty : is_valid empty_stack = true.
Proof. done. Qed.

Lemma is_valid_snoc i a b : is_valid (CondStack (i ++ [b]) a) = b.
Proof. unfold is_valid; simpl. by rewrite py_last_snoc. Qed.

Lemma do_endif_snoc i a x y :
  do_endif (CondStack (i ++ [x]) (a ++ [y])) = Done (CondStack i a).
Proof.
  unfold do_endif; simpl. rewrite !py_pop_snoc. simpl.
  by destruct i.
Qed.

Lemma do_endif_empty a : do_endif (CondStack [] a) = Raise AssertionError.
Proof. done. Qed.

Lemma take_branch_snoc i a x y :
  take_branch (CondStack (i ++ [x]) (a ++ [y]))
  = Done (CondStack (i ++ [true]) (a ++ [false])).
Proof. unfold take_branch; simpl. by rewrite !py_set_last_snoc. Qed.

Lemma else_allowed_snoc i a y :
  else_allowed (CondStack i (a ++ [y])) = Done y.
Proof. unfold else_allowed; simpl. by rewrite py_last_snoc. Qed.

Lemma do_else_snoc i a x y :
  do_else (CondStack (i ++ [x]) (a ++ [y]))
  = Done (if y then CondStack (i ++ [true]) (a ++ [false])
          else CondStack (i ++ [x]) (a ++ [y])).
Proof.
  unfold do_else. rewrite else_allowed_snoc, take_branch_snoc. simpl.
  destruct i, y; done.
Qed.

Lemma do_elif_snoc c i a x y :
  do_elif c (CondStack (i ++ [x]) (a ++ [y]))
  = Done (if y && c then CondStack (i ++ [true]) (a ++ [false])
          else CondStack (i ++ [x]) (a ++ [y])).
Proof.
  unfold do_elif. rewrite else_allowed_snoc, take_branch_snoc. simpl.
  by destruct y, c.
Qed.

(** Every directive on a stack with a top entry. *)
Lemma apply_op_snoc op i a x y :
  apply_op op (CondStack (i ++ [x]) (a ++ [y])) =
  Done match op with
       | OpIf c => add_if c (CondStack (i ++ [x]) (a ++ [y]))
       | OpElif c =>
           if y && c then CondStack (i ++ [true]) (a ++ [false])
           else CondStack (i ++ [x]) (a ++ [y])
       | OpElse =>
           if y then CondStack (i ++ [true]) (a ++ [false])
           else CondStack (i ++ [x]) (a ++ [y])
       | OpEndif => CondStack i a
       end.
Proof.
  destruct op; simpl;
    [done|apply do_elif_snoc|apply do_else_snoc|apply do_endif_snoc].
Qed.

(** A stack with equally long lists is empty or has a top in both. *)
Lemma stack_cases cs :
  length (ifs cs) = length (allow_else cs) ->
  cs = empty_stack \/
  exists i a x y, cs = CondStack (i ++ [x]) (a ++ [y]) /\ length i = length a.
Proof.
  destruct cs as [i a]; simpl. intros Hlen.
  destruct (snoc_cases i) as [->|(i' & x & ->)].
  - destruct a; [by left|done].
  - destruct (snoc_cases a) as [->|(a' & y & ->)].
    + rewrite length_app in Hlen; simpl in Hlen; lia.
    + right. exists i', a', x, y. split; [done|].
      rewrite !length_app in Hlen; simpl in Hlen; lia.
Qed.

Lemma wf_length cs : wf cs = true -> length (ifs cs) = length (allow_else cs).
Proof. by intros [?%Nat.eqb_eq _]%andb_prop. Qed.

Lemma wf_snoc i a x y :
  wf (CondStack (i ++ [x]) (a ++ [y])) = true <->
  wf (CondStack i a) = true /\ negb (x && y) = true /\
  (is_valid (CondStack i a) || negb (x || y)) = true.
Proof.
  unfold wf; simpl. rewrite !length_app; simpl.
  rewrite !andb_true_iff, !Nat.eqb_eq. split.
  - intros [Hlen Hok]. assert (length i = length a) as Hl by lia.
    rewrite zip_snoc, frames_ok_snoc, top_active_zip in Hok by done.
    apply andb_prop in Hok as [[? ?]%andb_prop ?]. done.
  - intros [[Hl Hok] [? ?]]. split; [lia|].
    rewrite zip_snoc, frames_ok_snoc, top_active_zip by done.
    by rewrite Hok; repeat (apply andb_true_intro; split).
Qed.

End Operations.

(** Split a stack whose lists are equally long into the empty stack and a
    stack with a top frame. *)
Ltac stack_destruct cs H :=
  let i := fresh "i" in
  let a := fresh "a" in
  let x := fresh "x" in
  let y := fresh "y" in
  let Hl := fresh "Hlen" in
  destruct (stack_cases cs H) as [->|(i & a & x & y & -> & Hl)].

(** ** Theorems *)

Section Invariant.

Lemma add_if_wf c cs : wf cs = true -> wf (add_if c cs) = true.
Proof.
  intros Hwf. unfold add_if. destruct cs as [i a].
  destruct (is_valid (CondStack i a)) eqn:Hv; simpl;
    apply wf_snoc; rewrite Hv; by destruct c.
Qed.

Lemma do_endif_wf cs cs' : wf cs = true -> do_endif cs = Done cs' -> wf cs' = true.
Proof.
  intros Hwf. stack_destruct cs (wf_length _ Hwf); [done|].
  rewrite do_endif_snoc. intros [= <-]. by apply wf_snoc in Hwf as [? _].
Qed.

Lemma do_else_wf cs cs' : wf cs = true -> do_else cs = Done cs' -> wf cs' = true.
Proof.
  intros Hwf. stack_destruct cs (wf_length _ Hwf); [done|].
  rewrite do_else_snoc. intros [= <-]. destruct y; [|done].
  apply wf_snoc in Hwf as (? & ? & Hp). apply wf_snoc.
  by destruct x, (is_valid (CondStack i a)).
Qed.

Lemma do_elif_wf c cs cs' :
  wf cs = true -> do_elif c cs = Done cs' -> wf cs' = true.
Proof.
  intros Hwf. stack_destruct cs (wf_length _ Hwf); [done|].
  rewrite do_elif_snoc. intros [= <-]. destruct y, c; try done.
  apply wf_snoc in Hwf as (? & ? & Hp). apply wf_snoc.
  by destruct x, (is_valid (CondStack i a)).
Qed.

Lemma apply_op_wf op cs cs' :
  wf cs = true -> apply_op op cs = Done cs' -> wf cs' = true.
Proof.
  destruct op; simpl; eauto using do_elif_wf, do_else_wf, do_endif_wf.
  intros ? [= <-]. by apply add_if_wf.
Qed.

(** C1.  Every state the directives of a file can build from the empty
    stack is well formed: [ifs] and [allow_else] have the same length, no
    frame is both active and open to an [#else], and a frame inside an
    inactive frame is inactive and closed to [#else]. *)
Theorem reachable_wf cs : reachable cs -> wf cs = true.
Proof. induction 1; [done|]. eauto using apply_op_wf. Qed.

Lemma reachable_wf_witness :
  wf (CondStack [true; false; false] [false; true; false]) = true.
Proof.
  apply reachable_wf.
  apply (reach_step (OpIf true) (CondStack [true; false] [false; true]));
    [|done].
  apply (reach_step (OpIf false) (CondStack [true] [false])); [|done].
  apply (reach_step (OpIf true) empty_stack); [|done].
  apply reach_empty.
Defined.

(** When every entry of [ifs] is true the top entry is. *)
Lemma all_active_is_valid cs : forallb id (ifs cs) = true -> is_valid cs = true.
Proof.
  destruct cs as [i a]. destruct (snoc_cases i) as [->|(i' & x & ->)]; [done|].
  simpl. rewrite forallb_app, is_valid_snoc. simpl.
  by intros [_ [-> _]%andb_prop]%andb_prop.
Qed.

(** On a well-formed stack a true top entry has only true entries below. *)
Lemma is_valid_all cs :
  wf cs = true -> is_valid cs = true -> forallb id (ifs cs) = true.
Proof.
  intros Hwf Hv. pose proof (wf_length _ Hwf) as Hlen.
  apply andb_prop in Hwf as [_ Hok]. destruct cs as [i a]; simpl in *.
  rewrite <- top_active_zip in Hv by done.
  apply frames_ok_top_active in Hv as [_ Hall]; [|done].
  by rewrite forallb_fst_zip in Hall.
Qed.

(** C2.  On a well-formed stack the test of the top entry alone,
    [is_valid], says whether every open block is active: the flag of a
    frame already carries the conjunction of the frames around it. *)
Theorem is_valid_all_active cs :
  wf cs = true -> is_valid cs = forallb id (ifs cs).
Proof.
  intros Hwf. destruct (is_valid cs) eqn:Hv; symmetry.
  - by apply is_valid_all.
  - apply not_true_iff_false. intros H%all_active_is_valid. congruence.
Qed.

Lemma is_valid_all_active_witness :
  is_valid (CondStack [true; true; false] [false; false; true])
  = forallb id [true; true; false].
Proof. by apply (is_valid_all_active (CondStack _ _)). Defined.

End Invariant.

Section Depth.

(** C31.  The depth of the stack follows the nesting of the directives and
    not their conditions: [#if], [#ifdef] and [#ifndef] add one entry
    whether the context is active or not, [#endif] removes one, [#else] and
    [#elif] leave the depth as it is. *)
Theorem apply_op_depth op cs cs' :
  wf cs = true -> apply_op op cs = Done cs' ->
  depth cs' = match op with
              | OpIf _ => S (depth cs)
              | OpEndif => pred (depth cs)
              | _ => depth cs
              end.
Proof.
  intros Hwf. unfold depth. destruct op; simpl.
  - intros [= <-]. unfold add_if.
    destruct (is_valid cs); simpl; rewrite length_app; simpl; lia.
  - stack_destruct cs (wf_length _ Hwf); [done|]. rewrite do_elif_snoc.
    intros [= <-]. destruct (y && cond); simpl; by rewrite !length_app.
  - stack_destruct cs (wf_length _ Hwf); [done|]. rewrite do_else_snoc.
    intros [= <-]. destruct y; simpl; by rewrite !length_app.
  - stack_destruct cs (wf_length _ Hwf); [done|]. rewrite do_endif_snoc.
    intros [= <-]. simpl. rewrite length_app; simpl; lia.
Qed.

Lemma apply_op_depth_witness :
  depth (CondStack [true; false; false] [false; true; false]) = 3.
Proof.
  by apply (apply_op_depth (OpIf true) (CondStack [true; false] [false; true])).
Defined.

End Depth.

Section Progress.

(** On a well-formed stack that is not empty no directive fails. *)
Lemma apply_op_progress op cs :
  wf cs = true -> 0 < depth cs -> exists cs', apply_op op cs = Done cs'.
Proof.
  intros Hwf Hd. stack_destruct cs (wf_length _ Hwf).
  { by apply Nat.lt_irrefl in Hd. }
  rewrite apply_op_snoc. eauto.
Qed.

End Progress.

Section Branches.

(** C32.  Only [#endif] ends an active block: after an [#else] or an
    [#elif] that does not fail, an active block is still active.  A block
    whose first branch was taken therefore keeps its [#else] branch too. *)
Theorem branch_keeps_active op cs cs' :
  op <> OpEndif -> (forall c, op <> OpIf c) ->
  wf cs = true -> is_valid cs = true ->
  apply_op op cs = Done cs' -> is_valid cs' = true.
Proof.
  intros Hne Hni Hwf Hv. stack_destruct cs (wf_length _ Hwf).
  { destruct op; try done. by destruct (Hni cond). }
  rewrite is_valid_snoc in Hv. subst x.
  rewrite apply_op_snoc. intros [= <-]. destruct op; try done.
  - by destruct (Hni cond).
  - by destruct (y && cond); rewrite is_valid_snoc.
  - by destruct y; rewrite is_valid_snoc.
Qed.

Lemma branch_keeps_active_witness :
  is_valid (CondStack [true] [false]) = true.
Proof.
  apply (branch_keeps_active OpElse (CondStack [true] [false])); done.
Defined.

(** The directives [#ifdef X], text, [#else], text, [#endif] with [X]
    defined: the block is active after the [#ifdef] and still active after
    the [#else], so both texts are kept. *)
Theorem else_after_taken_branch cs :
  wf cs = true -> is_valid cs = true ->
  is_valid (add_if true cs) = true /\
  exists cs', do_else (add_if true cs) = Done cs' /\ is_valid cs' = true.
Proof.
  intros Hwf Hv. unfold add_if. rewrite Hv. destruct cs as [i a]; simpl.
  rewrite is_valid_snoc, do_else_snoc. split; [done|].
  eexists. split; [done|]. by rewrite is_valid_snoc.
Qed.

Lemma else_after_taken_branch_witness :
  is_valid (add_if true empty_stack) = true /\
  exists cs', do_else (add_if true empty_stack) = Done cs' /\
              is_valid cs' = true.
Proof. by apply else_after_taken_branch. Defined.

(** A second [#else], or an [#else] behind a taken branch, changes
    nothing. *)
Lemma do_else_idemp cs cs' :
  wf cs = true -> do_else cs = Done cs' -> do_else cs' = Done cs'.
Proof.
  intros Hwf. stack_destruct cs (wf_length _ Hwf); [done|].
  rewrite do_else_snoc. intros [= <-].
  destruct y; by rewrite do_else_snoc.
Qed.

(** An [#else] opens a block that no branch has taken, inside an active
    block. *)
Lemma do_else_activates c cs cs' :
  is_valid cs = true -> do_else (add_if c cs) = Done cs' ->
  is_valid cs' = true.
Proof.
  intros Hv. unfold add_if. rewrite Hv. destruct cs as [i a]; simpl.
  rewrite do_else_snoc. intros [= <-].
  destruct c; simpl; by rewrite is_valid_snoc.
Qed.

(** Inside an inactive block nothing is ever active. *)
Lemma inactive_stays_inactive op c cs cs' :
  op <> OpEndif -> (forall c, op <> OpIf c) ->
  is_valid cs = false -> apply_op op (add_if c cs) = Done cs' ->
  is_valid cs' = false.
Proof.
  intros Hne Hni Hv. unfold add_if. rewrite Hv. destruct cs as [i a].
  simpl. rewrite apply_op_snoc. intros [= <-]. destruct op; try done.
  - by destruct (Hni cond).
  - simpl. by rewrite is_valid_snoc.
  - by rewrite is_valid_snoc.
Qed.

End Branches.

(** ** Refinement of the specification's frames *)

Section Refinement.

Lemma frames_of_snoc i a x y :
  length i = length a ->
  frames_of (CondStack (i ++ [x]) (a ++ [y]))
  = Frame x y :: frames_of (CondStack i a).
Proof.
  intros Hlen. unfold frames_of; simpl.
  by rewrite zip_with_snoc, rev_unit.
Qed.

Lemma isActive_frames_of cs :
  length (ifs cs) = length (allow_else cs) ->
  isActive (frames_of cs) = is_valid cs.
Proof.
  intros Hlen. stack_destruct cs Hlen; [done|].
  by rewrite frames_of_snoc, is_valid_snoc.
Qed.

Lemma frames_of_add_if c cs :
  length (ifs cs) = length (allow_else cs) ->
  frames_of (add_if c cs) = evaluate c (frames_of cs).
Proof.
  intros Hlen. unfold evaluate, add_if.
  rewrite isActive_frames_of by done. destruct cs as [i a].
  destruct (is_valid (CondStack i a)); simpl; by rewrite frames_of_snoc.
Qed.

(** C3.  The two lists implement the stack of frames of the
    specification: a directive succeeds on the lists exactly when the
    operation of the specification is defined on the frames they stand for,
    and the lists it leaves stand for the frames the operation returns. *)
Theorem apply_op_refines op cs :
  wf cs = true ->
  frames_of <$> outcome_value (apply_op op cs) = abs_apply op (frames_of cs).
Proof.
  intros Hwf. pose proof (wf_length _ Hwf) as Hlen.
  destruct op; [by simpl; rewrite frames_of_add_if|..];
    (stack_destruct cs Hlen; [done|]);
    rewrite apply_op_snoc, frames_of_snoc by done; simpl.
  - destruct (y && cond); by rewrite frames_of_snoc.
  - destruct y; by rewrite frames_of_snoc.
  - done.
Qed.

Lemma apply_op_refines_witness :
  frames_of <$> outcome_value (apply_op OpElse (CondStack [false] [true]))
  = Some [Frame true false].
Proof. by apply (apply_op_refines OpElse (CondStack [false] [true])). Defined.

End Refinement.

(** ** Whole files: nesting and balance *)

Section Nesting.

Lemma depth_snoc i a x : depth (CondStack (i ++ [x]) a) = S (depth (CondStack i a)).
Proof. unfold depth; simpl. rewrite length_app; simpl; lia. Qed.

Lemma stack_app_empty base : stack_app base empty_stack = base.
Proof. destruct base. unfold stack_app; simpl. by rewrite !app_nil_r. Qed.

Lemma stack_app_snoc base i a x y :
  stack_app base (CondStack (i ++ [x]) (a ++ [y]))
  = CondStack ((ifs base ++ i) ++ [x]) ((allow_else base ++ a) ++ [y]).
Proof. unfold stack_app; simpl. by rewrite !app_assoc. Qed.

Lemma stack_app_snoc_r base i a x y :
  CondStack ((ifs base ++ i) ++ [x]) ((allow_else base ++ a) ++ [y])
  = stack_app base (CondStack (i ++ [x]) (a ++ [y])).
Proof. by rewrite stack_app_snoc. Qed.

(** A directive that has a block of [ext] to act on, or opens one, leaves
    the entries below [ext] alone. *)
Lemma apply_op_frame op base ext :
  length (ifs ext) = length (allow_else ext) ->
  is_Some (nesting (depth ext) [op]) ->
  exists ext', apply_op op (stack_app base ext) = Done (stack_app base ext')
    /\ length (ifs ext') = length (allow_else ext')
    /\ nesting (depth ext) [op] = Some (depth ext').
Proof.
  intros Hlen Hn. destruct op; simpl.
  - unfold add_if.
    destruct (is_valid _);
      [exists (CondStack (ifs ext ++ [cond]) (allow_else ext ++ [negb cond]))
      |exists (CondStack (ifs ext ++ [false]) (allow_else ext ++ [false]))];
      unfold stack_app; simpl; rewrite !app_assoc, depth_snoc, !length_app;
      simpl; (split; [done|split; [lia|done]]).
  - stack_destruct ext Hlen; [by destruct Hn|].
    rewrite stack_app_snoc, do_elif_snoc, !stack_app_snoc_r.
    destruct (y && cond); eexists; (split; [done|]);
      rewrite !depth_snoc; simpl; rewrite !length_app; simpl; by split; [lia|].
  - stack_destruct ext Hlen; [by destruct Hn|].
    rewrite stack_app_snoc, do_else_snoc, !stack_app_snoc_r.
    destruct y; eexists; (split; [done|]);
      rewrite !depth_snoc; simpl; rewrite !length_app; simpl; by split; [lia|].
  - stack_destruct ext Hlen; [by destruct Hn|].
    rewrite stack_app_snoc, do_endif_snoc. exists (CondStack i a).
    by rewrite depth_snoc.
Qed.

Lemma nesting_cons n op ops :
  nesting n (op :: ops) = nesting n [op] ≫= fun m => nesting m ops.
Proof. destruct op, n; done. Qed.

Lemma run_ops_frame ops : forall base ext m,
  length (ifs ext) = length (allow_else ext) ->
  nesting (depth ext) ops = Some m ->
  exists ext', run_ops ops (stack_app base ext) = Done (stack_app base ext')
    /\ length (ifs ext') = length (allow_else ext') /\ depth ext' = m.
Proof.
  induction ops as [|op ops IH]; intros base ext m Hlen Hn.
  - simpl in *. exists ext. by injection Hn.
  - rewrite nesting_cons in Hn.
    destruct (nesting (depth ext) [op]) as [k|] eqn:Hk; [|done].
    destruct (apply_op_frame op base ext Hlen) as (ext1 & E1 & Hl1 & Hd1).
    { by rewrite Hk. }
    simpl in Hn. rewrite Hk in Hd1. injection Hd1 as ->.
    destruct (IH base ext1 m Hl1 Hn) as (ext' & E & ? & ?).
    exists ext'. simpl. by rewrite E1.
Qed.

(** C18.  A well-nested run of directives (every [#else], [#elif] and
    [#endif] inside a block the run itself opened, every block closed)
    raises no exception and leaves the stack exactly as it found it,
    whatever the conditions evaluate to. *)
Theorem balanced_restores ops cs :
  nesting 0 ops = Some 0 -> run_ops ops cs = Done cs.
Proof.
  intros Hn.
  destruct (run_ops_frame ops cs empty_stack 0) as (ext' & E & Hl & Hd);
    [done..|].
  rewrite stack_app_empty in E. rewrite E. f_equal.
  destruct ext' as [[|? ?] [|? ?]]; try done. apply stack_app_empty.
Qed.

Lemma balanced_restores_witness :
  run_ops [OpIf false; OpIf true; OpElse; OpEndif; OpElif true; OpEndif]
    (CondStack [true] [false]) = Done (CondStack [true] [false]).
Proof. by apply balanced_restores. Defined.

(** A directive that succeeds has a block to act on, or opens one. *)
Lemma apply_op_nesting op cs cs' :
  wf cs = true -> apply_op op cs = Done cs' ->
  nesting (depth cs) [op] = Some (depth cs').
Proof.
  intros Hwf. destruct op; simpl.
  - intros [= <-]. unfold add_if. by destruct (is_valid cs); rewrite depth_snoc.
  - stack_destruct cs (wf_length _ Hwf); [done|]. rewrite do_elif_snoc.
    intros [= <-]. by destruct (y && cond); rewrite !depth_snoc.
  - stack_destruct cs (wf_length _ Hwf); [done|]. rewrite do_else_snoc.
    intros [= <-]. by destruct y; rewrite !depth_snoc.
  - stack_destruct cs (wf_length _ Hwf); [done|]. rewrite do_endif_snoc.
    intros [= <-]. by rewrite depth_snoc.
Qed.

(** A run that succeeds from the empty stack is one whose directives nest:
    the exceptions of the stack are exactly the unmatched directives. *)
Lemma run_ops_nesting ops cs cs' :
  wf cs = true -> run_ops ops cs = Done cs' ->
  nesting (depth cs) ops = Some (depth cs').
Proof.
  revert cs. induction ops as [|op ops IH]; intros cs Hwf.
  - simpl. by intros [= <-].
  - cbn [run_ops]. destruct (apply_op op cs) as [cs1| |] eqn:E; cbn [obind];
      [|done..].
    intros Hrun. rewrite nesting_cons, (apply_op_nesting _ _ _ Hwf E). simpl.
    apply IH; [|done]. by eapply apply_op_wf.
Qed.

End Nesting.

(** The equations of the operations on a stack with a top entry, for
    [autorewrite with cpp] in the files that use the stack. *)
#[export] Hint Rewrite is_valid_snoc do_endif_snoc take_branch_snoc
  else_allowed_snoc do_else_snoc do_elif_snoc : cpp.
