(* ===== verification/CondRef.v ===== *)
(** * Conditionals against the C preprocessor

    A reference model of conditional compilation as the C preprocessor
    defines it: a frame per open block that remembers whether the context
    of the block is active, whether one of its branches has been taken, and
    whether the branch being read is active.  [#else] and [#elif] end the
    branch being read.

    The lists [ifs] and [allow_else] of [process_file] (src/c-preprocess.py,
    lines 46-58 and 89-133) are compared with it.  They agree on every run
    of directives in which each [#else] and [#elif] is met while the branch
    being read is inactive; an [#else] or [#elif] met in an active branch
    leaves [ifs[-1]] true, where the reference ends the branch. *)

From Stdlib Require Import List Bool Arith Lia.
From stdpp Require Import base tactics option list.
From S2P Require Import Prelude CondStack.

#[local] Open Scope list_scope.
#[local] Open Scope outcome_scope.

(** ** The reference *)

(** An open block: the activation of its context, whether a branch of it
    has been taken, and the activation of the branch being read. *)
Record rframe : Type := RFrame {
  r_parent : bool;
  r_taken : bool;
  r_active : bool;
}.

(** The open blocks, the innermost first. *)
Definition ref_active (st : list rframe) : bool :=
  match st with [] => true | f :: _ => r_active f end.

Definition ref_apply (op : cond_op) (st : list rframe)
  : option (list rframe) :=
  match op, st with
  | OpIf c, _ =>
      let p := ref_active st in Some (RFrame p c (p && c) :: st)
  | OpElif c, f :: st' =>
      Some (RFrame (r_parent f) (r_taken f || c)
              (r_parent f && negb (r_taken f) && c) :: st')
  | OpElse, f :: st' =>
      Some (RFrame (r_parent f) true (r_parent f && negb (r_taken f)) :: st')
  | OpEndif, _ :: st' => Some st'
  | _, [] => None
  end.

Fixpoint ref_run (ops : list cond_op) (st : list rframe)
  : option (list rframe) :=
  match ops with
  | [] => Some st
  | op :: ops' => ref_apply op st ≫= ref_run ops'
  end.

(** ** The comparison *)

(** The entries of [ifs] and [allow_else] that stand for a block of the
    reference: [ifs] holds the activation of the branch, [allow_else]
    whether a later branch may still be taken. *)
Definition abs_frame (r : rframe) : frame :=
  Frame (r_active r) (r_parent r && negb (r_taken r)).

(** The lists [cs] stand for the blocks [st]. *)
Definition stands_for (cs : cond_stack) (st : list rframe) : Prop :=
  length (ifs cs) = length (allow_else cs) /\ frames_of cs = abs_frame <$> st.

(** The directive [op] does not end an active branch: it is no [#else] or
    [#elif] met while the branch being read is active. *)
Definition safe (op : cond_op) (st : list rframe) : bool :=
  match op with
  | OpElse | OpElif _ => negb (ref_active st)
  | _ => true
  end.

(** Every directive of the run is safe where it is met. *)
Fixpoint safe_run (ops : list cond_op) (st : list rframe) : bool :=
  match ops with
  | [] => true
  | op :: ops' =>
      safe op st &&
      match ref_apply op st with
      | Some st' => safe_run ops' st'
      | None => true
      end
  end.

(** ** Lemmas *)

Section Reference.
Implicit Types (cs : cond_stack) (st : list rframe) (op : cond_op).

Lemma stands_for_empty : stands_for empty_stack [].
Proof. done. Qed.

Lemma stands_for_nil cs : stands_for cs [] -> cs = empty_stack.
Proof.
  intros [Hlen Hf]. stack_destruct cs Hlen; [done|].
  by rewrite frames_of_snoc in Hf.
Qed.

Lemma stands_for_cons i a x y r st :
  length i = length a ->
  stands_for (CondStack (i ++ [x]) (a ++ [y])) (r :: st) <->
  x = r_active r /\ y = r_parent r && negb (r_taken r)
  /\ stands_for (CondStack i a) st.
Proof.
  intros Hlen. unfold stands_for. rewrite frames_of_snoc, fmap_cons by done.
  cbn [ifs allow_else]. rewrite !length_app. unfold abs_frame at 1. split.
  - intros [_ [= -> -> ?]]. done.
  - intros (-> & -> & _ & ->). split; [simpl; lia|done].
Qed.

Lemma stands_for_active cs st :
  stands_for cs st -> is_valid cs = ref_active st.
Proof.
  intros [Hlen Hf]. rewrite <- isActive_frames_of, Hf by done.
  by destruct st.
Qed.

Lemma stands_for_length cs st : stands_for cs st -> depth cs = length st.
Proof.
  intros [Hlen Hf]. apply (f_equal length) in Hf.
  rewrite length_fmap in Hf. rewrite <- Hf. unfold frames_of, depth.
  rewrite length_rev, length_zip_with. lia.
Qed.

(** A stack that stands for blocks is the empty stack for no block, and
    has a top entry for the innermost block. *)
Lemma stands_for_cases cs st :
  stands_for cs st ->
  (cs = empty_stack /\ st = []) \/
  exists i a r st', cs = CondStack (i ++ [r_active r])
                           (a ++ [r_parent r && negb (r_taken r)])
                    /\ st = r :: st' /\ length i = length a
                    /\ stands_for (CondStack i a) st'.
Proof.
  intros H. pose proof H as [Hlen Hf]. stack_destruct cs Hlen.
  - left. by destruct st.
  - right. destruct st as [|r st'].
    { by rewrite frames_of_snoc in Hf. }
    apply stands_for_cons in H as (-> & -> & H); [|done].
    by exists i, a, r, st'.
Qed.

(** One safe directive: the lists fail where the reference is undefined,
    and otherwise stand for the blocks the reference gives. *)
Lemma apply_op_reference op cs st :
  stands_for cs st -> safe op st = true ->
  match apply_op op cs, ref_apply op st with
  | Done cs', Some st' => stands_for cs' st'
  | Raise _, None => True
  | _, _ => False
  end.
Proof.
  intros H Hs.
  destruct (stands_for_cases _ _ H) as [[-> ->]|(i & a & r & st' & -> & -> & Hl & H')].
  { by destruct op. }
  rewrite apply_op_snoc. destruct r as [p t act]. simpl in *.
  destruct op; simpl in *.
  - unfold add_if. rewrite is_valid_snoc.
    destruct act; simpl;
      (apply stands_for_cons; [rewrite !length_app; simpl; lia|]); done.
  - apply negb_true_iff in Hs as ->.
    destruct p, t, cond; simpl; by apply stands_for_cons.
  - apply negb_true_iff in Hs as ->.
    destruct p, t; simpl; by apply stands_for_cons.
  - done.
Qed.

End Reference.

(** ** Theorems *)

Section Theorems.
Implicit Types (cs : cond_stack) (st : list rframe) (op : cond_op).

(** C13.  On a run of directives in which no [#else] and no [#elif] is met
    in an active branch, the lists of the program behave as the blocks of
    the C preprocessor: the run fails on the lists exactly when it is not
    well nested, and after it [is_valid] is the activation of the
    reference. *)
Theorem run_ops_reference ops : forall cs st,
  stands_for cs st -> safe_run ops st = true ->
  match run_ops ops cs, ref_run ops st with
  | Done cs', Some st' => stands_for cs' st' /\ is_valid cs' = ref_active st'
  | Raise _, None => True
  | _, _ => False
  end.
Proof.
  induction ops as [|op ops IH]; intros cs st H Hs; simpl in *.
  - split; [done|]. by apply stands_for_active.
  - apply andb_prop in Hs as [Hop Hs].
    pose proof (apply_op_reference op cs st H Hop) as Hstep.
    destruct (apply_op op cs) as [cs1|e|], (ref_apply op st) as [st1|];
      simpl; try done.
    by apply IH.
Qed.

(** C14.  An [#else] met in an active branch separates the program from
    the C preprocessor: the reference ends the branch, the program keeps
    [ifs[-1]] true and goes on writing lines. *)
Theorem else_in_active_branch cs st :
  stands_for cs st -> wf cs = true -> 0 < depth cs -> is_valid cs = true ->
  exists cs' st',
    apply_op OpElse cs = Done cs' /\ ref_apply OpElse st = Some st'
    /\ is_valid cs' = true /\ ref_active st' = false.
Proof.
  intros H Hwf Hd Hv.
  destruct (stands_for_cases _ _ H) as [[-> ->]|(i & a & r & st' & -> & -> & Hl & H')].
  { by apply Nat.lt_irrefl in Hd. }
  rewrite is_valid_snoc in Hv. apply wf_snoc in Hwf as (_ & Hne & _).
  rewrite Hv in Hne. simpl in Hne. apply negb_true_iff in Hne.
  rewrite apply_op_snoc, Hne. simpl. eexists _, _. split_and!; try done.
  by rewrite is_valid_snoc.
Qed.

End Theorems.

Section Witnesses.

Lemma run_ops_reference_witness :
  match run_ops [OpIf false; OpElif false; OpElse; OpEndif] empty_stack,
        ref_run [OpIf false; OpElif false; OpElse; OpEndif] [] with
  | Done cs', Some st' => stands_for cs' st' /\ is_valid cs' = ref_active st'
  | Raise _, None => True
  | _, _ => False
  end.
Proof. by apply run_ops_reference. Defined.

Lemma else_in_active_branch_witness :
  exists cs' st',
    apply_op OpElse (CondStack [true] [false]) = Done cs'
    /\ ref_apply OpElse [RFrame true true true] = Some st'
    /\ is_valid cs' = true /\ ref_active st' = false.
Proof.
  apply else_in_active_branch; [by split|done|unfold depth; simpl; lia|done].
Defined.

End Witnesses.
