(* ===== verification/Symtab.v ===== *)
(** * The symbol table

    [defines] of [process_file] (src/c-preprocess.py, line 43) is a Python
    dict from symbol names to their value, [None] for a symbol defined
    without one.  It is modelled as a [gmap]; the three operations the
    program performs on it are the membership test of lines 102 and 121,
    the assignment of line 166 and the [del] of line 173. *)

From Stdlib Require Import Ascii List.
From stdpp Require Import base tactics option list strings gmap.
From S2P Require Import Prelude.

(** The table: a name is bound to [Some v], to [None] (defined, no value),
    or absent. *)
Abbreviation symtab := (gmap text (option text)).

(** [var in defines]. *)
Definition defined (k : text) (d : symtab) : bool :=
  bool_decide (is_Some (d !! k)).

(** [defines[k] = v]. *)
Definition define (k : text) (v : option text) (d : symtab) : symtab :=
  <[k := v]> d.

(** [del defines[var]]: a [KeyError] when [var] is not in the table. *)
Definition undef (k : text) (d : symtab) : outcome symtab :=
  match d !! k with
  | Some _ => Done (delete k d)
  | None => Raise (KeyError k)
  end.

(** [dict(pairs)]: the table built from a list of bindings, the last
    binding of a name winning. *)
Definition symtab_of_list (l : list (text * option text)) : symtab :=
  foldl (fun d kv => define kv.1 kv.2 d) ∅ l.

Section Symtab.
Implicit Types (k : text) (v : option text) (d : symtab).

Lemma defined_true k d : defined k d = true <-> is_Some (d !! k).
Proof. unfold defined. apply bool_decide_eq_true. Qed.

Lemma defined_false k d : defined k d = false <-> d !! k = None.
Proof.
  unfold defined. rewrite bool_decide_eq_false.
  by rewrite eq_None_not_Some.
Qed.

Lemma defined_empty k : defined k ∅ = false.
Proof. by apply defined_false. Qed.

Lemma defined_define k k' v d :
  defined k (define k' v d) = bool_decide (k' = k) || defined k d.
Proof.
  unfold defined, define. destruct (decide (k' = k)) as [->|Hk].
  - rewrite lookup_insert_eq, (bool_decide_eq_true_2 (k = k)) by done.
    by apply bool_decide_eq_true.
  - by rewrite lookup_insert_ne, (bool_decide_eq_false_2 (k' = k)).
Qed.

Lemma defined_define_eq k v d : defined k (define k v d) = true.
Proof. rewrite defined_define. by rewrite bool_decide_eq_true_2. Qed.

Lemma undef_Done k d d' :
  undef k d = Done d' <-> defined k d = true /\ d' = delete k d.
Proof.
  unfold undef. rewrite defined_true.
  destruct (d !! k) eqn:E; split.
  - intros [= <-]. eauto.
  - by intros [_ ->].
  - done.
  - by intros [[? ?] _].
Qed.

Lemma undef_Raise k d e :
  undef k d = Raise e <-> defined k d = false /\ e = KeyError k.
Proof.
  unfold undef. rewrite defined_false.
  destruct (d !! k) eqn:E; split; try done.
  - by intros [? _].
  - by intros [= <-].
  - by intros [_ ->].
Qed.

Lemma undef_not_Timeout k d : undef k d <> Timeout.
Proof. unfold undef. by destruct (d !! k). Qed.

Lemma defined_delete k k' d :
  defined k (delete k' d) = negb (bool_decide (k' = k)) && defined k d.
Proof.
  unfold defined. destruct (decide (k' = k)) as [->|Hk].
  - rewrite lookup_delete_eq, (bool_decide_eq_true_2 (k = k)) by done.
    apply bool_decide_eq_false. by intros [? ?].
  - by rewrite lookup_delete_ne, (bool_decide_eq_false_2 (k' = k)).
Qed.

(** C34.  [#undef] of a symbol that is not defined raises [KeyError]; of a
    defined symbol it removes the symbol and nothing else. *)
Theorem undef_spec k d :
  match undef k d with
  | Done d' => defined k d = true /\ defined k d' = false /\
               forall k', k' <> k -> d' !! k' = d !! k'
  | Raise e => defined k d = false /\ e = KeyError k
  | Timeout => False
  end.
Proof.
  destruct (undef k d) as [d'|e|] eqn:E.
  - apply undef_Done in E as [Hd ->]. split_and!; [done|..].
    + rewrite defined_delete. by rewrite bool_decide_eq_true_2.
    + intros k' Hk. by rewrite lookup_delete_ne.
  - by apply undef_Raise in E.
  - by apply undef_not_Timeout in E.
Qed.

(** A definition followed by its removal restores the table of a symbol
    that was not defined before. *)
Lemma undef_define k v d :
  defined k d = false -> undef k (define k v d) = Done d.
Proof.
  intros Hd%defined_false. unfold undef, define.
  rewrite lookup_insert_eq. f_equal. rewrite delete_insert_eq.
  by apply delete_id.
Qed.

(** A later definition of the same symbol replaces the earlier one. *)
Lemma define_define k v v' d : define k v' (define k v d) = define k v' d.
Proof. apply insert_insert_eq. Qed.

End Symtab.
