(* ===== verification/Emitter.v ===== *)
(** * The line-remapping emitter

    [process_file] collects its output in the list [res] and remembers in
    [last_iline] the index of the last source line it wrote
    (src/c-preprocess.py, lines 68-78).  [emit] writes a source line,
    preceded by a line marker when the line does not follow the last one
    written; the handler of [#include] splices the text of an included file
    and a marker behind it (lines 153-156).  Line indices are those of
    [enumerate]: the first line of a file has index 0. *)

From Stdlib Require Import Ascii String List Bool Arith Lia.
From stdpp Require Import base tactics option list strings.
From S2P Require Import Prelude Chars.

#[local] Open Scope list_scope.

(** ** State and operations *)

(** [line_str(iline, fp)]: a comment with the path of the file and a
    [#line] directive, each on a line of its own. *)
Definition line_str (iline : nat) (fp : text) : text :=
  txt "//" ++ fp ++ [nl] ++ txt "#line " ++ str_of_nat iline ++ [nl].

Arguments line_str : simpl never.

(** [res] and [last_iline]. *)
Record emitter : Type := Emitter {
  res : list text;
  last_iline : nat;
}.

(** The state on entry to a file: [res = []], [last_iline = 0]. *)
Definition emitter_init : emitter := Emitter [] 0.

(** Whether [emit] at line [iline] writes a marker:
    [iline != last_iline + 1]. *)
Definition needs_marker (iline : nat) (e : emitter) : bool :=
  negb (iline =? last_iline e + 1).

(** [emit(s)] at line [iline] of the file [fp], followed by
    [set_iline()]. *)
Definition emit (fp : text) (iline : nat) (s : text) (e : emitter) : emitter :=
  let r := if needs_marker iline e
           then res e ++ [line_str iline fp] else res e in
  Emitter (r ++ [s]) iline.

(** The splice of the text [sub_src] of a file included at line [iline]:
    nothing for a text that is empty or white space, otherwise the text, a
    marker for the line of the [#include], and [set_iline()]. *)
Definition splice (fp : text) (iline : nat) (sub_src : text) (e : emitter)
  : emitter :=
  if has_content sub_src
  then Emitter (res e ++ [sub_src; line_str iline fp]) iline
  else e.

(** [''.join(res)]. *)
Definition output (e : emitter) : text := concat (res e).

(** Consecutive lines [iline], [iline + 1], ... written one after the
    other. *)
Fixpoint emit_all (fp : text) (iline : nat) (ls : list text) (e : emitter)
  : emitter :=
  match ls with
  | [] => e
  | l :: ls' => emit_all fp (S iline) ls' (emit fp iline l e)
  end.

(** ** Lemmas *)

Section Emitter.
Implicit Types (e : emitter) (fp s : text) (iline : nat).

Lemma needs_marker_false iline e :
  needs_marker iline e = false <-> iline = S (last_iline e).
Proof.
  unfold needs_marker. rewrite negb_false_iff, Nat.eqb_eq. lia.
Qed.

Lemma last_iline_emit fp iline s e : last_iline (emit fp iline s e) = iline.
Proof. done. Qed.

Lemma output_emit fp iline s e :
  output (emit fp iline s e)
  = output e ++ (if needs_marker iline e then line_str iline fp else []) ++ s.
Proof.
  unfold output, emit; cbn [res]. destruct (needs_marker iline e);
    by rewrite !concat_snoc, <- ?app_assoc.
Qed.

Lemma output_splice fp iline sub e :
  output (splice fp iline sub e)
  = output e ++ (if has_content sub then sub ++ line_str iline fp else []).
Proof.
  unfold output, splice. destruct (has_content sub); cbn [res].
  - change [sub; line_str iline fp] with ([sub] ++ [line_str iline fp]).
    by rewrite app_assoc, !concat_snoc, <- app_assoc.
  - by rewrite app_nil_r.
Qed.

Lemma last_iline_splice fp iline sub e :
  last_iline (splice fp iline sub e)
  = if has_content sub then iline else last_iline e.
Proof. unfold splice. by destruct (has_content sub). Qed.

Lemma output_init : output emitter_init = [].
Proof. done. Qed.

(** The line that follows the last line written gets no marker. *)
Lemma emit_consecutive fp s e :
  output (emit fp (S (last_iline e)) s e) = output e ++ s.
Proof.
  rewrite output_emit.
  by rewrite (proj2 (needs_marker_false _ _)).
Qed.

(** Any other line gets one. *)
Lemma emit_gap fp iline s e :
  iline <> S (last_iline e) ->
  output (emit fp iline s e) = output e ++ line_str iline fp ++ s.
Proof.
  intros Hne. rewrite output_emit.
  destruct (needs_marker iline e) eqn:E; [done|].
  by apply needs_marker_false in E.
Qed.

Lemma emit_all_consecutive fp ls : forall iline e,
  iline = S (last_iline e) ->
  output (emit_all fp iline ls e) = output e ++ concat ls.
Proof.
  induction ls as [|l ls IH]; intros iline e ->; simpl.
  - by rewrite app_nil_r.
  - rewrite IH by done. by rewrite emit_consecutive, <- app_assoc.
Qed.

Lemma last_iline_emit_all fp ls : forall iline e,
  last_iline (emit_all fp iline ls e)
  = match ls with [] => last_iline e | _ => iline + length ls - 1 end.
Proof.
  induction ls as [|l ls IH]; intros iline e; simpl; [done|].
  rewrite IH. destruct ls; simpl; lia.
Qed.

(** A run of consecutive source lines written into a fresh emitter,
    from line 0 on: the output is one marker that names line 0, then the
    lines unchanged; the first line always counts as a gap because
    [last_iline] starts at 0, not before the first index. *)
Theorem emit_all_fresh fp l ls :
  output (emit_all fp 0 (l :: ls) emitter_init)
  = line_str 0 fp ++ concat (l :: ls).
Proof.
  cbn [emit_all concat]. rewrite emit_all_consecutive by done.
  rewrite output_emit, output_init.
  change (needs_marker 0 emitter_init) with true.
  by rewrite app_nil_l, <- app_assoc.
Qed.

(** C15.  [emit] writes exactly one marker when the line does not follow
    the last line written and none when it does, and in both cases the
    line itself, last; the marker carries the index of the line as
    [enumerate] counts it, from 0. *)
Theorem emit_spec fp iline s e :
  output (emit fp iline s e)
  = output e
    ++ (if decide (iline = S (last_iline e)) then [] else line_str iline fp)
    ++ s
  /\ last_iline (emit fp iline s e) = iline.
Proof.
  split; [|done]. rewrite output_emit. case_decide as H.
  - by rewrite (proj2 (needs_marker_false _ _)).
  - destruct (needs_marker iline e) eqn:E; [done|].
    by apply needs_marker_false in E.
Qed.

(** C40.  The marker behind an included file carries the index of the
    [#include] line itself, so the line after the include, which gets no
    marker of its own, is numbered one less than [emit] would number it. *)
Theorem splice_then_emit fp iline sub s e :
  has_content sub = true ->
  output (emit fp (S iline) s (splice fp iline sub e))
  = output e ++ sub ++ line_str iline fp ++ s
  /\ output (emit fp (S iline) s (emit fp iline sub e))
     = output (emit fp iline sub e) ++ s.
Proof.
  intros Hc. split.
  - pose proof (last_iline_splice fp iline sub e) as Hl. rewrite Hc in Hl.
    rewrite <- Hl at 1. rewrite emit_consecutive, output_splice, Hc.
    by rewrite <- !app_assoc.
  - by rewrite <- (last_iline_emit fp iline sub e) at 1;
      rewrite emit_consecutive.
Qed.

Lemma splice_then_emit_witness :
  output (emit (txt "a.c") 4 (txt "x") (splice (txt "a.c") 3 (txt "y") emitter_init))
  = output emitter_init ++ txt "y" ++ line_str 3 (txt "a.c") ++ txt "x"
  /\ output (emit (txt "a.c") 4 (txt "x") (emit (txt "a.c") 3 (txt "y") emitter_init))
     = output (emit (txt "a.c") 3 (txt "y") emitter_init) ++ txt "x".
Proof. by apply splice_then_emit. Defined.

(** An included file with no content leaves the emitter as it was. *)
Lemma splice_blank fp iline sub e :
  has_content sub = false -> splice fp iline sub e = e.
Proof. unfold splice. by intros ->. Qed.

End Emitter.
