(* ===== verification/FileSystem.v ===== *)
(** * The file system interface

    [process_file] reaches the outside world through [pathlib]: it reads a
    file ([fp.open] and [readlines], src/c-preprocess.py, lines 38-39),
    takes the directory of a file ([fp.parent], line 144), joins a
    directory and a relative path ([include_dir / path], line 147), tests
    whether a file exists ([sub_fp.exists()], line 148), compares paths
    ([fp in included_filepaths], line 178) and prints one (line 66);
    [main] builds paths from text ([Path(p)], lines 224 and 262) and makes
    them absolute (line 224).  The class [FileSystem] is that interface;
    [process_file] is modelled over any instance of it.  [mem_fs] is an
    instance over a list of files held in memory, with which the model
    runs on concrete inputs. *)

From Stdlib Require Import Ascii String List Bool.
From stdpp Require Import base tactics option list strings countable.
From S2P Require Import Prelude.

#[local] Open Scope list_scope.

(** ** The interface *)

Class FileSystem : Type := {
  (** [pathlib.Path]: paths are compared with [==] and hashed. *)
  path : Type;
  #[global] path_eq_dec :: EqDecision path;
  #[global] path_countable :: Countable path;
  (** [Path(p)]. *)
  mkpath : text -> path;
  (** [fp.absolute()]. *)
  absolute : path -> path;
  (** [str(fp)]. *)
  path_str : path -> text;
  (** [fp.parent]. *)
  parent : path -> path;
  (** [include_dir / path]. *)
  joinpath : path -> text -> path;
  (** [sub_fp.exists()]. *)
  path_exists : path -> bool;
  (** [fp.open('r')] and [f.readlines()]: the lines of the file, each with
      its line feed; [None] when the file cannot be opened. *)
  readlines : path -> option (list text);
}.

(** ** Files held in memory *)

(** The path up to its last [/], without it: the directory of a file. *)
Definition dirname (p : text) : text :=
  rev (tail (drop_while (fun c => negb (Ascii.eqb c "/")) (rev p))).

(** A relative path behind a directory; an absolute path stays as it is. *)
Definition join_text (d p : text) : text :=
  match p with
  | "/"%char :: _ => p
  | _ => d ++ "/"%char :: p
  end.

(** The lines of the first file of that name. *)
Fixpoint lookup_file (files : list (text * list text)) (p : text)
  : option (list text) :=
  match files with
  | [] => None
  | (q, ls) :: files' => if decide (q = p) then Some ls else lookup_file files' p
  end.

(** The file system that holds exactly [files], each under its absolute
    path: a path is its text, and [absolute] has nothing to add. *)
Definition mem_fs (files : list (text * list text)) : FileSystem := {|
  path := text;
  mkpath p := p;
  absolute p := p;
  path_str p := p;
  parent := dirname;
  joinpath := join_text;
  path_exists p := bool_decide (is_Some (lookup_file files p));
  readlines := lookup_file files;
|}.

(** ** Lemmas *)

Section MemFs.

Lemma dirname_join d f :
  Forall (fun c => c <> "/"%char) f -> dirname (d ++ "/"%char :: f) = d.
Proof.
  intros Hf. unfold dirname.
  rewrite rev_app_distr. simpl. rewrite <- app_assoc.
  rewrite drop_while_app_stop; simpl.
  - by rewrite rev_involutive.
  - apply Forall_rev. eapply List.Forall_impl; [|exact Hf].
    intros c Hc. simpl. apply negb_true_iff. by apply Ascii.eqb_neq.
  - done.
Qed.

Lemma lookup_file_cons p ls files : lookup_file ((p, ls) :: files) p = Some ls.
Proof. simpl. by case_decide. Qed.

Lemma mem_fs_exists files p :
  @path_exists (mem_fs files) p = true <-> is_Some (@readlines (mem_fs files) p).
Proof. simpl. apply bool_decide_eq_true. Qed.

End MemFs.
