(* ===== verification/FileProc.v ===== *)
(** * The file processor

    [process_file] (src/c-preprocess.py, lines 35-187): the scan of one
    file.  [process_line] is one iteration of the loop of line 79, with the
    whole dispatch of lines 81-185; [process_lines] is the loop and the
    [join] of line 187; [process_file] reads the file, sets up the state of
    lines 43-47 and 68-70 and runs the loop.  The recursive call of line
    150 is bounded by fuel: [process_file 0] is [Timeout], and
    [process_file (S n)] hands [process_file n] to the loop as the
    function that processes an included file.

    The theorems are grouped by what they are about: the fuel, the
    registry of [#pragma once], termination on include graphs without
    cycles and on cycles guarded by [#pragma once], files of plain text,
    the silence of inactive lines, the include
    search, the conditions of [#if], whole files with conditionals, the
    lines a file keeps, and symbols and includes with their errors.  The
    last section applies the theorems to the files of [demo_files] and
    [symbol_files]. *)

From Stdlib Require Import Ascii String List Bool Arith Lia.
From stdpp Require Import base tactics option list strings gmap.
From S2P Require Import Prelude Chars Classifier CondStack.
From S2P Require Import Symtab Emitter FileSystem.

#[local] Open Scope list_scope.
#[local] Open Scope outcome_scope.

(** ** Options *)

(** The class [Options] of lines 28-32. *)
Record options : Type := Options {
  passthrough_defines : bool;
  verbose : bool;
  quiet : bool;
}.

(** [Options()]: every option off. *)
Definition default_options : options := Options false false false.

Section FileProc.
Context `{FS : FileSystem}.

(** ** State *)

(** The variables of one call that the loop changes: [defines], the lists
    [ifs] and [allow_else], and [res] with [last_iline]. *)
Record pstate : Type := PState {
  defines : symtab;
  stack : cond_stack;
  out : emitter;
}.

(** The state before the first line: the table of the caller, no open
    block, nothing written. *)
Definition pstate_init (parent_defines : symtab) : pstate :=
  PState parent_defines empty_stack emitter_init.

Definition with_defines (d : symtab) (st : pstate) : pstate :=
  PState d (stack st) (out st).
Definition with_stack (cs : cond_stack) (st : pstate) : pstate :=
  PState (defines st) cs (out st).
Definition with_out (e : emitter) (st : pstate) : pstate :=
  PState (defines st) (stack st) e.

(** How an iteration ends: the loop goes on with a new state, or the
    function returns at once ([return ''] of line 180).  Both carry the
    set [included_filepaths], which every call of a run shares. *)
Inductive flow : Type :=
  | Next (st : pstate) (inc : gset path)
  | Return (s : text) (inc : gset path).

(** The type of the recursive call: the file, the table it starts from
    and the shared set; it returns the text and the set. *)
Definition rec_call : Type :=
  path -> symtab -> gset path -> outcome (text * gset path).

(** ** Include search *)

(** [these_includes]: the directory of the including file first for a
    quoted include, the include directories alone for a system include. *)
Definition these_includes (fp : path) (includes : list path)
    (is_system : bool) : list path :=
  if is_system then includes else parent fp :: includes.

(** The loop of lines 146-149: the first directory under which the path
    exists. *)
Fixpoint find_include (dirs : list path) (p : text) : option path :=
  match dirs with
  | [] => None
  | d :: dirs' =>
      if path_exists (joinpath d p) then Some (joinpath d p)
      else find_include dirs' p
  end.

(** ** Conditions *)

(** The condition of [#if] and [#elif], lines 110-127: the argument must
    be a token that starts with [defined(NAME)]; anything else fails an
    assertion. *)
Definition eval_condition (rest : text) (d : symtab) : outcome bool :=
  let* cond_str := expect AssertionError (if_re_match rest) in
  match function_re_match cond_str with
  | Some (function, arg) =>
      if decide (function = txt "defined") then Done (defined arg d)
      else Raise AssertionError
  | None => Raise AssertionError
  end.

(** ** One line *)

(** The branch [elif is_valid():] of line 134: [k] runs in an active
    context, and nothing happens in an inactive one. *)
Definition when_valid (st : pstate) (inc : gset path) (k : outcome flow)
  : outcome flow :=
  if is_valid (stack st) then k else Done (Next st inc).

(** The body of the loop for the line [line] of index [iline]. *)
Definition process_line (rec : rec_call) (opts : options) (fp : path)
    (includes : list path) (iline : nat) (line : text) (st : pstate)
    (inc : gset path) : outcome flow :=
  match command_re_match line with
  | Some (Endif, _) =>
      let* cs := do_endif (stack st) in
      Done (Next (with_stack cs st) inc)
  | Some (Else, _) =>
      let* cs := do_else (stack st) in
      Done (Next (with_stack cs st) inc)
  | Some (Ifdef, rest) =>
      let* var := expect AttributeError (ifdef_re_match rest) in
      Done (Next (with_stack (add_if (defined var (defines st)) (stack st)) st) inc)
  | Some (Ifndef, rest) =>
      let* var := expect AttributeError (ifdef_re_match rest) in
      Done (Next (with_stack
                    (add_if (negb (defined var (defines st))) (stack st)) st) inc)
  | Some (Elif, rest) =>
      let* ae := else_allowed (stack st) in
      if negb ae then Done (Next st inc)
      else
        let* cond := eval_condition rest (defines st) in
        let* cs := (if cond then take_branch (stack st) else Done (stack st)) in
        Done (Next (with_stack cs st) inc)
  | Some (If, rest) =>
      let* cond := eval_condition rest (defines st) in
      Done (Next (with_stack (add_if cond (stack st)) st) inc)
  | Some (Include, rest) =>
      when_valid st inc (
        let* g := expect AttributeError (include_re_match rest) in
        let p := strip_delimiters g in
        match find_include
                (these_includes fp includes (is_system_include g)) p with
        | Some sub_fp =>
            let* r := rec sub_fp (defines st) inc in
            Done (Next (with_out (splice (path_str fp) iline r.1 (out st)) st)
                       r.2)
        | None => Raise (NotFound p)
        end)
  | Some (Define, rest) =>
      when_valid st inc (
        let* kv := expect AssertionError (define_re_match rest) in
        let st' := with_defines (define kv.1 kv.2 (defines st)) st in
        Done (Next (if passthrough_defines opts
                    then with_out (emit (path_str fp) iline line (out st')) st'
                    else st') inc))
  | Some (Undef, rest) =>
      when_valid st inc (
        let* var := expect AssertionError (undef_re_match rest) in
        let* d := undef var (defines st) in
        Done (Next (with_defines d st) inc))
  | Some (Pragma, rest) =>
      when_valid st inc (
        let* g := expect AssertionError (pragma_re_match rest) in
        if decide (g = txt "once") then
          if decide (fp ∈ inc) then Done (Return [] inc)
          else Done (Next st ({[fp]} ∪ inc))
        else Raise AssertionError)
  | None =>
      when_valid st inc (
        Done (Next (with_out (emit (path_str fp) iline line (out st)) st) inc))
  end.

(** ** The loop and the function *)

(** The loop over [enumerate(src)] from index [iline] on, and the
    [return ''.join(res)] behind it. *)
Fixpoint process_lines (rec : rec_call) (opts : options) (fp : path)
    (includes : list path) (iline : nat) (src : list text) (st : pstate)
    (inc : gset path) : outcome (text * gset path) :=
  match src with
  | [] => Done (output (out st), inc)
  | line :: src' =>
      let* f := process_line rec opts fp includes iline line st inc in
      match f with
      | Next st' inc' => process_lines rec opts fp includes (S iline) src' st' inc'
      | Return s inc' => Done (s, inc')
      end
  end.

(** [process_file(options, fp, includes, parent_defines,
    included_filepaths)] with at most [fuel] nested calls. *)
Fixpoint process_file (fuel : nat) (opts : options) (includes : list path)
    (fp : path) (parent_defines : symtab) (inc : gset path)
  : outcome (text * gset path) :=
  match fuel with
  | 0 => Timeout
  | S fuel' =>
      let* src := expect OSError (readlines fp) in
      process_lines (process_file fuel' opts includes) opts fp includes
        0 src (pstate_init parent_defines) inc
  end.

(** The call of [main]: [included_filepaths] is left to its default, a
    fresh empty set, and the text is the result. *)
Definition process (fuel : nat) (opts : options) (fp : path)
    (includes : list path) (defs : symtab) : outcome text :=
  let* r := process_file fuel opts includes fp defs ∅ in Done r.1.

(** ** Auxiliary notions of the theorems *)

(** [rec'] returns what [rec] returns wherever [rec] does not time out. *)
Definition rec_le (rec rec' : rec_call) : Prop :=
  forall q d inc, rec q d inc <> Timeout -> rec' q d inc = rec q d inc.

(** [rec] only adds to the shared set. *)
Definition rec_grows (rec : rec_call) : Prop :=
  forall q d inc r, rec q d inc = Done r -> inc ⊆ r.2.

(** The set an iteration leaves. *)
Definition flow_inc (f : flow) : gset path :=
  match f with Next _ inc | Return _ inc => inc end.

(** The directives that act on the conditional stack: they are handled
    whether the context is active or not (lines 89-133). *)
Definition is_conditional (c : command) : bool :=
  match c with
  | Endif | Else | Ifdef | Ifndef | Elif | If => true
  | _ => false
  end.

(** The file an [#include] line of [fp] resolves to, when the line is a
    well-formed include of a file that exists: the file [process_line]
    calls [rec] on if the line is reached in an active context. *)
Definition include_target (fp : path) (includes : list path) (line : text)
  : option path :=
  match command_re_match line with
  | Some (Include, rest) =>
      match include_re_match rest with
      | Some g =>
          find_include (these_includes fp includes (is_system_include g))
            (strip_delimiters g)
      | None => None
      end
  | _ => None
  end.

(** [ps] lists files so that every file includes only files that come
    later in the list: a topological order of an acyclic include graph. *)
Fixpoint include_closed (includes : list path) (ps : list path) : bool :=
  match ps with
  | [] => true
  | p :: ps' =>
      match readlines p with
      | Some src =>
          forallb (fun line =>
                     match include_target p includes line with
                     | Some q => bool_decide (q ∈ ps')
                     | None => true
                     end) src
      | None => true
      end && include_closed includes ps'
  end.

(** The file starts with a [#pragma once] line. *)
Definition starts_with_once (src : list text) : bool :=
  match src with
  | line :: _ =>
      match command_re_match line with
      | Some (Pragma, rest) => bool_decide (is_Some (pragma_re_match rest))
      | _ => false
      end
  | [] => false
  end.

(** Every file of [ps] that can be read starts with [#pragma once] and
    includes only files of [ps]; the files may include each other. *)
Definition once_closed (includes : list path) (ps : list path) : bool :=
  forallb (fun p =>
             match readlines p with
             | Some src =>
                 starts_with_once src &&
                 forallb (fun line =>
                            match include_target p includes line with
                            | Some q => bool_decide (q ∈ ps)
                            | None => true
                            end) src
             | None => true
             end) ps.

(** The files of [ps] that are not in the registry. *)
Definition unseen (ps : list path) (inc : gset path) : nat :=
  length (filter (fun p => p ∉ inc) ps).

(** What a conditional directive does to the lists [ifs] and
    [allow_else] (lines 89-133), with the table [d]; [None] for a line that
    is no conditional directive. *)
Definition cond_step (d : symtab) (line : text) (cs : cond_stack)
  : option (outcome cond_stack) :=
  match command_re_match line with
  | Some (Endif, _) => Some (do_endif cs)
  | Some (Else, _) => Some (do_else cs)
  | Some (Ifdef, rest) =>
      Some (let* var := expect AttributeError (ifdef_re_match rest) in
            Done (add_if (defined var d) cs))
  | Some (Ifndef, rest) =>
      Some (let* var := expect AttributeError (ifdef_re_match rest) in
            Done (add_if (negb (defined var d)) cs))
  | Some (Elif, rest) =>
      Some (let* ae := else_allowed cs in
            if negb ae then Done cs
            else let* cond := eval_condition rest d in
                 if cond then take_branch cs else Done cs)
  | Some (If, rest) =>
      Some (let* cond := eval_condition rest d in Done (add_if cond cs))
  | _ => None
  end.

(** The lines of [src], from index [iline] on, that are text and have
    every open block around them active, with their indices. *)
Fixpoint retained (d : symtab) (iline : nat) (src : list text)
    (cs : cond_stack) : outcome (list (nat * text)) :=
  match src with
  | [] => Done []
  | line :: src' =>
      match cond_step d line cs with
      | Some m => let* cs' := m in retained d (S iline) src' cs'
      | None =>
          let* ls := retained d (S iline) src' cs in
          Done (if forallb id (ifs cs) then (iline, line) :: ls else ls)
      end
  end.

(** Every line is text or a conditional directive. *)
Definition conditional_only (src : list text) : bool :=
  forallb (fun line =>
             match command_re_match line with
             | Some (c, _) => is_conditional c
             | None => true
             end) src.

(** The lines [ls] written one after the other. *)
Definition emit_lines (fp : text) (ls : list (nat * text)) (e : emitter)
  : emitter :=
  foldl (fun e x => emit fp x.1 x.2 e) e ls.

(** The file [#ifdef X], [a], [#else], [b], [#endif]. *)
Definition ifdef_else_file (c : command) (x a b : text) : list text :=
  [directive_line c x; a; bare_line Else; b; bare_line Endif].

End FileProc.

(** ** A tree of files to run the model on *)

(** [a.c] and [b.h] guard themselves with [#pragma once] and include each
    other; [plain.c] has no directive; [main.c] includes [plain.c] and
    tests a symbol. *)
Definition demo_files : list (text * list text) :=
  [ (txt "/p/a.c",
     [ln "#pragma once"; ln "int m;";
      directive_line Include (quoted (txt "b.h")); ln "after"]);
    (txt "/p/b.h",
     [ln "#pragma once"; ln "int b;";
      directive_line Include (quoted (txt "a.c"));
      ln "#define Y 1"; ln "#ifdef Y"; ln "yes"; ln "#endif"]);
    (txt "/p/plain.c", [ln "int a;"; ln "int b;"]);
    (txt "/p/main.c",
     [directive_line Include (quoted (txt "plain.c"));
      ln "#ifdef X"; ln "x is set"; ln "#else"; ln "x is not set";
      ln "#endif"]);
    (txt "/p/open.c", [ln "#ifdef X"; ln "never closed"]) ].

Definition demo_fs : FileSystem := mem_fs demo_files.

(** A file that defines a symbol and tests it, a file that removes a
    symbol it does not have, a file that includes a missing file, and a
    file that includes itself. *)
Definition symbol_files : list (text * list text) :=
  [ (txt "/s/def.c",
     [directive_line Define (txt "X"); directive_line Ifdef (txt "X");
      ln "a line"; bare_line Endif]);
    (txt "/s/undef.c", [directive_line Undef (txt "X"); ln "int u;"]);
    (txt "/s/missing.c",
     [directive_line Include (quoted (txt "nope.h")); ln "int m;"]);
    (txt "/s/loop.c",
     [directive_line Include (quoted (txt "loop.c")); ln "int l;"]) ].

Definition symbol_fs : FileSystem := mem_fs symbol_files.

(** ** The recursive call as a parameter *)

Section Rec.
Context `{FS : FileSystem}.
Implicit Types (rec : rec_call) (st : pstate) (inc : gset path).

Lemma rec_le_refl rec : rec_le rec rec.
Proof. by intros q d inc _. Qed.

Lemma when_valid_unfold st inc k :
  when_valid st inc k = if is_valid (stack st) then k else Done (Next st inc).
Proof. done. Qed.

Lemma process_line_rec_le rec rec' opts fp includes iline line st inc :
  rec_le rec rec' ->
  process_line rec opts fp includes iline line st inc <> Timeout ->
  process_line rec' opts fp includes iline line st inc
  = process_line rec opts fp includes iline line st inc.
Proof.
  intros Hle. unfold process_line.
  destruct (command_re_match line) as [[[] rest]|]; try done.
  unfold when_valid. destruct (is_valid (stack st)); [|done].
  destruct (include_re_match rest) as [g|]; simpl; [|done].
  destruct (find_include _ _) as [q|]; [|done].
  destruct (rec _ _ _) as [r|e|] eqn:E; simpl; [..|done];
    intros _; rewrite Hle, E; simpl; congruence.
Qed.

Lemma process_lines_rec_le rec rec' opts fp includes src :
  rec_le rec rec' -> forall iline st inc,
  process_lines rec opts fp includes iline src st inc <> Timeout ->
  process_lines rec' opts fp includes iline src st inc
  = process_lines rec opts fp includes iline src st inc.
Proof.
  intros Hle. induction src as [|line src IH]; intros iline st inc; [done|].
  simpl. intros Hnt.
  rewrite (process_line_rec_le rec rec') by (try done; by intros E; rewrite E in Hnt).
  destruct (process_line rec _ _ _ _ _ _ _) as [[st' inc'|s inc']| |];
    simpl in *; auto.
Qed.

End Rec.

(** ** Fuel *)

Section Fuel.
Context `{FS : FileSystem}.

Lemma process_file_S fuel opts includes :
  rec_le (process_file fuel opts includes) (process_file (S fuel) opts includes).
Proof.
  induction fuel as [|fuel IH]; intros fp d inc; [done|].
  intros Hnt. cbn [process_file] in *.
  destruct (readlines fp) as [src|]; simpl in *; [|done].
  by apply process_lines_rec_le.
Qed.

(** More fuel changes no result but [Timeout]: the fuel bounds the
    nesting of the calls and nothing else. *)
Lemma process_file_fuel_mono fuel k opts includes fp d inc :
  process_file fuel opts includes fp d inc <> Timeout ->
  process_file (fuel + k) opts includes fp d inc
  = process_file fuel opts includes fp d inc.
Proof.
  intros Hnt. induction k as [|k IH].
  - by rewrite Nat.add_0_r.
  - rewrite Nat.add_succ_r, process_file_S; [done|]. by rewrite IH.
Qed.

End Fuel.

(** ** The registry of [#pragma once] *)

Section Registry.
Context `{FS : FileSystem}.
Implicit Types (rec : rec_call) (st : pstate) (inc : gset path).

Lemma process_line_grows rec opts fp includes iline line st inc f :
  rec_grows rec ->
  process_line rec opts fp includes iline line st inc = Done f ->
  inc ⊆ flow_inc f.
Proof.
  intros Hrec H. unfold process_line, when_valid in H.
  inv_outcome; subst; simpl; try set_solver.
  by eapply Hrec.
Qed.

Lemma process_lines_grows rec opts fp includes src :
  rec_grows rec -> forall iline st inc r,
  process_lines rec opts fp includes iline src st inc = Done r ->
  inc ⊆ r.2.
Proof.
  intros Hrec. induction src as [|line src IH]; intros iline st inc r; simpl.
  - by intros [= <-].
  - intros (f & Hf & Hr)%obind_Done_inv.
    apply process_line_grows in Hf; [|done].
    destruct f as [st' inc'|s inc']; simpl in *.
    + apply IH in Hr. set_solver.
    + by simplify_eq/=.
Qed.

Lemma process_file_grows fuel opts includes :
  rec_grows (process_file fuel opts includes).
Proof.
  induction fuel as [|fuel IH]; intros fp d inc r; [done|].
  cbn [process_file]. intros (src & _ & Hr)%obind_Done_inv.
  by eapply process_lines_grows.
Qed.

(** The set of files seen by [#pragma once] only grows: a call that
    returns hands back a set that contains the set it was given, whatever
    it included on the way. *)
Theorem registry_grows fuel opts includes fp d inc s inc' :
  process_file fuel opts includes fp d inc = Done (s, inc') -> inc ⊆ inc'.
Proof. intros H. by apply process_file_grows in H. Qed.

End Registry.

(** ** Termination *)

Section Termination.
Context `{FS : FileSystem}.
Implicit Types (rec : rec_call) (st : pstate) (inc : gset path).

(** An iteration runs out of fuel only inside the recursive call for the
    file its [#include] resolves to. *)
Lemma process_line_Timeout rec opts fp includes iline line st inc :
  process_line rec opts fp includes iline line st inc = Timeout ->
  exists q, include_target fp includes line = Some q /\
            rec q (defines st) inc = Timeout.
Proof.
  unfold process_line, include_target, when_valid, eval_condition, do_endif,
    do_else, else_allowed, take_branch, undef.
  intros H. inv_timeout; simplify_eq/=; eauto.
  apply expect_Done in E. rewrite E. eauto.
Qed.

Lemma process_lines_Timeout rec opts fp includes src : forall iline st inc,
  process_lines rec opts fp includes iline src st inc = Timeout ->
  exists line q d inc', line ∈ src /\
    include_target fp includes line = Some q /\ rec q d inc' = Timeout.
Proof.
  induction src as [|line src IH]; intros iline st inc; simpl; [done|].
  intros [H|(f & Hf & H)]%obind_Timeout_inv.
  - apply process_line_Timeout in H as (q & ? & ?).
    exists line, q, (defines st), inc. split; [left|done].
  - destruct f as [st' inc'|s inc']; [|done].
    apply IH in H as (l & q & d & i & ? & ?). exists l, q, d, i.
    split; [by right|done].
Qed.

Lemma include_closed_no_timeout opts includes ps :
  include_closed includes ps = true ->
  forall fuel fp d inc, fp ∈ ps -> length ps < fuel ->
  process_file fuel opts includes fp d inc <> Timeout.
Proof.
  induction ps as [|p ps IH]; simpl; [by intros _ ? ? ? ? ?%elem_of_nil|].
  intros [Hp Hps]%andb_prop fuel fp d inc Hin Hfuel.
  destruct fuel as [|fuel]; [lia|]. apply elem_of_cons in Hin as [->|Hin].
  - cbn [process_file]. destruct (readlines p) as [src|]; simpl; [|done].
    intros (line & q & d' & inc' & Hl & Hq & Ht)%process_lines_Timeout.
    rewrite forallb_forall in Hp. apply list_elem_of_In in Hl.
    specialize (Hp line Hl). rewrite Hq in Hp.
    apply bool_decide_eq_true in Hp. revert Ht. apply IH; [done..|lia].
  - apply IH; [done..|lia].
Qed.

(** C6.  When the files reachable from [fp] can be listed so that each
    one only includes files later in the list (the include graph has no
    cycle), [process_file] returns or raises with a fuel of one more than
    the length of the list: it does not run out of fuel. *)
Theorem process_file_terminates opts includes ps fp d inc :
  include_closed includes ps = true -> fp ∈ ps ->
  is_timeout (process_file (S (length ps)) opts includes fp d inc) = false.
Proof.
  intros Hc Hin.
  pose proof (include_closed_no_timeout opts includes ps Hc
                (S (length ps)) fp d inc Hin (Nat.lt_succ_diag_r _)) as H.
  by destruct (process_file _ _ _ _ _ _).
Qed.

(** A file with no [#include] line needs a fuel of one. *)
Lemma process_file_no_include opts includes fp d inc src :
  readlines fp = Some src ->
  Forall (fun line => include_target fp includes line = None) src ->
  process_file 1 opts includes fp d inc <> Timeout.
Proof.
  intros Hsrc Hno. cbn [process_file]. rewrite Hsrc. simpl.
  intros (line & q & _ & _ & Hl & Hq & _)%process_lines_Timeout.
  rewrite Forall_forall in Hno. by rewrite (Hno line Hl) in Hq.
Qed.

End Termination.

(** ** Plain text *)

Section Plain.
Context `{FS : FileSystem}.
Implicit Types (rec : rec_call) (st : pstate) (inc : gset path).

Lemma process_line_plain rec opts fp includes iline line st inc :
  command_re_match line = None ->
  process_line rec opts fp includes iline line st inc
  = Done (Next (if is_valid (stack st)
                then with_out (emit (path_str fp) iline line (out st)) st
                else st) inc).
Proof.
  intros E. unfold process_line, when_valid. rewrite E.
  by destruct (is_valid (stack st)).
Qed.

(** Lines that are no directives, in an active context: they are written
    one after the other. *)
Lemma process_lines_plain rec opts fp includes src : forall iline st inc,
  Forall (fun l => command_re_match l = None) src ->
  is_valid (stack st) = true ->
  process_lines rec opts fp includes iline src st inc
  = Done (output (emit_all (path_str fp) iline src (out st)), inc).
Proof.
  induction src as [|l src IH]; intros iline st inc Hsrc Hv; [done|].
  inversion Hsrc as [|? ? Hl Hsrc']; subst.
  cbn [process_lines emit_all]. rewrite process_line_plain, Hv by done.
  simpl. by rewrite IH.
Qed.

(** C7.  A file without directives, in any state of the registry: the
    result is the file itself behind one marker for line 0, and the empty
    text for the empty file.  The marker is there although no line was
    left out. *)
Theorem process_file_plain fuel opts includes fp d inc src :
  readlines fp = Some src ->
  Forall (fun l => command_re_match l = None) src ->
  process_file (S fuel) opts includes fp d inc
  = Done (match src with
          | [] => []
          | _ => line_str 0 (path_str fp) ++ concat src
          end, inc).
Proof.
  intros Hsrc Hplain. cbn [process_file]. rewrite Hsrc. simpl.
  rewrite process_lines_plain by done. destruct src as [|l src]; [done|].
  by rewrite emit_all_fresh.
Qed.

End Plain.

(** ** [#pragma once] *)

Section PragmaOnce.
Context `{FS : FileSystem}.
Implicit Types (rec : rec_call) (st : pstate) (inc : gset path).

Lemma pragma_re_match_once rest g : pragma_re_match rest = Some g -> g = txt "once".
Proof.
  unfold pragma_re_match. destruct (spaces1 rest); [|done].
  destruct (strip_prefix _ _); [|done]. by intros [= <-].
Qed.

Lemma process_line_pragma rec opts fp includes iline line rest g st inc :
  command_re_match line = Some (Pragma, rest) ->
  pragma_re_match rest = Some g ->
  is_valid (stack st) = true ->
  process_line rec opts fp includes iline line st inc
  = Done (if decide (fp ∈ inc) then Return [] inc
          else Next st ({[fp]} ∪ inc)).
Proof.
  intros E Hg Hv. unfold process_line, when_valid. rewrite E, Hv, Hg. simpl.
  apply pragma_re_match_once in Hg as ->.
  rewrite decide_True by done. by case_decide.
Qed.

(** A file that starts with [#pragma once] and is in the registry
    already returns the empty text and leaves the registry alone. *)
Lemma process_file_seen fuel opts includes fp d inc line src rest g :
  readlines fp = Some (line :: src) ->
  command_re_match line = Some (Pragma, rest) ->
  pragma_re_match rest = Some g ->
  fp ∈ inc ->
  process_file (S fuel) opts includes fp d inc = Done ([], inc).
Proof.
  intros Hsrc E Hg Hin. cbn [process_file]. rewrite Hsrc. simpl.
  erewrite process_line_pragma by done. by rewrite decide_True.
Qed.

(** C5.  A file that starts with [#pragma once] gives text at most once
    in a run: after a call for it has returned, with any table and from
    any depth of inclusion, every later call for the same path returns the
    empty text and leaves the registry as it is. *)
Theorem pragma_once_second_call fuel fuel' opts includes fp d d' inc s inc'
    line src rest g :
  readlines fp = Some (line :: src) ->
  command_re_match line = Some (Pragma, rest) ->
  pragma_re_match rest = Some g ->
  process_file fuel opts includes fp d inc = Done (s, inc') ->
  process_file (S fuel') opts includes fp d' inc' = Done ([], inc').
Proof.
  intros Hsrc E Hg Hrun. eapply process_file_seen; [done..|].
  destruct fuel as [|fuel]; [done|]. cbn [process_file] in Hrun.
  rewrite Hsrc in Hrun. simpl in Hrun.
  erewrite process_line_pragma in Hrun by done. simpl in Hrun.
  case_decide as Hin; [by simplify_eq/=|].
  apply process_lines_grows in Hrun; [|apply process_file_grows].
  set_solver.
Qed.

(** C38.  A file that starts with [#pragma once] and goes on with lines
    that are no directives, on its first visit: the lines are written
    without any marker, because the first line written has index 1, which
    follows the initial [last_iline] of 0.  Spliced into an including
    file, this text carries no trace of the file it came from. *)
Theorem pragma_once_file_no_marker fuel opts includes fp d inc line rest g src :
  readlines fp = Some (line :: src) ->
  command_re_match line = Some (Pragma, rest) ->
  pragma_re_match rest = Some g ->
  Forall (fun l => command_re_match l = None) src ->
  fp ∉ inc ->
  process_file (S fuel) opts includes fp d inc
  = Done (concat src, {[fp]} ∪ inc).
Proof.
  intros Hsrc E Hg Hplain Hin. cbn [process_file]. rewrite Hsrc.
  cbn [expect obind process_lines].
  erewrite process_line_pragma by done. rewrite decide_False by done.
  cbn [obind]. rewrite process_lines_plain by done.
  by rewrite emit_all_consecutive.
Qed.

End PragmaOnce.

(** ** Termination through [#pragma once] *)

Section OnceTermination.
Context `{FS : FileSystem}.
Implicit Types (rec : rec_call) (st : pstate) (inc : gset path).

Lemma unseen_mono ps inc inc' : inc ⊆ inc' -> unseen ps inc' <= unseen ps inc.
Proof.
  intros Hsub. unfold unseen. induction ps as [|p ps IH]; [done|].
  rewrite !filter_cons. repeat case_decide; simpl; try lia. set_solver.
Qed.

Lemma unseen_insert ps fp inc :
  fp ∈ ps -> fp ∉ inc -> unseen ps ({[fp]} ∪ inc) < unseen ps inc.
Proof.
  intros Hin Hnot. unfold unseen. induction ps as [|p ps IH].
  { by apply elem_of_nil in Hin. }
  pose proof (unseen_mono ps inc ({[fp]} ∪ inc)) as Hm. unfold unseen in Hm.
  rewrite !filter_cons. apply elem_of_cons in Hin as [<-|Hin].
  - rewrite decide_False, decide_True by set_solver. simpl.
    specialize (Hm ltac:(set_solver)). lia.
  - specialize (IH Hin). repeat case_decide; simpl; try lia. set_solver.
Qed.

(** The loop runs out of fuel only inside a recursive call, and that call
    gets a registry that holds the registry of the loop. *)
Lemma process_lines_Timeout_grows rec opts fp includes src :
  rec_grows rec -> forall iline st inc,
  process_lines rec opts fp includes iline src st inc = Timeout ->
  exists line q d inc', line ∈ src /\
    include_target fp includes line = Some q /\ inc ⊆ inc' /\
    rec q d inc' = Timeout.
Proof.
  intros Hrec. induction src as [|line src IH]; intros iline st inc; [done|].
  cbn [process_lines]. intros [H|(f & Hf & H)]%obind_Timeout_inv.
  - apply process_line_Timeout in H as (q & ? & ?).
    exists line, q, (defines st), inc. split_and!; [left|done..].
  - apply process_line_grows in Hf; [|done].
    destruct f as [st' inc'|s inc']; [|done].
    apply IH in H as (l & q & d & i & ? & ? & ? & ?). exists l, q, d, i.
    split_and!; [by right|done| |done]. simpl in Hf. set_solver.
Qed.

Lemma starts_with_once_pragma src :
  starts_with_once src = true ->
  exists line src' rest g, src = line :: src' /\
    command_re_match line = Some (Pragma, rest) /\
    pragma_re_match rest = Some g.
Proof.
  destruct src as [|line src']; [done|]. cbn [starts_with_once].
  destruct (command_re_match line) as [[[] rest]|] eqn:E; try done.
  intros [g Hg]%bool_decide_eq_true. by exists line, src', rest, g.
Qed.

Lemma once_closed_no_timeout opts includes ps :
  once_closed includes ps = true ->
  forall fuel fp d inc, fp ∈ ps -> unseen ps inc < fuel ->
  process_file fuel opts includes fp d inc <> Timeout.
Proof.
  intros Hc. induction fuel as [|fuel IH]; intros fp d inc Hin Hfuel; [lia|].
  cbn [process_file]. unfold once_closed in Hc. rewrite forallb_forall in Hc.
  specialize (Hc fp ltac:(by apply list_elem_of_In)).
  destruct (readlines fp) as [src|]; [|done].
  apply andb_prop in Hc as [Honce Htargets].
  apply starts_with_once_pragma in Honce as (line & src' & rest & g & -> & E & Hg).
  cbn [expect obind process_lines]. erewrite process_line_pragma by done.
  case_decide as Hseen; [done|]. cbn [obind].
  intros (l & q & d' & inc' & Hl & Hq & Hsub & Ht)%process_lines_Timeout_grows;
    [|apply process_file_grows].
  rewrite forallb_forall in Htargets.
  specialize (Htargets l ltac:(apply list_elem_of_In; by right)).
  rewrite Hq in Htargets. apply bool_decide_eq_true in Htargets.
  revert Ht. apply IH; [done|].
  pose proof (unseen_mono ps _ _ Hsub). pose proof (unseen_insert ps fp inc Hin Hseen).
  lia.
Qed.

(** C12.  When every file starts with [#pragma once], the files may
    include each other in cycles and [process_file] still returns or
    raises: a fuel of one more than the number of files that are not in the
    registry is enough. *)
Theorem pragma_once_terminates opts includes ps fp d inc :
  once_closed includes ps = true -> fp ∈ ps ->
  is_timeout (process_file (S (unseen ps inc)) opts includes fp d inc) = false.
Proof.
  intros Hc Hin. apply is_timeout_false.
  apply (once_closed_no_timeout opts includes ps Hc); [done|lia].
Qed.

End OnceTermination.

(** ** Inactive text *)

Section Inactive.
Context `{FS : FileSystem}.
Implicit Types (rec : rec_call) (st : pstate) (inc : gset path).

(** C36.  In an inactive context a line that is not one of the six
    conditional directives does nothing at all: it is not written, it
    changes no state, and it raises nothing even when it is an
    [#include] of a missing file, an [#undef] of an unknown symbol or a
    malformed directive. *)
Theorem inactive_line_skipped rec opts fp includes iline line st inc :
  is_valid (stack st) = false ->
  match command_re_match line with
  | Some (c, _) => is_conditional c = false
  | None => True
  end ->
  process_line rec opts fp includes iline line st inc = Done (Next st inc).
Proof.
  intros Hv Hc. unfold process_line, when_valid. rewrite Hv.
  by destruct (command_re_match line) as [[[] rest]|].
Qed.

End Inactive.

(** ** Include search *)

Section Search.
Context `{FS : FileSystem}.

(** C17.  The include search returns the path under the first directory
    of the list where it exists, and fails exactly when it exists under
    none. *)
Theorem find_include_spec dirs p :
  match find_include dirs p with
  | Some q =>
      exists i d, dirs !! i = Some d /\ q = joinpath d p /\
        path_exists q = true /\
        forall j d', j < i -> dirs !! j = Some d' ->
          path_exists (joinpath d' p) = false
  | None => forall d, d ∈ dirs -> path_exists (joinpath d p) = false
  end.
Proof.
  induction dirs as [|d dirs IH]; simpl; [by intros ? ?%elem_of_nil|].
  destruct (path_exists (joinpath d p)) eqn:E.
  - exists 0, d. split_and!; try done. intros j d' Hj. lia.
  - destruct (find_include dirs p) as [q|].
    + destruct IH as (i & d0 & Hi & -> & Hq & Hmin).
      exists (S i), d0. split_and!; try done.
      intros [|j] d' Hj; simpl; [by intros [= <-]|].
      apply Hmin. lia.
    + intros d0 [->|Hd]%elem_of_cons; auto.
Qed.

(** A quoted include prefers the directory of the including file. *)
Lemma find_include_local fp includes p :
  path_exists (joinpath (parent fp) p) = true ->
  find_include (these_includes fp includes false) p
  = Some (joinpath (parent fp) p).
Proof. simpl. by intros ->. Qed.

(** The search finds nothing where the path exists under no directory. *)
Lemma find_include_None dirs p :
  (forall d, d ∈ dirs -> path_exists (joinpath d p) = false) ->
  find_include dirs p = None.
Proof.
  induction dirs as [|d dirs IH]; intros H; simpl; [done|].
  rewrite H by left. apply IH. intros d' Hd'. apply H. by right.
Qed.

(** A system include never looks there. *)
Lemma find_include_system fp includes p :
  (forall d, d ∈ includes -> path_exists (joinpath d p) = false) ->
  find_include (these_includes fp includes true) p = None.
Proof. apply find_include_None. Qed.

End Search.

(** ** Conditions of [#if] and [#elif] *)

Section Conditions.

(** [#if defined(w)] tests the table for [w]. *)
Lemma eval_condition_defined w d :
  is_identifier w = true ->
  eval_condition (" "%char :: defined_call w) d = Done (defined w d).
Proof.
  intros Hw. unfold eval_condition. rewrite if_re_match_defined by done.
  simpl. pose proof (function_re_match_defined w [] Hw) as H.
  rewrite app_nil_r in H. rewrite H. by rewrite decide_True.
Qed.

(** C35.  [#if NAME] and [#elif NAME] with an identifier alone fail an
    assertion, whether [NAME] is defined or not: only the form
    [defined(NAME)] is evaluated. *)
Theorem eval_condition_identifier w d :
  is_identifier w = true ->
  eval_condition (" "%char :: w) d = Raise AssertionError.
Proof.
  intros Hw. unfold eval_condition. rewrite if_re_match_identifier by done.
  simpl. apply is_identifier_spec in Hw as [_ Hw].
  by rewrite function_re_match_identifier.
Qed.

Lemma eval_condition_identifier_witness :
  eval_condition (" "%char :: txt "DEBUG") {[ txt "DEBUG" := None ]}
  = Raise AssertionError.
Proof. by apply eval_condition_identifier. Defined.

(** The branch for a function other than [defined] is dead: the
    expression matches no other name. *)
Lemma function_re_match_name s f arg :
  function_re_match s = Some (f, arg) -> f = txt "defined".
Proof.
  unfold function_re_match. repeat case_match; try done. by intros [= <- _].
Qed.

End Conditions.

(** ** Whole files with conditionals *)

Section Conditionals.
Context `{FS : FileSystem}.
Implicit Types (rec : rec_call) (st : pstate) (inc : gset path).

Lemma process_line_ifdef rec opts fp includes iline w st inc :
  is_identifier w = true ->
  process_line rec opts fp includes iline (directive_line Ifdef w) st inc
  = Done (Next (with_stack (add_if (defined w (defines st)) (stack st)) st) inc).
Proof.
  intros Hw. pose proof Hw as [_ Hword]%is_identifier_spec.
  unfold process_line. rewrite directive_line_roundtrip;
    [|by apply identifier_no_newline|by apply identifier_has_content].
  by rewrite ifdef_re_match_identifier.
Qed.

Lemma process_line_ifndef rec opts fp includes iline w st inc :
  is_identifier w = true ->
  process_line rec opts fp includes iline (directive_line Ifndef w) st inc
  = Done (Next (with_stack
                  (add_if (negb (defined w (defines st))) (stack st)) st) inc).
Proof.
  intros Hw. pose proof Hw as [_ Hword]%is_identifier_spec.
  unfold process_line. rewrite directive_line_roundtrip;
    [|by apply identifier_no_newline|by apply identifier_has_content].
  by rewrite ifdef_re_match_identifier.
Qed.

Lemma process_line_else rec opts fp includes iline st inc :
  process_line rec opts fp includes iline (bare_line Else) st inc
  = let* cs := do_else (stack st) in Done (Next (with_stack cs st) inc).
Proof. unfold process_line. by rewrite bare_line_match. Qed.

Lemma process_line_endif rec opts fp includes iline st inc :
  process_line rec opts fp includes iline (bare_line Endif) st inc
  = let* cs := do_endif (stack st) in Done (Next (with_stack cs st) inc).
Proof. unfold process_line. by rewrite bare_line_match. Qed.

Lemma process_line_else_match rec opts fp includes iline line rest st inc :
  command_re_match line = Some (Else, rest) ->
  process_line rec opts fp includes iline line st inc
  = let* cs := do_else (stack st) in Done (Next (with_stack cs st) inc).
Proof. intros E. unfold process_line. by rewrite E. Qed.

Lemma process_line_endif_match rec opts fp includes iline line rest st inc :
  command_re_match line = Some (Endif, rest) ->
  process_line rec opts fp includes iline line st inc
  = let* cs := do_endif (stack st) in Done (Next (with_stack cs st) inc).
Proof. intros E. unfold process_line. by rewrite E. Qed.

(** Five lines: an opening directive that pushes [cond] on the empty
    stack, a line, [#else], a line, [#endif]. *)
Lemma process_lines_if_else rec opts fp includes d inc cond l0 a l2 b l4 r2 r4 :
  process_line rec opts fp includes 0 l0 (pstate_init d) inc
  = Done (Next (with_stack (add_if cond empty_stack) (pstate_init d)) inc) ->
  command_re_match a = None -> command_re_match b = None ->
  command_re_match l2 = Some (Else, r2) ->
  command_re_match l4 = Some (Endif, r4) ->
  process_lines rec opts fp includes 0 [l0; a; l2; b; l4] (pstate_init d) inc
  = Done ((if cond then a else []) ++ line_str 3 (path_str fp) ++ b, inc).
Proof.
  intros H0 Ha Hb H2 H4. cbn [process_lines]. rewrite H0. cbn [obind].
  rewrite process_line_plain by done. cbn [obind].
  erewrite process_line_else_match by done.
  destruct cond; simpl; rewrite process_line_plain by done; simpl;
    erewrite process_line_endif_match by done; simpl;
    unfold output; simpl; by rewrite ?app_nil_r.
Qed.

(** C4.  The file [#ifdef X] / [a] / [#else] / [b] / [#endif] with [X]
    defined: the result holds the line [a] and the line [b] too, with a
    marker between them.  The [#else] does not end the branch that was
    taken. *)
Theorem ifdef_else_keeps_both fuel opts includes fp d inc x a b :
  is_identifier x = true -> defined x d = true ->
  is_plain a = true -> is_plain b = true ->
  readlines fp = Some (ifdef_else_file Ifdef x a b) ->
  process_file (S fuel) opts includes fp d inc
  = Done (a ++ line_str 3 (path_str fp) ++ b, inc).
Proof.
  intros Hx Hd Ha%bool_decide_eq_true Hb%bool_decide_eq_true Hsrc.
  cbn [process_file]. rewrite Hsrc. cbn [expect obind].
  apply (process_lines_if_else _ _ _ _ _ _ true _ _ _ _ _ [nl] [nl]);
    try done; try apply bare_line_match.
  rewrite process_line_ifdef by done. simpl. by rewrite Hd.
Qed.

(** With [#ifndef] the same file gives the [#else] branch alone, as it
    should. *)
Lemma ifndef_else_keeps_else fuel opts includes fp d inc x a b :
  is_identifier x = true -> defined x d = true ->
  is_plain a = true -> is_plain b = true ->
  readlines fp = Some (ifdef_else_file Ifndef x a b) ->
  process_file (S fuel) opts includes fp d inc
  = Done (line_str 3 (path_str fp) ++ b, inc).
Proof.
  intros Hx Hd Ha%bool_decide_eq_true Hb%bool_decide_eq_true Hsrc.
  cbn [process_file]. rewrite Hsrc. cbn [expect obind].
  apply (process_lines_if_else _ _ _ _ _ _ false _ _ _ _ _ [nl] [nl]);
    try done; try apply bare_line_match.
  rewrite process_line_ifndef by done. simpl. by rewrite Hd.
Qed.

(** Lines that are no directives, in an inactive context: nothing is
    written. *)
Lemma process_lines_plain_inactive rec opts fp includes src :
  forall iline st inc,
  Forall (fun l => is_plain l = true) src ->
  is_valid (stack st) = false ->
  process_lines rec opts fp includes iline src st inc
  = Done (output (out st), inc).
Proof.
  induction src as [|l src IH]; intros iline st inc Hsrc Hv; [done|].
  inversion Hsrc as [|? ? Hl%bool_decide_eq_true Hsrc']; subst.
  cbn [process_lines]. rewrite process_line_plain, Hv by done.
  simpl. by apply IH.
Qed.

(** C37.  A file that opens a block and never closes it returns
    normally: the end of the file does not check that the stack is empty.
    Here the block is inactive and the lines behind it are dropped. *)
Theorem unclosed_block_accepted fuel opts includes fp d inc x src :
  is_identifier x = true -> defined x d = false ->
  Forall (fun l => is_plain l = true) src ->
  readlines fp = Some (directive_line Ifdef x :: src) ->
  process_file (S fuel) opts includes fp d inc = Done ([], inc).
Proof.
  intros Hx Hd Hsrc Hfp. cbn [process_file]. rewrite Hfp.
  cbn [expect obind process_lines].
  rewrite process_line_ifdef by done. cbn [obind].
  rewrite process_lines_plain_inactive; [done..|].
  simpl. by rewrite Hd.
Qed.

End Conditionals.

(** ** The lines a file keeps *)

Section Retained.
Context `{FS : FileSystem}.
Implicit Types (rec : rec_call) (st : pstate) (inc : gset path).

Lemma with_stack_id st : with_stack (stack st) st = st.
Proof. by destruct st. Qed.

(** A conditional directive acts on the stack alone, in any context. *)
Lemma process_line_cond rec opts fp includes iline line st inc m :
  cond_step (defines st) line (stack st) = Some m ->
  process_line rec opts fp includes iline line st inc
  = let* cs := m in Done (Next (with_stack cs st) inc).
Proof.
  unfold cond_step, process_line.
  destruct (command_re_match line) as [[[] rest]|]; intros [= <-];
    rewrite ?obind_assoc; try done.
  destruct (else_allowed (stack st)) as [[]| |]; simpl;
    by rewrite ?obind_assoc, ?with_stack_id.
Qed.

Lemma take_branch_elif cs cs' :
  take_branch cs = Done cs' -> else_allowed cs = Done true ->
  do_elif true cs = Done cs'.
Proof. unfold do_elif. by intros -> ->. Qed.

(** The directives keep the stack well formed. *)
Lemma cond_step_wf d line cs m cs' :
  cond_step d line cs = Some m -> m = Done cs' ->
  wf cs = true -> wf cs' = true.
Proof.
  unfold cond_step.
  destruct (command_re_match line) as [[[] rest]|]; intros [= <-] H Hwf;
    try done; inv_outcome; subst;
    eauto using add_if_wf, do_endif_wf, do_else_wf.
  destruct r; [|done]. eauto using do_elif_wf, take_branch_elif.
Qed.

Lemma cond_step_None line d cs :
  conditional_only [line] = true -> cond_step d line cs = None ->
  command_re_match line = None.
Proof.
  unfold conditional_only, cond_step. simpl.
  by destruct (command_re_match line) as [[[] rest]|].
Qed.

(** C10.  For a file made of text and conditional directives, the loop
    returns exactly the lines of text around which every open block is
    active, each written by [emit] at its own index, and it raises where a
    directive raises. *)
Theorem retained_lines rec opts fp includes src : forall iline st inc,
  conditional_only src = true -> wf (stack st) = true ->
  process_lines rec opts fp includes iline src st inc
  = let* ls := retained (defines st) iline src (stack st) in
    Done (output (emit_lines (path_str fp) ls (out st)), inc).
Proof.
  induction src as [|line src IH]; intros iline st inc Hsrc Hwf; [done|].
  apply andb_prop in Hsrc as [Hline Hsrc]. cbn [process_lines retained].
  destruct (cond_step (defines st) line (stack st)) as [m|] eqn:E.
  - rewrite (process_line_cond _ _ _ _ _ _ _ _ m E).
    destruct m as [cs'| |] eqn:Em; cbn [obind]; [|done..].
    rewrite IH; [done..|]. by eapply cond_step_wf.
  - rewrite process_line_plain
      by (eapply cond_step_None; [|done]; unfold conditional_only; simpl;
          by rewrite Hline).
    cbn [obind]. destruct (is_valid (stack st)) eqn:Hv.
    + rewrite IH, (is_valid_all _ Hwf Hv) by done. cbn [defines stack with_out].
      by destruct (retained _ _ _ _).
    + rewrite IH by done.
      destruct (forallb id (ifs (stack st))) eqn:Hall;
        [by rewrite (all_active_is_valid _ Hall) in Hv|].
      by destruct (retained _ _ _ _).
Qed.

End Retained.

(** ** Symbols, includes and their errors in whole files *)

Section Symbols.
Context `{FS : FileSystem}.
Implicit Types (rec : rec_call) (st : pstate) (inc : gset path).

Lemma directive_match c w :
  is_identifier w = true ->
  command_re_match (directive_line c w) = Some (c, " "%char :: w).
Proof.
  intros Hw. pose proof Hw as [_ ?]%is_identifier_spec.
  apply directive_line_roundtrip;
    [by apply identifier_no_newline|by apply identifier_has_content].
Qed.

(** [#define k] in an active context: the symbol is bound to no value,
    and the line is written when [passthrough_defines] is set. *)
Lemma process_line_define rec opts fp includes iline k st inc :
  is_identifier k = true -> is_valid (stack st) = true ->
  process_line rec opts fp includes iline (directive_line Define k) st inc
  = Done (Next
      (let st' := with_defines (define k None (defines st)) st in
       if passthrough_defines opts
       then with_out (emit (path_str fp) iline (directive_line Define k)
                        (out st')) st'
       else st') inc).
Proof.
  intros Hk Hv. unfold process_line, when_valid.
  by rewrite directive_match, Hv, define_re_match_name.
Qed.

(** [#undef k] in an active context. *)
Lemma process_line_undef rec opts fp includes iline k st inc :
  is_identifier k = true -> is_valid (stack st) = true ->
  process_line rec opts fp includes iline (directive_line Undef k) st inc
  = let* d := undef k (defines st) in Done (Next (with_defines d st) inc).
Proof.
  intros Hk Hv. unfold process_line, when_valid, undef_re_match.
  by rewrite directive_match, Hv, ifdef_re_match_identifier.
Qed.

(** [#include] of a quoted path in an active context: the search, the
    recursive call with the table of this file, the splice. *)
Lemma process_line_include rec opts fp includes iline p st inc :
  Forall (fun a => a <> dquote) p -> Forall (fun a => a <> nl) p ->
  is_valid (stack st) = true ->
  process_line rec opts fp includes iline
    (directive_line Include (quoted p)) st inc
  = match find_include (these_includes fp includes false) p with
    | Some sub_fp =>
        let* r := rec sub_fp (defines st) inc in
        Done (Next (with_out (splice (path_str fp) iline r.1 (out st)) st) r.2)
    | None => Raise (NotFound p)
    end.
Proof.
  intros Hq Hnl Hv. unfold process_line, when_valid.
  rewrite directive_line_roundtrip, Hv.
  - destruct (include_re_match_roundtrip p) as [Hinc _].
    destruct (Hinc Hq) as (g & Hg & Hsys & Hstrip). rewrite Hg.
    cbn [expect obind]. cbv zeta. by rewrite Hsys, Hstrip.
  - unfold quoted. constructor; [done|]. apply Forall_app. split; [done|].
    by constructor.
  - done.
Qed.

(** C29.  A symbol defined by [#define] is defined for the lines that
    follow in the file: [#define X] / [#ifdef X] / [a] / [#endif] gives the
    line [a] behind a marker for line 2, whatever the table of the caller,
    and the [#define] line itself when [passthrough_defines] is set. *)
Theorem define_then_ifdef fuel opts includes fp d inc x a :
  is_identifier x = true -> is_plain a = true ->
  readlines fp = Some [directive_line Define x; directive_line Ifdef x; a;
                       bare_line Endif] ->
  process_file (S fuel) opts includes fp d inc
  = Done ((if passthrough_defines opts
           then line_str 0 (path_str fp) ++ directive_line Define x
           else [])
          ++ line_str 2 (path_str fp) ++ a, inc).
Proof.
  intros Hx Ha%bool_decide_eq_true Hsrc. cbn [process_file]. rewrite Hsrc.
  cbn [expect obind process_lines].
  rewrite process_line_define by done. cbn [obind].
  destruct (passthrough_defines opts);
    rewrite process_line_ifdef by done; cbn [obind defines with_defines with_out];
    rewrite defined_define, bool_decide_eq_true_2 by done;
    rewrite process_line_plain by done; cbn [obind];
    rewrite process_line_endif; simpl; unfold output, directive_line; simpl;
    rewrite ?app_nil_r; by repeat (rewrite <- app_assoc; simpl).
Qed.

(** C30.  [#undef] of a symbol that is not defined, in an active context,
    ends the run with [KeyError]. *)
Theorem undef_unknown_raises fuel opts includes fp d inc x src :
  is_identifier x = true -> defined x d = false ->
  readlines fp = Some (directive_line Undef x :: src) ->
  process_file (S fuel) opts includes fp d inc = Raise (KeyError x).
Proof.
  intros Hx Hd%defined_false Hsrc. cbn [process_file]. rewrite Hsrc.
  cbn [expect obind process_lines]. rewrite process_line_undef by done.
  unfold undef. simpl. by rewrite Hd.
Qed.

(** An [#include] of a path that exists under no directory of the
    search, in an active context, ends the run with the exception of line
    159. *)
Theorem include_missing_raises fuel opts includes fp d inc p src :
  Forall (fun a => a <> dquote) p -> Forall (fun a => a <> nl) p ->
  find_include (these_includes fp includes false) p = None ->
  readlines fp = Some (directive_line Include (quoted p) :: src) ->
  process_file (S fuel) opts includes fp d inc = Raise (NotFound p).
Proof.
  intros Hq Hnl Hnone Hsrc. cbn [process_file]. rewrite Hsrc.
  cbn [expect obind process_lines].
  by rewrite process_line_include, Hnone.
Qed.

(** C28.  A file whose first line includes the file itself, and that has
    no [#pragma once] in front of it, never returns: the model runs out of
    fuel whatever the fuel is. *)
Theorem self_include_diverges fuel opts includes fp p src :
  Forall (fun a => a <> dquote) p -> Forall (fun a => a <> nl) p ->
  find_include (these_includes fp includes false) p = Some fp ->
  readlines fp = Some (directive_line Include (quoted p) :: src) ->
  forall d inc, process_file fuel opts includes fp d inc = Timeout.
Proof.
  intros Hq Hnl Hself Hsrc. induction fuel as [|fuel IH]; intros d inc; [done|].
  cbn [process_file]. rewrite Hsrc. cbn [expect obind process_lines].
  rewrite process_line_include, Hself by done.
  cbn [defines pstate_init]. by rewrite IH.
Qed.

End Symbols.

(** ** The theorems at concrete files *)

Section Witnesses.

Lemma registry_grows_witness :
  ({[ txt "/p/zzz.h" ]} : gset text)
  ⊆ {[ txt "/p/zzz.h"; txt "/p/a.c"; txt "/p/b.h" ]}.
Proof.
  apply (registry_grows (FS := demo_fs) 3 default_options []
           (txt "/p/a.c") ∅ {[ txt "/p/zzz.h" ]}
           (ln "int m;" ++ ln "int b;" ++ line_str 5 (txt "/p/b.h")
            ++ ln "yes" ++ line_str 2 (txt "/p/a.c") ++ ln "after")).
  vm_refl.
Defined.

Lemma process_file_terminates_witness :
  is_timeout (process_file (FS := demo_fs) 3 default_options []
                (txt "/p/main.c") ∅ ∅) = false.
Proof.
  apply (process_file_terminates (FS := demo_fs) default_options []
           [txt "/p/main.c"; txt "/p/plain.c"]); [vm_refl|left].
Defined.

Lemma process_file_plain_witness :
  process_file (FS := demo_fs) 1 default_options [] (txt "/p/plain.c") ∅ ∅
  = Done (line_str 0 (txt "/p/plain.c") ++ ln "int a;" ++ ln "int b;", ∅).
Proof.
  apply (process_file_plain (FS := demo_fs) 0 default_options []
           (txt "/p/plain.c") ∅ ∅ [ln "int a;"; ln "int b;"]);
    [vm_refl|].
  repeat constructor; vm_refl.
Defined.

Lemma pragma_once_second_call_witness :
  process_file (FS := demo_fs) 1 default_options [] (txt "/p/b.h")
    {[ txt "Z" := None ]} {[ txt "/p/a.c"; txt "/p/b.h" ]}
  = Done ([], {[ txt "/p/a.c"; txt "/p/b.h" ]}).
Proof.
  apply (pragma_once_second_call (FS := demo_fs) 3 0 default_options []
           (txt "/p/b.h") ∅ {[ txt "Z" := None ]} {[ txt "/p/a.c" ]}
           (ln "int b;" ++ line_str 5 (txt "/p/b.h") ++ ln "yes")
           {[ txt "/p/a.c"; txt "/p/b.h" ]}
           (ln "#pragma once")
           [ln "int b;"; directive_line Include (quoted (txt "a.c"));
            ln "#define Y 1"; ln "#ifdef Y"; ln "yes"; ln "#endif"]
           (txt " once") (txt "once"));
    vm_refl.
Defined.

Lemma pragma_once_file_no_marker_witness :
  process_file (FS := mem_fs [(txt "g.h", [ln "#pragma once"; ln "int g;"])])
    1 default_options [] (txt "g.h") ∅ ∅
  = Done (concat [ln "int g;"], {[ txt "g.h" ]} ∪ ∅).
Proof.
  apply (pragma_once_file_no_marker (FS := mem_fs _) 0 default_options []
           (txt "g.h") ∅ ∅ (ln "#pragma once") (txt " once") (txt "once")
           [ln "int g;"]); try vm_refl.
  - repeat constructor; vm_refl.
  - apply not_elem_of_empty.
Defined.

Lemma inactive_line_skipped_witness :
  process_line (FS := demo_fs) (fun _ _ _ => Timeout) default_options
    (txt "/p/main.c") [] 3 (ln "#undef NOT_THERE")
    (PState ∅ (CondStack [false] [true]) emitter_init) ∅
  = Done (Next (PState ∅ (CondStack [false] [true]) emitter_init) ∅).
Proof. apply (inactive_line_skipped (FS := demo_fs)); [vm_refl|by vm_compute]. Defined.

Lemma ifdef_else_keeps_both_witness :
  process_file (FS := mem_fs [(txt "f.c",
      ifdef_else_file Ifdef (txt "X") (ln "a line") (ln "other"))])
    1 default_options [] (txt "f.c") {[ txt "X" := None ]} ∅
  = Done (ln "a line" ++ line_str 3 (txt "f.c") ++ ln "other", ∅).
Proof.
  apply (ifdef_else_keeps_both (FS := mem_fs _) 0 default_options []
           (txt "f.c") {[ txt "X" := None ]} ∅ (txt "X")); vm_refl.
Defined.

Lemma unclosed_block_accepted_witness :
  process_file (FS := demo_fs) 1 default_options [] (txt "/p/open.c") ∅ ∅
  = Done ([], ∅).
Proof.
  apply (unclosed_block_accepted (FS := demo_fs) 0 default_options []
           (txt "/p/open.c") ∅ ∅ (txt "X") [ln "never closed"]);
    try vm_refl.
  repeat constructor; vm_refl.
Defined.

Lemma define_then_ifdef_witness :
  process_file (FS := symbol_fs) 1 (Options true false false) []
    (txt "/s/def.c") ∅ ∅
  = Done ((if passthrough_defines (Options true false false)
           then line_str 0 (txt "/s/def.c") ++ directive_line Define (txt "X")
           else [])
          ++ line_str 2 (txt "/s/def.c") ++ ln "a line", ∅).
Proof.
  apply (define_then_ifdef (FS := symbol_fs) 0 (Options true false false) []
           (txt "/s/def.c") ∅ ∅ (txt "X") (ln "a line")); vm_refl.
Defined.

Lemma undef_unknown_raises_witness :
  process_file (FS := symbol_fs) 1 default_options [] (txt "/s/undef.c") ∅ ∅
  = Raise (KeyError (txt "X")).
Proof.
  apply (undef_unknown_raises (FS := symbol_fs) 0 default_options []
           (txt "/s/undef.c") ∅ ∅ (txt "X") [ln "int u;"]); vm_refl.
Defined.

Lemma include_missing_raises_witness :
  process_file (FS := symbol_fs) 1 default_options [] (txt "/s/missing.c") ∅ ∅
  = Raise (NotFound (txt "nope.h")).
Proof.
  apply (include_missing_raises (FS := symbol_fs) 0 default_options []
           (txt "/s/missing.c") ∅ ∅ (txt "nope.h") [ln "int m;"]);
    [by repeat constructor|by repeat constructor|vm_refl|vm_refl].
Defined.

Lemma self_include_diverges_witness :
  process_file (FS := symbol_fs) 7 default_options [] (txt "/s/loop.c") ∅ ∅
  = Timeout.
Proof.
  apply (self_include_diverges (FS := symbol_fs) 7 default_options []
           (txt "/s/loop.c") (txt "loop.c") [ln "int l;"]);
    [by repeat constructor|by repeat constructor|vm_refl|vm_refl].
Defined.

Lemma pragma_once_terminates_witness :
  is_timeout (process_file (FS := demo_fs)
                (S (unseen (FS := demo_fs) [txt "/p/a.c"; txt "/p/b.h"] ∅))
                default_options [] (txt "/p/a.c") ∅ ∅) = false.
Proof.
  apply (pragma_once_terminates (FS := demo_fs) default_options []
           [txt "/p/a.c"; txt "/p/b.h"]); [vm_refl|left].
Defined.

Lemma retained_lines_witness :
  process_lines (FS := demo_fs) (fun _ _ _ => Timeout) default_options
    (txt "/p/main.c") [] 1
    [ln "#ifdef X"; ln "x is set"; ln "#else"; ln "x is not set"; ln "#endif"]
    (pstate_init ∅) ∅
  = let* ls := retained ∅ 1
        [ln "#ifdef X"; ln "x is set"; ln "#else"; ln "x is not set";
         ln "#endif"] empty_stack in
    Done (output (emit_lines (txt "/p/main.c") ls emitter_init), ∅).
Proof.
  apply (retained_lines (FS := demo_fs) (fun _ _ _ => Timeout) default_options
           (txt "/p/main.c") [] _ 1 (pstate_init ∅) ∅); vm_refl.
Defined.

End Witnesses.
