(* ===== verification/FileRef.v ===== *)
(** * Files of text and conditionals against the C preprocessor

    What [process_file] (src/c-preprocess.py, lines 35-187) returns for a
    file made of text and conditional directives, compared with what the C
    preprocessor keeps of it.  The reference is the frame model of
    [CondRef] run over the lines of the file: a line of text is kept when
    the branch being read is active.

    The two agree on every file in which each [#else] and [#elif] is met
    while the branch being read is inactive: the text returned is the kept
    lines, written by [emit] with their markers, and the call raises
    exactly when a directive has no block to act on.  The reference does
    not ask that every block is closed at the end of the file, and neither
    does the program. *)

From Stdlib Require Import Ascii String List Bool Arith Lia.
From stdpp Require Import base tactics option list strings gmap.
From S2P Require Import Prelude Chars Classifier CondStack CondRef.
From S2P Require Import Symtab Emitter FileSystem FileProc.

#[local] Open Scope list_scope.
#[local] Open Scope outcome_scope.

(** ** The reference on the lines of a file *)

(** The conditional directive of a line, with its condition evaluated in
    the table [d] the way lines 99-105 and 110-127 evaluate it; [None] for
    text, for the other directives and for a conditional directive whose
    argument the program cannot read. *)
Definition line_op (d : symtab) (line : text) : option cond_op :=
  match command_re_match line with
  | Some (Endif, _) => Some OpEndif
  | Some (Else, _) => Some OpElse
  | Some (Ifdef, rest) =>
      (fun var => OpIf (defined var d)) <$> ifdef_re_match rest
  | Some (Ifndef, rest) =>
      (fun var => OpIf (negb (defined var d))) <$> ifdef_re_match rest
  | Some (If, rest) =>
      match eval_condition rest d with
      | Done cond => Some (OpIf cond)
      | _ => None
      end
  | Some (Elif, rest) =>
      match eval_condition rest d with
      | Done cond => Some (OpElif cond)
      | _ => None
      end
  | _ => None
  end.

(** Every line is text or a conditional directive that can be read. *)
Definition well_formed (d : symtab) (src : list text) : bool :=
  forallb (fun line =>
             bool_decide (command_re_match line = None)
             || bool_decide (is_Some (line_op d line))) src.

(** The directives of a file, in the order of its lines. *)
Definition file_ops (d : symtab) (src : list text) : list cond_op :=
  omap (line_op d) src.

(** The lines the C preprocessor keeps of [src], from index [iline] on,
    with the open blocks [rs]: the lines of text met while the branch
    being read is active.  [None] when a directive has no block to act
    on. *)
Fixpoint ref_lines (d : symtab) (iline : nat) (src : list text)
    (rs : list rframe) : option (list (nat * text)) :=
  match src with
  | [] => Some []
  | line :: src' =>
      match line_op d line with
      | Some op => ref_apply op rs ≫= ref_lines d (S iline) src'
      | None =>
          (fun ls => if ref_active rs then (iline, line) :: ls else ls)
            <$> ref_lines d (S iline) src' rs
      end
  end.

(** The file [#ifdef X], [a], [#else], [b], [#endif] of the fixtures, in
    which [X] is not defined. *)
Definition ref_fs : FileSystem :=
  mem_fs [ (txt "/r/c.c",
            [directive_line Ifdef (txt "X"); ln "int a;"; bare_line Else;
             ln "int b;"; bare_line Endif; ln "int c;"]) ].

(** ** Lemmas *)

Section FileRef.
Context `{FS : FileSystem}.
Implicit Types (rec : rec_call) (st : pstate) (inc : gset path).
Implicit Types (d : symtab) (rs : list rframe) (src : list text).

(** A directive that can be read acts on the lists as [apply_op] says. *)
Lemma line_op_cond_step d line op cs :
  line_op d line = Some op -> cond_step d line cs = Some (apply_op op cs).
Proof.
  unfold line_op, cond_step.
  destruct (command_re_match line) as [[[] rest]|]; try done.
  - destruct (ifdef_re_match rest); by intros [= <-].
  - destruct (ifdef_re_match rest); by intros [= <-].
  - destruct (eval_condition rest d); by intros [= <-].
  - by intros [= <-].
  - by intros [= <-].
  - destruct (eval_condition rest d) as [c| |]; intros [= <-]. simpl.
    unfold do_elif. by destruct (else_allowed cs) as [[]| |].
Qed.

Lemma well_formed_cons d line src :
  well_formed d (line :: src) = true ->
  (line_op d line = None -> command_re_match line = None)
  /\ well_formed d src = true.
Proof.
  intros [Hl ?]%andb_prop. split; [|done]. intros E. rewrite E in Hl.
  apply orb_prop in Hl as [Hl|Hl]; [by apply bool_decide_eq_true in Hl|].
  apply bool_decide_eq_true in Hl. by destruct Hl.
Qed.

(** The loop and the reference, from any line on: the stack of the
    program stands for the open blocks of the reference. *)
Lemma process_lines_reference rec opts fp includes src :
  forall iline st inc rs,
  well_formed (defines st) src = true -> stands_for (stack st) rs ->
  safe_run (file_ops (defines st) src) rs = true ->
  match ref_lines (defines st) iline src rs with
  | Some ls =>
      process_lines rec opts fp includes iline src st inc
      = Done (output (emit_lines (path_str fp) ls (out st)), inc)
  | None =>
      exists e, process_lines rec opts fp includes iline src st inc = Raise e
  end.
Proof.
  induction src as [|line src IH]; intros iline st inc rs Hwf Hst Hs; [done|].
  apply well_formed_cons in Hwf as [Htext Hwf].
  cbn [ref_lines process_lines]. unfold file_ops in *. cbn [omap list_omap] in Hs.
  destruct (line_op (defines st) line) as [op|] eqn:Eop.
  - apply andb_prop in Hs as [Hop Hs].
    rewrite (process_line_cond _ _ _ _ _ _ _ _ _
               (line_op_cond_step _ _ _ (stack st) Eop)).
    pose proof (apply_op_reference op _ _ Hst Hop) as Hstep.
    destruct (apply_op op (stack st)) as [cs'|e|], (ref_apply op rs) as [rs'|];
      simpl; try done; [|by exists e].
    by apply (IH (S iline) (with_stack cs' st) inc rs').
  - rewrite process_line_plain, (stands_for_active _ _ Hst) by auto.
    cbn [obind].
    destruct (ref_active rs);
      [specialize (IH (S iline) (with_out (emit (path_str fp) iline line
                                             (out st)) st) inc rs Hwf Hst Hs)
      |specialize (IH (S iline) st inc rs Hwf Hst Hs)];
      cbn [defines out with_out] in IH;
      by destruct (ref_lines (defines st) (S iline) src rs).
Qed.

End FileRef.

(** ** Theorem *)

Section Theorems.
Context `{FS : FileSystem}.

(** C11.  For a file of text and conditional directives in which no [#else]
    and no [#elif] is met while the branch being read is active,
    [process_file] returns what the C preprocessor keeps: the lines of text
    of the active branches, written by [emit] at their indices, and it
    raises exactly when a directive has no block to act on. *)
Theorem conditionals_as_in_C fuel opts includes fp d inc src :
  readlines fp = Some src -> well_formed d src = true ->
  safe_run (file_ops d src) [] = true ->
  match ref_lines d 0 src [] with
  | Some ls =>
      process_file (S fuel) opts includes fp d inc
      = Done (output (emit_lines (path_str fp) ls emitter_init), inc)
  | None =>
      exists e, process_file (S fuel) opts includes fp d inc = Raise e
  end.
Proof.
  intros Hsrc Hwf Hs. cbn [process_file]. rewrite Hsrc. cbn [expect obind].
  apply (process_lines_reference _ opts fp includes src 0 (pstate_init d) inc []);
    [done|apply stands_for_empty|done].
Qed.

End Theorems.

Section Witnesses.

Lemma conditionals_as_in_C_witness :
  match ref_lines ∅ 0
          [directive_line Ifdef (txt "X"); ln "int a;"; bare_line Else;
           ln "int b;"; bare_line Endif; ln "int c;"] [] with
  | Some ls =>
      process_file (FS := ref_fs) 1 default_options [] (txt "/r/c.c") ∅ ∅
      = Done (output (emit_lines (txt "/r/c.c") ls emitter_init), ∅)
  | None =>
      exists e,
        process_file (FS := ref_fs) 1 default_options [] (txt "/r/c.c") ∅ ∅
        = Raise e
  end.
Proof.
  apply (conditionals_as_in_C (FS := ref_fs) 0 default_options []
           (txt "/r/c.c") ∅ ∅); vm_refl.
Defined.

End Witnesses.
