(* ===== verification/Scenarios.v ===== *)
(** * Files of a few lines

    What [process_file] (src/c-preprocess.py, lines 35-187) returns for
    three small families of files, for any identifiers and any lines of
    text in them:

    - a chain [#if defined(X)] / [#elif defined(Y)] / [#else] / [#endif]
      (lines 107-133 and 94-98);
    - a file that defines a symbol and includes a header that tests it and
      defines another (lines 43, 150 and 166): the header sees the symbols
      of the file that includes it, and its own do not come back;
    - a conditional directive without argument inside a block that is
      skipped (lines 99-126 come before the test of line 134). *)

From Stdlib Require Import Ascii String List Bool Arith Lia.
From stdpp Require Import base tactics option list strings gmap.
From S2P Require Import Prelude Chars Classifier CondStack.
From S2P Require Import Symtab Emitter FileSystem FileProc.

#[local] Open Scope list_scope.
#[local] Open Scope outcome_scope.

(** ** The files *)

(** [#if defined(x)], [a], [#elif defined(y)], [b], [#else], [c],
    [#endif]. *)
Definition elif_file (x y a b c : text) : list text :=
  [directive_line If (defined_call x); a;
   directive_line Elif (defined_call y); b;
   bare_line Else; c; bare_line Endif].

(** [#define x], [#include "p"], [#ifdef y], [b], [#endif]. *)
Definition scope_main (x p y b : text) : list text :=
  [directive_line Define x; directive_line Include (quoted p);
   directive_line Ifdef y; b; bare_line Endif].

(** [#ifdef x], [a], [#endif], [#define y]. *)
Definition scope_header (x a y : text) : list text :=
  [directive_line Ifdef x; a; bare_line Endif; directive_line Define y].

(** The text of the header [scope_header x a y] of path [q] when [x] is
    defined: the line [a], and the [#define] line behind a marker when
    [passthrough_defines] is set. *)
Definition scope_header_text (pt : bool) (q a y : text) : text :=
  a ++ (if pt then line_str 3 q ++ directive_line Define y else []).

(** The exception an opening directive without argument ends with:
    [m.group(1)] on no match for [#ifdef] and [#ifndef] (line 101), the
    assertion of line 111 for [#if]. *)
Definition no_argument_error (c : command) : pyerror :=
  match c with
  | Ifdef | Ifndef => AttributeError
  | _ => AssertionError
  end.

(** A file and its header, and a file with a broken directive in a block
    that is skipped. *)
Definition scenario_files : list (text * list text) :=
  [ (txt "/i/main.c",
     scope_main (txt "X") (txt "h.h") (txt "Y") (ln "int b;"));
    (txt "/i/h.h", scope_header (txt "X") (ln "int a;") (txt "Y"));
    (txt "/i/chain.c",
     elif_file (txt "X") (txt "Y") (ln "int a;") (ln "int b;") (ln "int c;"));
    (txt "/i/skip.c",
     [directive_line Ifdef (txt "X"); bare_line If; ln "int s;";
      bare_line Endif; bare_line Endif]) ].

Definition scenario_fs : FileSystem := mem_fs scenario_files.

(** ** Lemmas *)

Section Lines.
Context `{FS : FileSystem}.
Implicit Types (rec : rec_call) (st : pstate) (inc : gset path).

(** One call of [process_file]: the lines of the file, the loop, with the
    nested calls one level lower. *)
Lemma process_file_unfold fuel opts includes fp d inc :
  process_file (S fuel) opts includes fp d inc
  = let* src := expect OSError (readlines fp) in
    process_lines (process_file fuel opts includes) opts fp includes 0 src
      (pstate_init d) inc.
Proof. done. Qed.

Lemma defined_call_match c x :
  is_identifier x = true ->
  command_re_match (directive_line c (defined_call x))
  = Some (c, " "%char :: defined_call x).
Proof.
  intros [_ Hns]%defined_call_nonspace. apply directive_line_roundtrip; [|done].
  eapply Forall_impl; [exact Hns|]. by intros ? ? ->.
Qed.

(** [#if defined(x)] pushes whether [x] is in the table. *)
Lemma process_line_if rec opts fp includes iline x st inc :
  is_identifier x = true ->
  process_line rec opts fp includes iline
    (directive_line If (defined_call x)) st inc
  = Done (Next (with_stack (add_if (defined x (defines st)) (stack st)) st) inc).
Proof.
  intros Hx. unfold process_line.
  by rewrite defined_call_match, eval_condition_defined.
Qed.

(** [#elif defined(y)] is [do_elif] with whether [y] is in the table. *)
Lemma process_line_elif rec opts fp includes iline y st inc :
  is_identifier y = true ->
  process_line rec opts fp includes iline
    (directive_line Elif (defined_call y)) st inc
  = let* cs := do_elif (defined y (defines st)) (stack st) in
    Done (Next (with_stack cs st) inc).
Proof.
  intros Hy. unfold process_line, do_elif. rewrite defined_call_match by done.
  destruct (else_allowed (stack st)) as [[]| |]; simpl;
    by rewrite ?eval_condition_defined, ?with_stack_id.
Qed.

(** An opening directive without argument raises on any stack, active or
    not. *)
Lemma process_line_no_argument rec opts fp includes iline c st inc :
  c ∈ [Ifdef; Ifndef; If] ->
  process_line rec opts fp includes iline (bare_line c) st inc
  = Raise (no_argument_error c).
Proof.
  intros Hc. unfold process_line. rewrite bare_line_match.
  repeat (apply elem_of_cons in Hc as [->|Hc]); try done.
  by apply elem_of_nil in Hc.
Qed.

End Lines.

(** ** Theorems *)

Section Theorems.
Context `{FS : FileSystem}.
Implicit Types (rec : rec_call) (st : pstate) (inc : gset path).

(** C19.  The chain [#if defined(x)] / [a] / [#elif defined(y)] / [b] /
    [#else] / [c] / [#endif]: the line [a] is kept when [x] is defined,
    the line [b] when [x] or [y] is defined, and the line [c] always.  A
    branch that was taken is not closed by the [#elif] or the [#else]
    behind it, so up to three branches of one chain are kept. *)
Theorem elif_chain fuel opts includes fp d inc x y a b c :
  is_identifier x = true -> is_identifier y = true ->
  is_plain a = true -> is_plain b = true -> is_plain c = true ->
  readlines fp = Some (elif_file x y a b c) ->
  process_file (S fuel) opts includes fp d inc
  = Done ((if defined x d then a else [])
          ++ (if defined x d || defined y d
              then line_str 3 (path_str fp) ++ b else [])
          ++ line_str 5 (path_str fp) ++ c, inc).
Proof.
  intros Hx Hy Ha%bool_decide_eq_true Hb%bool_decide_eq_true
    Hc%bool_decide_eq_true Hsrc.
  cbn [process_file]. rewrite Hsrc. cbn [expect obind elif_file process_lines].
  rewrite process_line_if by done. cbn [obind defines pstate_init].
  destruct (defined x d) eqn:Dx, (defined y d) eqn:Dy;
    repeat (rewrite ?process_line_plain, ?process_line_elif by done;
            simpl; rewrite ?Dy);
    unfold output; simpl; rewrite ?app_nil_r;
    by repeat (rewrite <- app_assoc; simpl).
Qed.

(** C33.  An opening directive without argument ends the run wherever it
    stands, also in a block that is skipped because [x] is not defined:
    the conditional directives are read before the test of [is_valid].
    The C preprocessor reads the directives of a skipped block for their
    names only. *)
Theorem skipped_directive_is_read fuel opts includes fp d inc x c src :
  is_identifier x = true -> c ∈ [Ifdef; Ifndef; If] ->
  readlines fp = Some (directive_line Ifdef x :: bare_line c :: src) ->
  process_file (S fuel) opts includes fp d inc = Raise (no_argument_error c).
Proof.
  intros Hx Hc Hsrc. rewrite process_file_unfold, Hsrc.
  cbn [expect obind process_lines]. rewrite process_line_ifdef by done.
  cbn [obind]. by rewrite process_line_no_argument.
Qed.

(** The header of the next theorem, called with a table that has [x]. *)
Lemma scope_header_result fuel opts includes q d inc x a y :
  is_identifier x = true -> is_identifier y = true -> is_plain a = true ->
  defined x d = true -> readlines q = Some (scope_header x a y) ->
  process_file (S fuel) opts includes q d inc
  = Done (scope_header_text (passthrough_defines opts) (path_str q) a y, inc).
Proof.
  intros Hx Hy Ha%bool_decide_eq_true Hd Hsrc. cbn [process_file].
  rewrite Hsrc. cbn [expect obind scope_header process_lines].
  rewrite process_line_ifdef by done. cbn [obind defines pstate_init].
  rewrite Hd, process_line_plain by done. cbn [obind].
  rewrite process_line_endif. simpl. rewrite process_line_define by done.
  unfold scope_header_text. destruct (passthrough_defines opts);
    unfold output; simpl; by rewrite ?app_nil_r.
Qed.

(** C16.  Symbols go down into an included file and do not come back.  The
    file [#define x] / [#include "p"] / [#ifdef y] / [b] / [#endif]
    includes the header [#ifdef x] / [a] / [#endif] / [#define y]: the
    header keeps its line [a], because [x] is defined where the
    [#include] stands, and the file drops its line [b], because the [y] of
    the header is not defined behind the [#include]. *)
Theorem include_scope fuel opts includes fp q d inc x y p a b :
  is_identifier x = true -> is_identifier y = true ->
  x <> y -> defined y d = false ->
  is_plain a = true -> has_content a = true -> is_plain b = true ->
  Forall (fun c => c <> dquote) p -> Forall (fun c => c <> nl) p ->
  find_include (these_includes fp includes false) p = Some q ->
  readlines fp = Some (scope_main x p y b) ->
  readlines q = Some (scope_header x a y) ->
  process_file (S (S fuel)) opts includes fp d inc
  = Done ((if passthrough_defines opts
           then line_str 0 (path_str fp) ++ directive_line Define x else [])
          ++ scope_header_text (passthrough_defines opts) (path_str q) a y
          ++ line_str 1 (path_str fp), inc).
Proof.
  intros Hx Hy Hxy Hd Ha Hca Hb%bool_decide_eq_true Hq Hnl Hfind Hmain Hhead.
  pose proof (fun inc => scope_header_result fuel opts includes q
    (define x None d) inc x a y Hx Hy Ha (defined_define_eq _ _ _) Hhead) as Hh.
  rewrite process_file_unfold, Hmain.
  cbn [expect obind scope_main process_lines].
  rewrite process_line_define by done. cbn [obind].
  rewrite process_line_include, Hfind;
    [|done|done|by destruct (passthrough_defines opts)].
  assert (has_content (scope_header_text (passthrough_defines opts)
                         (path_str q) a y) = true) as Hc
    by (unfold scope_header_text; by rewrite has_content_app, Hca).
  destruct (passthrough_defines opts) eqn:Hpt;
    cbn [defines with_out with_defines pstate_init]; rewrite Hh;
    cbn [obind fst snd]; unfold splice; rewrite Hc;
    rewrite process_line_ifdef by done;
    cbn [obind defines with_out with_defines with_stack pstate_init];
    rewrite defined_define, Hd, bool_decide_eq_false_2 by done;
    repeat (rewrite ?process_line_plain by done; simpl);
    unfold output; simpl; rewrite ?app_nil_r;
    by repeat (rewrite <- app_assoc; simpl).
Qed.

End Theorems.

(** ** The theorems at concrete files *)

Section Witnesses.

Lemma elif_chain_witness :
  process_file (FS := scenario_fs) 1 default_options [] (txt "/i/chain.c")
    {[ txt "Y" := None ]} ∅
  = Done ((if defined (txt "X") {[ txt "Y" := None ]} then ln "int a;" else [])
          ++ (if defined (txt "X") {[ txt "Y" := None ]}
                 || defined (txt "Y") {[ txt "Y" := None ]}
              then line_str 3 (txt "/i/chain.c") ++ ln "int b;" else [])
          ++ line_str 5 (txt "/i/chain.c") ++ ln "int c;", ∅).
Proof.
  apply (elif_chain (FS := scenario_fs) 0 default_options []
           (txt "/i/chain.c") {[ txt "Y" := None ]} ∅ (txt "X") (txt "Y"));
    vm_refl.
Defined.

Lemma skipped_directive_is_read_witness :
  process_file (FS := scenario_fs) 1 default_options [] (txt "/i/skip.c") ∅ ∅
  = Raise (no_argument_error If).
Proof.
  apply (skipped_directive_is_read (FS := scenario_fs) 0 default_options []
           (txt "/i/skip.c") ∅ ∅ (txt "X") If
           [ln "int s;"; bare_line Endif; bare_line Endif]);
    [vm_refl|by repeat constructor|vm_refl].
Defined.

Lemma include_scope_witness :
  process_file (FS := scenario_fs) 2 default_options [] (txt "/i/main.c") ∅ ∅
  = Done ((if passthrough_defines default_options
           then line_str 0 (txt "/i/main.c") ++ directive_line Define (txt "X")
           else [])
          ++ scope_header_text (passthrough_defines default_options)
               (txt "/i/h.h") (ln "int a;") (txt "Y")
          ++ line_str 1 (txt "/i/main.c"), ∅).
Proof.
  apply (include_scope (FS := scenario_fs) 0 default_options []
           (txt "/i/main.c") (txt "/i/h.h") ∅ ∅ (txt "X") (txt "Y")
           (txt "h.h") (ln "int a;") (ln "int b;"));
    first [vm_refl|done|by repeat constructor].
Defined.

End Witnesses.
