(* ===== verification/CliArgs.v ===== *)
(** * The command line

    [main] (src/c-preprocess.py, lines 193-270): the loop over the leading
    options (lines 208-217), the three file arguments (lines 226-228), the
    compile database looked up for the second of them (lines 231-243), the
    scan of its command line for [-I] and [-D] switches (lines 245-253),
    [parse_define] (lines 255-260) and the one call of [process_file]
    (line 266).  Reading [sys.argv] and the JSON file and printing are
    input and output: the argument vector and the content of the database
    are arguments of [main], and what is printed is its result. *)

From Stdlib Require Import Ascii String List Bool Arith Lia.
From stdpp Require Import base tactics option list strings gmap.
From S2P Require Import Prelude Chars Symtab Emitter FileSystem FileProc.

#[local] Open Scope list_scope.
#[local] Open Scope outcome_scope.

(** ** Options *)

(** The attributes of [Options] that a command-line option sets. *)
Inductive option_attr : Type := Verbose | PassthroughDefines | Quiet.

(** [options_params], in the order of the dict. *)
Definition options_params : list (text * option_attr) :=
  [ (txt "--verbose", Verbose);
    (txt "--passthrough-defines", PassthroughDefines);
    (txt "-q", Quiet) ].

(** [setattr(options, arg_attr, True)]. *)
Definition setattr (a : option_attr) (o : options) : options :=
  match a with
  | Verbose => Options (passthrough_defines o) true (quiet o)
  | PassthroughDefines => Options true (verbose o) (quiet o)
  | Quiet => Options (passthrough_defines o) (verbose o) true
  end.

(** The [for] loop of lines 210-214: the attribute of the first entry
    whose name is [arg]. *)
Fixpoint find_option (ps : list (text * option_attr)) (arg : text)
  : option option_attr :=
  match ps with
  | [] => None
  | (name, a) :: ps' =>
      if decide (arg = name) then Some a else find_option ps' arg
  end.

(** The [while] loop of lines 208-217: options are taken from the front
    of the arguments up to the first argument that is none. *)
Fixpoint parse_options (args : list text) (o : options)
  : options * list text :=
  match args with
  | [] => (o, [])
  | arg :: args' =>
      match find_option options_params arg with
      | Some a => parse_options args' (setattr a o)
      | None => (o, args)
      end
  end.

(** [arg] is one of the three options. *)
Definition is_option (arg : text) : bool :=
  bool_decide (is_Some (find_option options_params arg)).

(** ** Strings *)

(** [s.split()]: the maximal runs of characters that are not white space;
    [cur] is the run being read. *)
Fixpoint split_ws (cur : text) (s : text) : list text :=
  match s with
  | [] => match cur with [] => [] | _ => [cur] end
  | c :: s' =>
      if is_space c
      then match cur with [] => split_ws [] s' | _ => cur :: split_ws [] s' end
      else split_ws (cur ++ [c]) s'
  end.

Definition py_split (s : text) : list text := split_ws [] s.

(** [s.strip()]. *)
Definition py_strip (s : text) : text :=
  rev (drop_while is_space (rev (drop_while is_space s))).

(** [s.split(sep)] for a separator of one character. *)
Fixpoint split_on (sep : ascii) (cur : text) (s : text) : list text :=
  match s with
  | [] => [cur]
  | c :: s' =>
      if Ascii.eqb c sep then cur :: split_on sep [] s'
      else split_on sep (cur ++ [c]) s'
  end.

(** [s.lstrip(chars)]: [s] without its leading characters that occur in
    [chars]. *)
Definition lstrip (chars s : text) : text :=
  drop_while (fun c => bool_decide (c ∈ chars)) s.

(** The number of occurrences of [c]. *)
Definition count_char (c : ascii) (s : text) : nat :=
  length (filter (fun x => x = c) s).

(** ** Switches *)

(** The list a switch appends to. *)
Inductive switch_list : Type := ToIncludes | ToDefines.

Definition include_switch : text := txt "-I".
Definition define_switch : text := txt "-D".

(** The pairs of the inner loop of line 250, in its order. *)
Definition switches : list (text * switch_list) :=
  [(include_switch, ToIncludes); (define_switch, ToDefines)].

(** The lists [includes] and [defines] of lines 245-246. *)
Record switch_acc : Type := SwitchAcc {
  acc_includes : list text;
  acc_defines : list text;
}.

Definition append_to (l : switch_list) (x : text) (acc : switch_acc)
  : switch_acc :=
  match l with
  | ToIncludes => SwitchAcc (acc_includes acc ++ [x]) (acc_defines acc)
  | ToDefines => SwitchAcc (acc_includes acc) (acc_defines acc ++ [x])
  end.

(** The inner loop of lines 250-253 for one argument: [arg] is assigned
    inside the loop, so the second switch is tested on what the first one
    left. *)
Fixpoint scan_arg (sws : list (text * switch_list)) (arg : text)
    (acc : switch_acc) : switch_acc :=
  match sws with
  | [] => acc
  | (switch, l) :: sws' =>
      if starts_with switch arg
      then scan_arg sws' (lstrip switch arg) (append_to l (lstrip switch arg) acc)
      else scan_arg sws' arg acc
  end.

(** The loop of line 249. *)
Definition scan_switches (args : list text) : switch_acc :=
  foldl (fun acc arg => scan_arg switches arg acc) (SwitchAcc [] []) args.

(** ** Definitions *)

(** [parse_define(s)]: a name alone gives the name and [None]; with one
    [=] the function calls [tuple] with two arguments, which is a
    [TypeError]; more than one [=] fails the assertion. *)
Definition parse_define (s : text) : outcome (text * option text) :=
  let parts := split_on "=" [] s in
  if 2 <? length parts then Raise AssertionError
  else match parts with
       | [name] => Done (name, None)
       | _ => Raise TypeError
       end.

(** [[parse_define(e) for e in defines]]. *)
Fixpoint parse_defines (l : list text)
  : outcome (list (text * option text)) :=
  match l with
  | [] => Done []
  | e :: l' =>
      let* d := parse_define e in
      let* ds := parse_defines l' in
      Done (d :: ds)
  end.

(** [l.pop(0)]. *)
Definition pop0 {A} (l : list A) : outcome (A * list A) :=
  match l with
  | x :: l' => Done (x, l')
  | [] => Raise IndexError
  end.

(** ** The compile database and [main] *)

Section Main.
Context `{FS : FileSystem}.

(** [dict([(Path(e['file']).absolute(), e['command']) for e in ...])]
    looked up at [similar_filepath]: the command of the last entry for
    that file, a [KeyError] when there is none. *)
Fixpoint lookup_command (entries : list (text * text)) (fp : path)
  : option text :=
  match entries with
  | [] => None
  | (file, cmd) :: entries' =>
      match lookup_command entries' fp with
      | Some c => Some c
      | None => if decide (absolute (mkpath file) = fp) then Some cmd else None
      end
  end.

(** [main] for the argument vector [argv] (without the program name) and
    the content [db] of the compile database of each file; [fuel] bounds
    the depth of inclusion.  The result is what is printed: the text, or
    nothing with [-q]. *)
Definition main (fuel : nat) (db : path -> option (list (text * text)))
    (argv : list text) : outcome (option text) :=
  let '(opts, args) := parse_options argv default_options in
  let filepaths := (fun a => absolute (mkpath a)) <$> args in
  let* '(compile_commands_filepath, filepaths) := pop0 filepaths in
  let* '(similar_filepath, filepaths) := pop0 filepaths in
  let* '(process_filepath, filepaths) := pop0 filepaths in
  let* entries := expect OSError (db compile_commands_filepath) in
  let* command :=
    expect (KeyError (path_str similar_filepath))
      (lookup_command entries similar_filepath) in
  let acc := scan_switches (py_split (py_strip command)) in
  let includes := mkpath <$> acc_includes acc in
  let* defs := parse_defines (acc_defines acc) in
  let* src := process fuel opts (absolute process_filepath) includes
                (symtab_of_list defs) in
  Done (if quiet opts then None else Some src).

End Main.

(** ** A tree of files and a database to run [main] on *)

Definition cli_files : list (text * list text) :=
  [ (txt "/w/main.c",
     [ln "#ifdef EBUG"; ln "stripped"; ln "#endif";
      ln "#ifdef DEBUG"; ln "debug"; ln "#endif"; ln "int m;"]) ].

Definition cli_fs : FileSystem := mem_fs cli_files.

Definition cli_db (command : string) (p : text)
  : option (list (text * text)) :=
  if decide (p = txt "/w/db.json")
  then Some [(txt "/w/main.c", txt command)]
  else None.

Definition cli_argv : list text :=
  [txt "-q"; txt "--verbose"; txt "/w/db.json"; txt "/w/main.c";
   txt "/w/main.c"].

(** ** Options *)

Section Options.
Implicit Types (o : options) (args : list text).

Lemma is_option_true arg :
  is_option arg = true <-> exists a, find_option options_params arg = Some a.
Proof. unfold is_option. by rewrite bool_decide_eq_true. Qed.

Lemma is_option_false arg :
  is_option arg = false <-> find_option options_params arg = None.
Proof.
  unfold is_option. by rewrite bool_decide_eq_false, eq_None_not_Some.
Qed.

(** C27.  The option loop takes exactly the longest prefix of the arguments
    made of options, sets the attribute of each, and leaves the rest
    untouched: an option behind the first file name is a file name. *)
Theorem parse_options_spec args o :
  parse_options args o
  = (foldl (fun o a => setattr a o) o
       (omap (find_option options_params) (take_while is_option args)),
     drop_while is_option args).
Proof.
  revert o. induction args as [|arg args IH]; intros o; [done|].
  cbn [parse_options take_while drop_while].
  destruct (find_option options_params arg) as [a|] eqn:E.
  - rewrite (proj2 (is_option_true arg)) by eauto.
    cbn [omap list_omap]. rewrite E. cbn [foldl]. apply IH.
  - by rewrite (proj2 (is_option_false arg)).
Qed.

(** An attribute that is set stays set. *)
Lemma setattr_mono a o :
  (passthrough_defines o = true -> passthrough_defines (setattr a o) = true)
  /\ (verbose o = true -> verbose (setattr a o) = true)
  /\ (quiet o = true -> quiet (setattr a o) = true).
Proof. by destruct a. Qed.

End Options.

(** ** Strings *)

Section Strings.
Implicit Types (s cur : text) (c sep : ascii).

Lemma count_char_cons c x s :
  count_char c (x :: s) = (if decide (x = c) then 1 else 0) + count_char c s.
Proof. unfold count_char. rewrite filter_cons. by case_decide. Qed.

Lemma split_on_length sep s : forall cur,
  length (split_on sep cur s) = S (count_char sep s).
Proof.
  induction s as [|c s IH]; intros cur; [done|]. simpl.
  rewrite count_char_cons. destruct (Ascii.eqb_spec c sep) as [->|Hne].
  - rewrite decide_True by done. simpl. by rewrite IH.
  - rewrite decide_False by done. by rewrite IH.
Qed.

Lemma split_on_none sep s : forall cur,
  count_char sep s = 0 -> split_on sep cur s = [cur ++ s].
Proof.
  induction s as [|c s IH]; intros cur; simpl; [by rewrite app_nil_r|].
  rewrite count_char_cons. destruct (Ascii.eqb_spec c sep) as [->|Hne].
  - by rewrite decide_True.
  - rewrite decide_False by done. intros H. rewrite IH by done.
    by rewrite <- app_assoc.
Qed.

Lemma lstrip_prefix chars s :
  Forall (fun c => c ∈ chars) s -> forall t, lstrip chars (s ++ t) = lstrip chars t.
Proof.
  intros Hs t. unfold lstrip. induction Hs as [|c s Hc _ IH]; [done|].
  simpl. by rewrite bool_decide_eq_true_2.
Qed.

(** [lstrip] returns its argument exactly when the argument does not
    start with one of the characters. *)
Lemma lstrip_id chars s :
  lstrip chars s = s <-> match s with [] => True | c :: _ => c ∉ chars end.
Proof.
  unfold lstrip. destruct s as [|c s]; [done|]. simpl.
  destruct (decide (c ∈ chars)) as [Hc|Hc].
  - rewrite bool_decide_eq_true_2 by done. split; [|done]. intros E.
    pose proof (length_drop_while (fun c => bool_decide (c ∈ chars)) s) as Hl.
    rewrite E in Hl. simpl in Hl. lia.
  - by rewrite bool_decide_eq_false_2.
Qed.

(** What [lstrip] returns starts with none of the characters. *)
Lemma lstrip_head chars s c t : lstrip chars s = c :: t -> c ∉ chars.
Proof.
  unfold lstrip. intros E%drop_while_head. by apply bool_decide_eq_false in E.
Qed.

(** The words of [split()] have no white space and are not empty. *)
Lemma split_ws_words s : forall cur,
  Forall (fun c => is_space c = false) cur ->
  Forall (fun w => w <> [] /\ Forall (fun c => is_space c = false) w)
    (split_ws cur s).
Proof.
  induction s as [|c s IH]; intros cur Hcur; simpl.
  - destruct cur; [constructor|]. constructor; [done|constructor].
  - destruct (is_space c) eqn:Hc.
    + destruct cur; [by apply IH|]. constructor; [done|]. by apply IH.
    + apply IH. apply Forall_app. split; [done|]. by constructor.
Qed.

(** The characters of the words are the characters of the text that are
    not white space, in order. *)
Lemma split_ws_concat s : forall cur,
  concat (split_ws cur s) = cur ++ filter (fun c => is_space c = false) s.
Proof.
  induction s as [|c s IH]; intros cur; simpl.
  - destruct cur; simpl; by rewrite ?app_nil_r.
  - rewrite filter_cons. destruct (is_space c) eqn:Hc.
    + rewrite decide_False by done.
      destruct cur; simpl; rewrite IH; done.
    + rewrite decide_True by done. rewrite IH. by rewrite <- app_assoc.
Qed.

Lemma split_ws_leading s :
  forall ws, Forall (fun c => is_space c = true) ws ->
  split_ws [] (ws ++ s) = split_ws [] s.
Proof. intros ws Hws. induction Hws as [|c ws Hc _ IH]; simpl; by rewrite ?Hc. Qed.

Lemma split_ws_trailing ws :
  Forall (fun c => is_space c = true) ws ->
  forall s cur, split_ws cur (s ++ ws) = split_ws cur s.
Proof.
  intros Hws s. induction s as [|c s IH]; intros cur; simpl.
  - induction Hws as [|c ws Hc _ IH] in cur |- *; simpl; [done|].
    rewrite Hc. destruct cur; [apply IH|]. by rewrite IH.
  - destruct (is_space c); [destruct cur|]; by rewrite ?IH.
Qed.

(** The [strip()] in front of [split()] changes nothing. *)
Lemma py_split_strip s : py_split (py_strip s) = py_split s.
Proof.
  unfold py_split, py_strip.
  rewrite <- (take_drop_while is_space s) at 2.
  rewrite split_ws_leading by apply take_while_Forall.
  set (t := drop_while is_space s).
  rewrite <- (rev_involutive t) at 2.
  rewrite <- (take_drop_while is_space (rev t)) at 2.
  rewrite rev_app_distr, split_ws_trailing; [done|].
  apply Forall_rev, take_while_Forall.
Qed.

End Strings.

(** ** Switches *)

Section Switches.
Implicit Types (name arg : text) (acc : switch_acc).

Lemma starts_with_app (p r : text) : starts_with p (p ++ r) = true.
Proof. apply starts_with_true. by exists r. Qed.

Lemma starts_with_head (p s : text) c :
  starts_with (c :: p) s = true -> exists t, s = c :: t.
Proof. intros [r ->]%starts_with_true. by exists (p ++ r). Qed.

Lemma lstrip_switch (switch name : text) :
  lstrip switch (switch ++ name) = lstrip switch name.
Proof. apply lstrip_prefix. by apply Forall_forall. Qed.

(** What [lstrip] leaves of an include switch is no define switch: an
    argument is recorded once. *)
Lemma lstrip_include_not_define arg :
  starts_with define_switch (lstrip include_switch arg) = false.
Proof.
  destruct (starts_with _ _) eqn:E; [|done].
  apply starts_with_head in E as [t Ht].
  apply lstrip_head in Ht. destruct Ht. by left.
Qed.

(** For the argument [-D] followed by [name], the scan records [name]
    without every leading [-] and [D], in [defines] and nowhere else. *)
Theorem define_switch_lstrip name acc :
  scan_arg switches (define_switch ++ name) acc
  = append_to ToDefines (lstrip define_switch name) acc.
Proof.
  unfold switches. cbn [scan_arg].
  replace (starts_with include_switch (define_switch ++ name)) with false
    by done.
  by rewrite starts_with_app, lstrip_switch.
Qed.

(** For [-I] followed by [dir], the scan records [dir] without every
    leading [-] and [I], in [includes] and nowhere else. *)
Lemma include_switch_lstrip name acc :
  scan_arg switches (include_switch ++ name) acc
  = append_to ToIncludes (lstrip include_switch name) acc.
Proof.
  unfold switches. cbn [scan_arg].
  by rewrite starts_with_app, lstrip_switch, lstrip_include_not_define.
Qed.

(** An argument that is no switch is skipped. *)
Lemma scan_arg_other arg acc :
  starts_with include_switch arg = false ->
  starts_with define_switch arg = false ->
  scan_arg switches arg acc = acc.
Proof. unfold switches. cbn [scan_arg]. by intros -> ->. Qed.

(** C24.  The symbol recorded for [-D] followed by [name] is [name] exactly
    when [name] starts with neither [D] nor [-]: [-DDEBUG] defines [EBUG]. *)
Theorem define_switch_faithful name :
  acc_defines (scan_switches [define_switch ++ name]) = [name]
  <-> match name with
      | [] => True
      | c :: _ => c <> "-"%char /\ c <> "D"%char
      end.
Proof.
  unfold scan_switches. cbn [foldl]. rewrite define_switch_lstrip. simpl.
  split.
  - intros [= E]. apply lstrip_id in E. destruct name as [|c name]; [done|].
    split; intros ->; apply E; by repeat constructor.
  - intros H. f_equal. apply lstrip_id. destruct name as [|c name]; [done|].
    destruct H as [H1 H2].
    by intros [->|[->|?%elem_of_nil]%elem_of_cons]%elem_of_cons.
Qed.

End Switches.

(** ** Definitions *)

Section Defines.
Implicit Types (s : text) (l : list text).

(** [parse_define] by the number of [=] in its argument. *)
Lemma parse_define_cases s :
  parse_define s
  = match count_char "=" s with
    | 0 => Done (s, None)
    | 1 => Raise TypeError
    | _ => Raise AssertionError
    end.
Proof.
  unfold parse_define. pose proof (split_on_length "=" s []) as Hl.
  destruct (count_char "=" s) as [|[|n]] eqn:E.
  - by rewrite split_on_none.
  - by destruct (split_on "=" [] s) as [|a [|b [|? ?]]].
  - by rewrite Hl.
Qed.

(** C23.  [parse_define] returns only for a text without [=], and then
    the text itself with no value; it raises [TypeError] exactly for a text
    with one [=] (the call of [tuple] with two arguments) and
    [AssertionError] exactly for a text with more: a [-D] switch cannot
    give a symbol a value. *)
Theorem parse_define_spec s :
  (forall r, parse_define s = Done r <-> count_char "=" s = 0 /\ r = (s, None))
  /\ (parse_define s = Raise TypeError <-> count_char "=" s = 1)
  /\ (parse_define s = Raise AssertionError <-> 2 <= count_char "=" s).
Proof.
  rewrite parse_define_cases.
  destruct (count_char "=" s) as [|[|n]]; split_and!; try intros r;
    split; try done; try lia; try (intros [? ?]; congruence);
    try (by intros [= <-]).
Qed.

(** The definitions [main] hands to [process_file] have no value. *)
Lemma parse_defines_Done l ds :
  parse_defines l = Done ds ->
  ds = (fun e => (e, None)) <$> l /\ Forall (fun e => count_char "=" e = 0) l.
Proof.
  revert ds. induction l as [|e l IH]; intros ds; simpl.
  - by intros [= <-].
  - rewrite parse_define_cases.
    destruct (count_char "=" e) as [|[|n]] eqn:E; [|done..]. simpl.
    destruct (parse_defines l) as [ds'| |]; [|done..]. simpl.
    intros [= <-]. destruct (IH ds' eq_refl) as [-> ?]. by split; [|constructor].
Qed.

Lemma parse_defines_value l :
  Exists (fun e => 0 < count_char "=" e) l ->
  parse_defines l = Raise TypeError \/ parse_defines l = Raise AssertionError.
Proof.
  induction 1 as [e l He|e l _ IH]; simpl; rewrite parse_define_cases.
  - destruct (count_char "=" e) as [|[|n]]; [lia|auto..].
  - destruct (count_char "=" e) as [|[|n]]; [|auto..]. simpl.
    by destruct IH as [-> | ->]; auto.
Qed.

End Defines.

(** ** [main] *)

Section MainFacts.
Context `{FS : FileSystem}.
Implicit Types (argv : list text) (db : path -> option (list (text * text))).

(** The last entry of the database for a file is the one that counts. *)
Lemma lookup_command_last entries file cmd :
  lookup_command (entries ++ [(file, cmd)]) (absolute (mkpath file)) = Some cmd.
Proof.
  induction entries as [|[f c] entries IH]; simpl.
  - by rewrite decide_True.
  - by rewrite IH.
Qed.

Lemma parse_defines_names l :
  Forall (fun e => count_char "=" e = 0) l ->
  parse_defines l = Done ((fun e => (e, None)) <$> l).
Proof.
  induction 1 as [|e l He _ IH]; simpl; [done|].
  by rewrite parse_define_cases, He, IH.
Qed.

(** With fewer than three arguments behind the options [main] raises
    [IndexError], before it reads any file. *)
Theorem main_needs_three_files fuel db argv :
  length (parse_options argv default_options).2 < 3 ->
  main fuel db argv = Raise IndexError.
Proof.
  unfold main. destruct (parse_options argv default_options) as [opts args].
  destruct args as [|a [|b [|c rest]]]; simpl; try done; lia.
Qed.

(** C26.  When the command line of the database has a [-D] switch with an
    [=] in it, [main] raises [TypeError] or [AssertionError] and processes
    nothing: no symbol can be given a value from the command line. *)
Theorem main_value_define_fails fuel db argv opts a b c rest entries command :
  parse_options argv default_options = (opts, a :: b :: c :: rest) ->
  db (absolute (mkpath a)) = Some entries ->
  lookup_command entries (absolute (mkpath b)) = Some command ->
  Exists (fun e => 0 < count_char "=" e)
    (acc_defines (scan_switches (py_split command))) ->
  main fuel db argv = Raise TypeError
  \/ main fuel db argv = Raise AssertionError.
Proof.
  intros Hargs Hdb Hcmd Hex. unfold main.
  rewrite Hargs. simpl. rewrite Hdb. simpl.
  rewrite Hcmd. simpl. rewrite py_split_strip.
  by destruct (parse_defines_value _ Hex) as [-> | ->]; auto.
Qed.

(** C25.  Otherwise [main] is one call of [process_file]: on the third
    file, with the options of the command line, the include directories of
    the [-I] switches in their order, the symbols of the [-D] switches
    bound to no value, and an empty registry; the text is the result
    unless [-q] was given. *)
Theorem main_spec fuel db argv opts a b c rest entries command :
  parse_options argv default_options = (opts, a :: b :: c :: rest) ->
  db (absolute (mkpath a)) = Some entries ->
  lookup_command entries (absolute (mkpath b)) = Some command ->
  Forall (fun e => count_char "=" e = 0)
    (acc_defines (scan_switches (py_split command))) ->
  main fuel db argv
  = let acc := scan_switches (py_split command) in
    let* src := process fuel opts (absolute (absolute (mkpath c)))
                  (mkpath <$> acc_includes acc)
                  (symtab_of_list ((fun e => (e, None)) <$> acc_defines acc)) in
    Done (if quiet opts then None else Some src).
Proof.
  intros Hargs Hdb Hcmd Hdefs. unfold main.
  rewrite Hargs. simpl. rewrite Hdb. simpl.
  rewrite Hcmd. simpl. rewrite py_split_strip.
  by rewrite parse_defines_names.
Qed.

End MainFacts.

(** ** The theorems at concrete command lines *)

Section Witnesses.

Lemma main_needs_three_files_witness :
  main (FS := cli_fs) 1 (cli_db "cc") [txt "-q"; txt "/w/db.json"; txt "x.c"]
  = Raise IndexError.
Proof. apply (main_needs_three_files (FS := cli_fs)). vm_compute. lia. Defined.

Lemma main_value_define_fails_witness :
  main (FS := cli_fs) 2 (cli_db "cc -DX=1 -c main.c") cli_argv
  = Raise TypeError
  \/ main (FS := cli_fs) 2 (cli_db "cc -DX=1 -c main.c") cli_argv
     = Raise AssertionError.
Proof.
  apply (main_value_define_fails (FS := cli_fs) 2 _ cli_argv
           (Options false true true) (txt "/w/db.json") (txt "/w/main.c") (txt "/w/main.c") []
           [(txt "/w/main.c", txt "cc -DX=1 -c main.c")]
           (txt "cc -DX=1 -c main.c")); try vm_refl.
  left. vm_compute. lia.
Defined.

Lemma main_spec_witness :
  main (FS := cli_fs) 2 (cli_db "cc -DDEBUG -Iinc -c main.c") cli_argv
  = Done None.
Proof.
  rewrite (main_spec (FS := cli_fs) 2 _ cli_argv
           (Options false true true) (txt "/w/db.json") (txt "/w/main.c") (txt "/w/main.c") []
           [(txt "/w/main.c", txt "cc -DDEBUG -Iinc -c main.c")]
           (txt "cc -DDEBUG -Iinc -c main.c")); try vm_refl.
  vm_compute. repeat constructor.
Defined.

(** With [-DDEBUG] on the command line the file sees [EBUG] defined and
    [DEBUG] undefined. *)
Example main_DEBUG_defines_EBUG :
  main (FS := cli_fs) 2 (cli_db "cc -DDEBUG -c main.c")
    [txt "/w/db.json"; txt "/w/main.c"; txt "/w/main.c"]
  = Done (Some (ln "stripped" ++ line_str 6 (txt "/w/main.c") ++ ln "int m;")).
Proof. vm_refl. Qed.

End Witnesses.
